(** * Vinyl Collection Manager: a model of [app/crud.py] and [app/main.py]

    The development follows the two source modules.  Text is a list of
    characters; the database session is a unit of work over two tables;
    the route handlers are computations in a small state-and-exception
    monad, so that what a handler logs, stores and answers can be read
    off by evaluation. *)

From Stdlib Require Import List String Ascii ZArith Lia Bool Arith.
From Stdlib Require Import Permutation Sorted DecimalString.
Import ListNotations.

Local Open Scope string_scope.
Local Open Scope list_scope.
Local Open Scope Z_scope.

(* ================================================================== *)
(** * Text *)
(* ================================================================== *)

(** A Python [str] is modelled as the list of its characters, one
    [ascii] per character (code points below 256).  The fixed Russian
    messages of the source are kept as the bytes of their UTF-8
    encoding: their length is never inspected by the program. *)
Definition text := list ascii.

Definition T (s : string) : text := list_ascii_of_string s.
Coercion T : string >-> text.

Module Text.

(** [len(s)] *)
Definition len (s : text) : Z := Z.of_nat (List.length s).

(** [not s] for a string: it is empty. *)
Definition falsy (s : text) : bool :=
  match s with [] => true | _ :: _ => false end.

(** [c in s] for a one-character [c]. *)
Fixpoint contains_char (c : ascii) (s : text) : bool :=
  match s with
  | [] => false
  | x :: s' => Ascii.eqb x c || contains_char c s'
  end.

(** [s.split(sep)] for a one-character separator. *)
Fixpoint split (sep : ascii) (s : text) : list text :=
  match s with
  | [] => [[]]
  | c :: s' =>
      if Ascii.eqb c sep then [] :: split sep s'
      else match split sep s' with
           | [] => [[c]]
           | w :: ws => (c :: w) :: ws
           end
  end.

(** [l[-1]] on a list of strings ([split] never returns an empty
    list). *)
Definition last_item (l : list text) : text := List.last l [].

(** [str.isspace] on one character, for the code points below 256:
    tab, line feed, vertical tab, form feed, carriage return, the
    four separators 28 to 31, space, next line (133) and no-break
    space (160). *)
Definition is_space (c : ascii) : bool :=
  let n := N_of_ascii c in
  ((9 <=? n) && (n <=? 13) || (28 <=? n) && (n <=? 32)
   || (n =? 133) || (n =? 160))%N.

Fixpoint lstrip (s : text) : text :=
  match s with
  | [] => []
  | c :: s' => if is_space c then lstrip s' else s
  end.

Definition rstrip (s : text) : text := rev (lstrip (rev s)).

(** [s.strip()] *)
Definition strip (s : text) : text := rstrip (lstrip s).

(** ASCII case folding, as the database applies it to both sides of
    a case-insensitive comparison. *)
Definition lower_char (c : ascii) : ascii :=
  let n := N_of_ascii c in
  if ((65 <=? n) && (n <=? 90))%N then ascii_of_N (n + 32) else c.

Definition lower (s : text) : text := map lower_char s.

(** [str(n)] for an integer. *)
Definition of_Z (n : Z) : text := NilZero.string_of_int (Z.to_int n).

(** ["; ".join(parts)] *)
Fixpoint join (sep : text) (parts : list text) : text :=
  match parts with
  | [] => []
  | [p] => p
  | p :: rest => p ++ sep ++ join sep rest
  end.

Definition eqb (a b : text) : bool :=
  if list_eq_dec ascii_dec a b then true else false.

(** [s.startswith(p)] *)
Fixpoint starts_with (p s : text) : bool :=
  match p, s with
  | [], _ => true
  | _ :: _, [] => false
  | c :: p', d :: s' => Ascii.eqb c d && starts_with p' s'
  end.

(** [p in s] for two strings. *)
Fixpoint contains (p s : text) : bool :=
  starts_with p s || match s with [] => false | _ :: s' => contains p s' end.

End Text.

(* ================================================================== *)
(** * Validation ([app/main.py]) *)
(* ================================================================== *)

Module Msg.
Definition bad_email : text := "Некорректный email адрес".
Definition username_short : text :=
  "Имя пользователя должно содержать минимум 3 символа".
Definition username_long : text :=
  "Имя пользователя слишком длинное (максимум 50 символов)".
Definition password_short : text :=
  "Пароль должен содержать минимум 6 символов".
Definition password_long : text :=
  "Пароль слишком длинный (максимум 72 символа)".
Definition password_mismatch : text := "Пароли не совпадают".
Definition title_required : text := "Название альбома обязательно".
Definition title_long : text :=
  "Название альбома слишком длинное (максимум 200 символов)".
Definition artist_required : text := "Исполнитель обязателен".
Definition artist_long : text :=
  "Имя исполнителя слишком длинное (максимум 100 символов)".
Definition year_range (current_year : Z) : text :=
  T "Год выпуска должен быть между 1900 и " ++ Text.of_Z current_year.
Definition user_exists : text :=
  "Пользователь с таким email или username уже существует".
Definition album_not_found : text := "Альбом не найден".
Definition page_not_found : text := "Страница не найдена".
Definition registration_failed : text := "Произошла ошибка при регистрации".
Definition create_failed : text := "Ошибка при создании альбома".
Definition update_failed : text := "Ошибка при обновлении альбома".
Definition internal_error : text := "Внутренняя ошибка сервера: ".
Definition log_unhandled : text := "Необработанное исключение: ".
Definition log_register : text := "Ошибка при регистрации: ".
Definition log_create : text := "Ошибка при создании альбома: ".
Definition log_update : text := "Ошибка при обновлении альбома: ".
Definition log_delete : text := "Ошибка при удалении альбома: ".
Definition not_authenticated : text := "Not authenticated".
Definition validation_failed : text := "Ошибка валидации данных".
Definition field_required : text := "Field required".
End Msg.

(** [errors.append(m)] when the test holds. *)
Definition append_if (test : bool) (m : text) (errors : list text) : list text :=
  if test then errors ++ [m] else errors.

(** [validate_user_registration(email, username, password, confirm_password)] *)
Definition validate_user_registration
    (email username password confirm_password : text) : list text :=
  let errors := [] in
  let errors :=
    append_if (Text.falsy email
               || negb (Text.contains_char "@" email)
               || negb (Text.contains_char "." (Text.last_item (Text.split "@" email))))
              Msg.bad_email errors in
  let errors :=
    if Text.falsy username || (Text.len username <? 3)
    then errors ++ [Msg.username_short]
    else if Text.len username >? 50
         then errors ++ [Msg.username_long]
         else errors in
  let errors :=
    if Text.falsy password || (Text.len password <? 6)
    then errors ++ [Msg.password_short]
    else if Text.len password >? 72
         then errors ++ [Msg.password_long]
         else errors in
  let errors :=
    append_if (negb (Text.eqb password confirm_password))
              Msg.password_mismatch errors in
  errors.

(** [not s or len(s.strip()) == 0] for an argument that may be [None]. *)
Definition missing_or_blank (s : option text) : bool :=
  match s with
  | None => true
  | Some s => Text.falsy s || (Text.len (Text.strip s) =? 0)
  end.

(** [len(s) > n], reached only when [s] is a non-empty string. *)
Definition longer_than (n : Z) (s : option text) : bool :=
  match s with
  | None => false
  | Some s => Text.len s >? n
  end.

(** [validate_album_data(title, artist, release_year=None)];
    [current_year] is [datetime.now().year]. *)
Definition validate_album_data (current_year : Z)
    (title artist : option text) (release_year : option Z) : list text :=
  let errors := [] in
  let errors :=
    if missing_or_blank title
    then errors ++ [Msg.title_required]
    else if longer_than 200 title
         then errors ++ [Msg.title_long]
         else errors in
  let errors :=
    if missing_or_blank artist
    then errors ++ [Msg.artist_required]
    else if longer_than 100 artist
         then errors ++ [Msg.artist_long]
         else errors in
  let errors :=
    match release_year with
    | Some y =>
        if (y <? 1900) || (y >? current_year)
        then errors ++ [Msg.year_range current_year]
        else errors
    | None => errors
    end in
  errors.

(* ================================================================== *)
(** * Data model ([app/models.py]) *)
(* ================================================================== *)

Module User.
Record t := mk {
  id : Z;
  email : text;
  username : text;
  hashed_password : text;
  is_active : bool;
  created_at : Z
}.

(** [User(email=..., username=..., hashed_password=...)]: an object
    that has not been flushed.  Its key, flag and time are filled in
    by the INSERT; until then they hold 0 / [true] / 0, which nothing
    reads. *)
Definition new (email username hashed_password : text) : t :=
  mk 0 email username hashed_password true 0.
End User.

Module Album.
Record t := mk {
  id : Z;
  title : option text;
  artist : option text;
  genre : option text;
  release_year : option Z;
  record_label : option text;
  country : option text;
  condition : option text;
  barcode : option text;
  notes : option text;
  created_at : Z;
  owner_id : option Z
}.

(** An object none of whose attributes has been set. *)
Definition fresh : t :=
  mk 0 None None None None None None None None None 0 None.

Inductive column :=
| c_id | c_title | c_artist | c_genre | c_release_year | c_record_label
| c_country | c_condition | c_barcode | c_notes | c_created_at | c_owner_id.

Inductive cell :=
| Str (v : option text)
| Int (v : option Z).

Definition get (c : column) (a : t) : cell :=
  match c with
  | c_id => Int (Some (id a))
  | c_title => Str (title a)
  | c_artist => Str (artist a)
  | c_genre => Str (genre a)
  | c_release_year => Int (release_year a)
  | c_record_label => Str (record_label a)
  | c_country => Str (country a)
  | c_condition => Str (condition a)
  | c_barcode => Str (barcode a)
  | c_notes => Str (notes a)
  | c_created_at => Int (Some (created_at a))
  | c_owner_id => Int (owner_id a)
  end.

Definition column_eqb (x y : column) : bool :=
  match x, y with
  | c_id, c_id | c_title, c_title | c_artist, c_artist | c_genre, c_genre
  | c_release_year, c_release_year | c_record_label, c_record_label
  | c_country, c_country | c_condition, c_condition | c_barcode, c_barcode
  | c_notes, c_notes | c_created_at, c_created_at | c_owner_id, c_owner_id => true
  | _, _ => false
  end.
End Album.

(** One entry of a keyword dictionary [**album_data]: the attribute
    named and the value given for it, [None] included. *)
Inductive kwarg :=
| kw_title (v : option text)
| kw_artist (v : option text)
| kw_genre (v : option text)
| kw_release_year (v : option Z)
| kw_record_label (v : option text)
| kw_country (v : option text)
| kw_condition (v : option text)
| kw_barcode (v : option text)
| kw_notes (v : option text)
| kw_owner_id (v : option Z).

Definition kw_column (k : kwarg) : Album.column :=
  match k with
  | kw_title _ => Album.c_title
  | kw_artist _ => Album.c_artist
  | kw_genre _ => Album.c_genre
  | kw_release_year _ => Album.c_release_year
  | kw_record_label _ => Album.c_record_label
  | kw_country _ => Album.c_country
  | kw_condition _ => Album.c_condition
  | kw_barcode _ => Album.c_barcode
  | kw_notes _ => Album.c_notes
  | kw_owner_id _ => Album.c_owner_id
  end.

Definition kw_value (k : kwarg) : Album.cell :=
  match k with
  | kw_title v | kw_artist v | kw_genre v | kw_record_label v | kw_country v
  | kw_condition v | kw_barcode v | kw_notes v => Album.Str v
  | kw_release_year v | kw_owner_id v => Album.Int v
  end.

(** [value is None] *)
Definition is_none (k : kwarg) : bool :=
  match kw_value k with
  | Album.Str None | Album.Int None => true
  | _ => false
  end.

(** [setattr(album, key, value)] *)
Definition setattr (a : Album.t) (k : kwarg) : Album.t :=
  let 'Album.mk i ti ar ge ry rl co cn ba no ca ow := a in
  match k with
  | kw_title v => Album.mk i v ar ge ry rl co cn ba no ca ow
  | kw_artist v => Album.mk i ti v ge ry rl co cn ba no ca ow
  | kw_genre v => Album.mk i ti ar v ry rl co cn ba no ca ow
  | kw_release_year v => Album.mk i ti ar ge v rl co cn ba no ca ow
  | kw_record_label v => Album.mk i ti ar ge ry v co cn ba no ca ow
  | kw_country v => Album.mk i ti ar ge ry rl v cn ba no ca ow
  | kw_condition v => Album.mk i ti ar ge ry rl co v ba no ca ow
  | kw_barcode v => Album.mk i ti ar ge ry rl co cn v no ca ow
  | kw_notes v => Album.mk i ti ar ge ry rl co cn ba v ca ow
  | kw_owner_id v => Album.mk i ti ar ge ry rl co cn ba no ca v
  end.

(** [{k: v for k, v in album_data.items() if v is not None}] *)
Definition drop_none (album_data : list kwarg) : list kwarg :=
  filter (fun k => negb (is_none k)) album_data.

Record Tables := mkTables {
  users : list User.t;
  albums : list Album.t
}.

(* ================================================================== *)
(** * Exceptions, session and the handler monad *)
(* ================================================================== *)

(** One entry of [exc.errors()] of a [RequestValidationError]: where
    the error is and what it is. *)
Record ValidationError := mkError {
  err_loc : list text;
  err_msg : text
}.

(** The fields of a submitted form, by name. *)
Definition Body := list (text * text).

Inductive Exn :=
| HTTPException (status_code : Z) (detail : text)
| TypeError (msg : text)
| DatabaseError (msg : text)
| RequestValidationError (errors : list ValidationError) (body : Body).

(** [str(e)].  A [RequestValidationError] is raised before a route
    function runs and has a handler of its own, so that its text is
    never asked for. *)
Definition str_exn (e : Exn) : text :=
  match e with
  | HTTPException c d => Text.of_Z c ++ T ": " ++ d
  | TypeError m => m
  | DatabaseError m => m
  | RequestValidationError errors _ => Text.join "; " (map err_msg errors)
  end.

(** What a session holds between [commit]s: objects added, attached
    objects whose attributes were set, objects marked for deletion. *)
Inductive Change :=
| InsertUser (u : User.t)
| InsertAlbum (a : Album.t)
| UpdateAlbum (a : Album.t)
| DeleteAlbum (a : Album.t).

(** What a request runs in: the clock, the database's disposition and
    the functions that [app/main.py] and [app/crud.py] import from
    [app/auth.py] ([get_password_hash], [verify_password],
    [create_access_token], [decode_token]), whose source is missing
    and which are therefore parameters here.  A decoded payload is
    represented by its ["sub"] entry.  [commit_fault] is [Some m] when
    the database is going to refuse the next commit with an error of
    text [m] (lost connection, full disk, ...).  [base_url] is the
    scheme and host the requests are sent to: [str(request.url)] is
    [base_url] followed by the path (a query string on a request
    that submits a form is not modelled). *)
Record Env := mkEnv {
  utcnow : Z;
  current_year : Z;
  commit_fault : option text;
  get_password_hash : text -> text;
  verify_password : text -> text -> bool;
  create_access_token : text -> text;
  decode_token : text -> option (option text);
  base_url : text
}.

Record State := mkState {
  stored : Tables;
  pending : list Change;
  log : list text
}.

Definition M (A : Type) : Type := Env -> State -> (Exn + A) * State.

Definition ret {A} (a : A) : M A := fun _ s => (inr a, s).

Definition bind {A B} (m : M A) (k : A -> M B) : M B :=
  fun e s =>
    match m e s with
    | (inl x, s') => (inl x, s')
    | (inr a, s') => k a e s'
    end.

Definition raise {A} (x : Exn) : M A := fun _ s => (inl x, s).

(** [try: body  except C1 as e: h1(e)  except C2 as e: h2(e) ...]: each
    clause says which exceptions it catches; the first that catches
    the exception handles it, and an exception raised by a handler is
    not caught by a later clause. *)
Definition clause (A : Type) : Type := ((Exn -> bool) * (Exn -> M A))%type.

Definition try_except {A} (body : M A) (clauses : list (clause A)) : M A :=
  fun e s =>
    match body e s with
    | (inl x, s') =>
        match find (fun c : clause A => fst c x) clauses with
        | Some c => snd c x e s'
        | None => (inl x, s')
        end
    | r => r
    end.

Definition ask : M Env := fun e s => (inr e, s).

Declare Scope monad_scope.
Delimit Scope monad_scope with M.
Notation "x <- c ;; k" := (bind c (fun x => k))
  (at level 61, c at next level, right associativity) : monad_scope.
Notation "c ;;; k" := (bind c (fun _ => k))
  (at level 61, right associativity) : monad_scope.
Local Open Scope monad_scope.

Definition is_http (x : Exn) : bool :=
  match x with HTTPException _ _ => true | _ => false end.
Definition any_exception (x : Exn) : bool := true.

(** [logger.error(msg)] *)
Definition logger_error (msg : text) : M unit :=
  fun _ s => (inr tt, mkState (stored s) (pending s) (log s ++ [msg])).

Module Db.

(** The key the database gives a new row: one more than the largest
    key in the table. *)
Definition next_key (keys : list Z) : Z := 1 + fold_right Z.max 0 keys.

Definition is_null {A} (v : option A) : bool :=
  match v with None => true | Some _ => false end.

(** One statement of a flush.  The tables' declared constraints are
    checked here: unique email and username, title and artist not
    null. *)
Definition flush1 (now : Z) (c : Change) (t : Tables) : Exn + (Tables * list Z) :=
  match c with
  | InsertUser u =>
      if existsb (fun r => Text.eqb (User.email r) (User.email u)) (users t)
      then inl (DatabaseError "UNIQUE constraint failed: users.email")
      else if existsb (fun r => Text.eqb (User.username r) (User.username u)) (users t)
      then inl (DatabaseError "UNIQUE constraint failed: users.username")
      else
        let k := next_key (map User.id (users t)) in
        let row := User.mk k (User.email u) (User.username u)
                           (User.hashed_password u) true now in
        inr (mkTables (users t ++ [row]) (albums t), [k])
  | InsertAlbum a =>
      if is_null (Album.title a)
      then inl (DatabaseError "NOT NULL constraint failed: albums.title")
      else if is_null (Album.artist a)
      then inl (DatabaseError "NOT NULL constraint failed: albums.artist")
      else
        let k := next_key (map Album.id (albums t)) in
        let 'Album.mk _ ti ar ge ry rl co cn ba no _ ow := a in
        let row := Album.mk k ti ar ge ry rl co cn ba no now ow in
        inr (mkTables (users t) (albums t ++ [row]), [k])
  | UpdateAlbum a =>
      if is_null (Album.title a)
      then inl (DatabaseError "NOT NULL constraint failed: albums.title")
      else if is_null (Album.artist a)
      then inl (DatabaseError "NOT NULL constraint failed: albums.artist")
      else
        inr (mkTables (users t)
               (map (fun r => if Album.id r =? Album.id a then a else r) (albums t)),
             [])
  | DeleteAlbum a =>
      inr (mkTables (users t)
             (filter (fun r => negb (Album.id r =? Album.id a)) (albums t)),
           [])
  end.

Fixpoint flush (now : Z) (cs : list Change) (t : Tables) : Exn + (Tables * list Z) :=
  match cs with
  | [] => inr (t, [])
  | c :: cs' =>
      match flush1 now c t with
      | inl x => inl x
      | inr (t', ks) =>
          match flush now cs' t' with
          | inl x => inl x
          | inr (t'', ks') => inr (t'', ks ++ ks')
          end
      end
  end.

(** [db.query(User)...] and [db.query(Album)...] read the stored
    rows; in every handler the queries precede the changes.  The
    integers a query is given are taken in the range the database
    binds, that of a signed 64-bit integer; what the driver does
    with an integer outside it depends on the backend and is not
    modelled. *)
Definition query_users : M (list User.t) := fun _ s => (inr (users (stored s)), s).
Definition query_albums : M (list Album.t) := fun _ s => (inr (albums (stored s)), s).

(** [db.add(obj)], and the implicit registration of an attached
    object whose attributes were set or that [db.delete] marks. *)
Definition add (c : Change) : M unit :=
  fun _ s => (inr tt, mkState (stored s) (pending s ++ [c]) (log s)).

(** [db.commit()]: flush the pending changes and make them durable,
    or raise.  A commit that fails rolls its transaction back: the
    stored tables are as they were, added objects are expunged from
    the session and changes to loaded objects are forgotten, so that
    nothing is left pending.  It returns the keys given to inserted
    rows (the source finds them written into the objects). *)
Definition commit : M (list Z) :=
  fun e s =>
    match commit_fault e with
    | Some m => (inl (DatabaseError m), mkState (stored s) [] (log s))
    | None =>
        match flush (utcnow e) (pending s) (stored s) with
        | inl x => (inl x, mkState (stored s) [] (log s))
        | inr (t, ks) => (inr ks, mkState t [] (log s))
        end
    end.

(** [db.rollback()] *)
Definition rollback : M unit :=
  fun _ s => (inr tt, mkState (stored s) [] (log s)).

(** [db.refresh(obj)]: read the row of that key again. *)
Definition refresh_user (k : Z) : M User.t :=
  fun _ s =>
    match find (fun r => User.id r =? k) (users (stored s)) with
    | Some r => (inr r, s)
    | None => (inl (DatabaseError "Could not refresh instance"), s)
    end.

Definition refresh_album (k : Z) : M Album.t :=
  fun _ s =>
    match find (fun r => Album.id r =? k) (albums (stored s)) with
    | Some r => (inr r, s)
    | None => (inl (DatabaseError "Could not refresh instance"), s)
    end.

(** The key of the object a handler has just added and committed. *)
Definition new_key (ks : list Z) : Z := hd 0 ks.

End Db.

(* ================================================================== *)
(** * SQL predicates *)
(* ================================================================== *)

Module Sql.

(** A predicate over a row is true, false or unknown ([None]); a
    filter keeps the rows on which it is true. *)
Definition tv := option bool.

Definition or3 (a b : tv) : tv :=
  match a, b with
  | Some true, _ | _, Some true => Some true
  | Some false, Some false => Some false
  | _, _ => None
  end.

Definition and3 (a b : tv) : tv :=
  match a, b with
  | Some false, _ | _, Some false => Some false
  | Some true, Some true => Some true
  | _, _ => None
  end.

Definition is_true (a : tv) : bool :=
  match a with Some true => true | _ => false end.

(** [column == value] on an integer column that may be null. *)
Definition eq_int (c : option Z) (v : Z) : tv :=
  match c with Some x => Some (x =? v) | None => None end.

Definition is_escape (esc : option ascii) (c : ascii) : bool :=
  match esc with Some e => Ascii.eqb c e | None => false end.

(** [s LIKE p]: in the pattern ["%"] stands for any run of
    characters and ["_"] for any one character.  [esc] is the
    backend's default escape character, if it has one (none on
    SQLite, the backslash on PostgreSQL and MySQL): the pattern
    character after it is taken literally. *)
Fixpoint like (esc : option ascii) (p s : text) {struct p} : bool :=
  match p with
  | [] => Text.falsy s
  | c :: p' =>
      if is_escape esc c then
        match p' with
        | [] => false
        | c' :: p'' =>
            match s with
            | [] => false
            | d :: s' => Ascii.eqb c' d && like esc p'' s'
            end
        end
      else if Ascii.eqb c "%" then
        (fix any (s : text) : bool :=
           like esc p' s || match s with [] => false | _ :: s' => any s' end) s
      else
        match s with
        | [] => false
        | d :: s' => (Ascii.eqb c "_" || Ascii.eqb c d) && like esc p' s'
        end
  end.

(** [column.ilike(pattern)]: both sides are case-folded. *)
Definition ilike (esc : option ascii) (c : option text) (pattern : text) : tv :=
  match c with
  | Some s => Some (like esc (Text.lower pattern) (Text.lower s))
  | None => None
  end.

(** [ORDER BY created_at DESC].  The order among rows with equal
    times is the backend's choice; here they keep the order of the
    table. *)
Fixpoint insert_desc (a : Album.t) (l : list Album.t) : list Album.t :=
  match l with
  | [] => [a]
  | b :: l' =>
      if Album.created_at b <=? Album.created_at a
      then a :: l
      else b :: insert_desc a l'
  end.

Definition order_by_created_at_desc (l : list Album.t) : list Album.t :=
  fold_right insert_desc [] l.

(** [.offset(skip).limit(limit)] *)
Definition offset_limit (skip limit : nat) (l : list Album.t) : list Album.t :=
  firstn limit (skipn skip l).

End Sql.

(* ================================================================== *)
(** * [app/crud.py] *)
(* ================================================================== *)

(** [like_escape], the default escape character of [LIKE], depends on
    the database backend, which [app/database.py] chooses; the source
    of that module is missing, so it is a parameter. *)
Section Crud.

Variable like_escape : option ascii.

Definition get_user_by_email (email : text) : M (option User.t) :=
  rows <- Db.query_users ;;
  ret (find (fun u => Text.eqb (User.email u) email) rows).

Definition get_user_by_username (username : text) : M (option User.t) :=
  rows <- Db.query_users ;;
  ret (find (fun u => Text.eqb (User.username u) username) rows).

(** [a or b] on two lookups: the second runs only when the first
    found nothing. *)
Definition or_else (a b : M (option User.t)) : M (option User.t) :=
  x <- a ;;
  match x with
  | Some _ => ret x
  | None => b
  end.

Definition create_user (email username password : text) : M User.t :=
  found <- or_else (get_user_by_email email) (get_user_by_username username) ;;
  match found with
  | Some _ => raise (HTTPException 400 Msg.user_exists)
  | None =>
      env <- ask ;;
      let hashed_password := get_password_hash env password in
      let db_user := User.new email username hashed_password in
      Db.add (InsertUser db_user) ;;;
      ks <- Db.commit ;;
      Db.refresh_user (Db.new_key ks)
  end.

Definition authenticate_user (username password : text) : M (option User.t) :=
  user <- get_user_by_username username ;;
  match user with
  | None => ret None
  | Some u =>
      env <- ask ;;
      if negb (verify_password env password (User.hashed_password u))
      then ret None
      else ret (Some u)
  end.

Definition default_skip : nat := 0.
Definition default_limit : nat := 100.

(** [get_albums(db, user_id, skip=0, limit=100)].  [skip] and
    [limit] are natural numbers: the one call site passes neither. *)
Definition get_albums (user_id : Z) (skip limit : nat) : M (list Album.t) :=
  rows <- Db.query_albums ;;
  ret (Sql.offset_limit skip limit
         (Sql.order_by_created_at_desc
            (filter (fun a => Sql.is_true (Sql.eq_int (Album.owner_id a) user_id)) rows))).

Definition get_album_by_id (album_id user_id : Z) : M Album.t :=
  rows <- Db.query_albums ;;
  let album :=
    find (fun a => Sql.is_true
                     (Sql.and3 (Some (Album.id a =? album_id))
                               (Sql.eq_int (Album.owner_id a) user_id))) rows in
  match album with
  | None => raise (HTTPException 404 Msg.album_not_found)
  | Some a => ret a
  end.

(** [Album(owner_id=user_id, **album_data)]: a keyword given twice is
    a [TypeError]. *)
Definition new_album (user_id : Z) (album_data : list kwarg) : M Album.t :=
  if existsb (fun k => Album.column_eqb (kw_column k) Album.c_owner_id) album_data
  then raise (TypeError "got multiple values for keyword argument 'owner_id'")
  else ret (fold_left setattr album_data
              (setattr Album.fresh (kw_owner_id (Some user_id)))).

Definition create_album (user_id : Z) (album_data : list kwarg) : M Album.t :=
  db_album <- new_album user_id album_data ;;
  Db.add (InsertAlbum db_album) ;;;
  ks <- Db.commit ;;
  Db.refresh_album (Db.new_key ks).

(** The loop of [update_album]. *)
Definition set_given (album : Album.t) (album_data : list kwarg) : Album.t :=
  fold_left (fun a k => if negb (is_none k) then setattr a k else a)
            album_data album.

Definition update_album (album_id user_id : Z) (album_data : list kwarg) : M Album.t :=
  album <- get_album_by_id album_id user_id ;;
  let album' := set_given album album_data in
  (if existsb (fun k => negb (is_none k)) album_data
   then Db.add (UpdateAlbum album')
   else ret tt) ;;;
  Db.commit ;;;
  Db.refresh_album (Album.id album').

Definition delete_album (album_id user_id : Z) : M bool :=
  album <- get_album_by_id album_id user_id ;;
  Db.add (DeleteAlbum album) ;;;
  Db.commit ;;;
  ret true.

(** [f"%{query}%"] *)
Definition contains_pattern (query : text) : text := T "%" ++ query ++ T "%".

Definition search_albums (user_id : Z) (query : text) : M (list Album.t) :=
  rows <- Db.query_albums ;;
  let pattern := contains_pattern query in
  ret (filter
         (fun a =>
            Sql.is_true
              (Sql.and3 (Sql.eq_int (Album.owner_id a) user_id)
                 (Sql.or3 (Sql.or3 (Sql.ilike like_escape (Album.title a) pattern)
                                   (Sql.ilike like_escape (Album.artist a) pattern))
                          (Sql.ilike like_escape (Album.genre a) pattern))))
         rows).

End Crud.

(* ================================================================== *)
(** * [app/main.py]: responses and exception handlers *)
(* ================================================================== *)

(** The form of [/albums/new] and [/albums/{id}/edit]. *)
Record AlbumForm := mkForm {
  f_title : text;
  f_artist : text;
  f_genre : option text;
  f_release_year : option Z;
  f_record_label : option text;
  f_country : option text;
  f_condition : option text;
  f_barcode : option text;
  f_notes : option text
}.

Inductive AlbumCtx :=
| no_album
| album_row (a : Album.t)
| album_form (album_id : option Z) (f : AlbumForm).

(** The entries of a template context the handlers fill in (the
    request and the clock are left out). *)
Record Context := mkContext {
  ctx_error : option text;
  ctx_status_code : option Z;
  ctx_user : option User.t;
  ctx_albums : option (list Album.t);
  ctx_search_query : option text;
  ctx_album : AlbumCtx;
  ctx_action : option text
}.

Definition empty_context : Context :=
  mkContext None None None None None no_album None.

Definition error_context (error : text) (status_code : Z) : Context :=
  mkContext (Some error) (Some status_code) None None None no_album None.

Inductive Json :=
| json_detail (detail : text)
| json_health
| json_user (u : User.t)
| json_validation (detail : list ValidationError) (body : Body).

Inductive Cookie :=
| set_cookie (key value : text)
| delete_cookie (key : text).

Inductive Response :=
| TemplateResponse (name : text) (context : Context) (status_code : Z)
| RedirectResponse (url : text) (status_code : Z) (cookies : list Cookie)
| JSONResponse (status_code : Z) (content : Json).

Definition status_of (r : Response) : Z :=
  match r with
  | TemplateResponse _ _ c => c
  | RedirectResponse _ c _ => c
  | JSONResponse c _ => c
  end.

Definition HTTP_303_SEE_OTHER : Z := 303.

Definition SYSTEM_PATHS : list text :=
  [T "/favicon.ico"; T "/docs"; T "/redoc"; T "/openapi.json"].

Definition in_paths (path : text) (l : list text) : bool :=
  existsb (Text.eqb path) l.

(** [f"{field}: {msg}"], or [msg] alone for an error without a
    place; [field] is the place, its parts joined by an arrow. *)
Definition describe (error : ValidationError) : text :=
  let field := Text.join " → " (err_loc error) in
  if Text.falsy field then err_msg error
  else field ++ T ": " ++ err_msg error.

(** [@app.exception_handler(RequestValidationError)] *)
Definition validation_exception_handler (path : text)
    (errors : list ValidationError) (body : Body) : M Response :=
  if in_paths path SYSTEM_PATHS
  then ret (JSONResponse 422 (json_validation errors body))
  else
    env <- ask ;;
    let url := base_url env ++ path in
    let errors := map describe errors in
    let error_message :=
      match errors with
      | [] => Msg.validation_failed
      | _ :: _ => Text.join "; " errors
      end in
    let template_name :=
      if Text.eqb path "/register" || Text.contains "/register" url
      then T "register.html"
      else if Text.eqb path "/login" || Text.contains "/login" url
      then T "login.html"
      else if Text.contains "/albums" path
      then T "album_detail.html"
      else T "error.html" in
    ret (TemplateResponse template_name (error_context error_message 422) 422).

(** [@app.exception_handler(404)] *)
Definition not_found_handler (path : text) : M Response :=
  if in_paths path SYSTEM_PATHS
  then ret (JSONResponse 404 (json_detail "Not found"))
  else ret (TemplateResponse "error.html" (error_context Msg.page_not_found 404) 404).

(** [@app.exception_handler(HTTPException)] *)
Definition http_exception_handler (path : text) (status_code : Z) (detail : text) : M Response :=
  if in_paths path SYSTEM_PATHS
  then ret (JSONResponse 404 (json_detail "Not found"))
  else ret (TemplateResponse "error.html" (error_context detail status_code) status_code).

(** [error_message[:200] + "..."] when the text is longer than 200. *)
Definition truncate_message (error_message : text) : text :=
  if Text.len error_message >? 200
  then firstn 200 error_message ++ T "..."
  else error_message.

(** [@app.exception_handler(Exception)] *)
Definition general_exception_handler (path : text) (exc : Exn) : M Response :=
  logger_error (Msg.log_unhandled ++ str_exn exc) ;;;
  if in_paths path SYSTEM_PATHS
  then ret (JSONResponse 404 (json_detail "Not found"))
  else
    let error_message := truncate_message (str_exn exc) in
    ret (TemplateResponse "error.html"
           (error_context (Msg.internal_error ++ error_message) 500) 500).

(** Which handler the framework picks for an exception that leaves a
    route: the one registered for the status code, then the one for
    the class. *)
Definition handle_exception (path : text) (x : Exn) : M Response :=
  match x with
  | HTTPException c d =>
      if c =? 404 then not_found_handler path
      else http_exception_handler path c d
  | RequestValidationError errors body =>
      validation_exception_handler path errors body
  | _ => general_exception_handler path x
  end.

(* ================================================================== *)
(** * [app/main.py]: helpers and routes *)
(* ================================================================== *)

(** [get_current_user_from_cookie]: [cookie] is the value of the
    [access_token] cookie, if the request carries one. *)
Definition get_current_user_from_cookie (cookie : option text) : M (option User.t) :=
  match cookie with
  | None => ret None
  | Some token =>
      if Text.falsy token then ret None
      else
        env <- ask ;;
        match decode_token env token with
        | None => ret None
        | Some payload =>
            match payload with
            | None => ret None
            | Some username =>
                if Text.falsy username then ret None
                else
                  rows <- Db.query_users ;;
                  ret (find (fun u => Text.eqb (User.username u) username) rows)
            end
        end
  end.

Definition redirect_to_login : Response :=
  RedirectResponse "/login" HTTP_303_SEE_OTHER [].

Definition home_page : M Response :=
  ret (TemplateResponse "index.html" empty_context 200).

Definition login_page : M Response :=
  ret (TemplateResponse "login.html" empty_context 200).

Definition ACCESS_TOKEN_cookie : text := "access_token".

Definition login_user (username password : text) : M Response :=
  user <- authenticate_user username password ;;
  match user with
  | None =>
      ret (TemplateResponse "login.html"
             (mkContext (Some (T "Неверное имя пользователя или пароль"))
                        None None None None no_album None) 401)
  | Some u =>
      env <- ask ;;
      let access_token := create_access_token env (User.username u) in
      ret (RedirectResponse "/albums" HTTP_303_SEE_OTHER
             [set_cookie ACCESS_TOKEN_cookie access_token])
  end.

Definition register_page : M Response :=
  ret (TemplateResponse "register.html" empty_context 200).

Definition register_error (error : text) (status_code : Z) : Response :=
  TemplateResponse "register.html"
    (mkContext (Some error) None None None None no_album None) status_code.

Definition register_user (email username password confirm_password : text) : M Response :=
  let validation_errors :=
    validate_user_registration email username password confirm_password in
  match validation_errors with
  | _ :: _ => ret (register_error (Text.join "; " validation_errors) 422)
  | [] =>
      found <- or_else (get_user_by_email email) (get_user_by_username username) ;;
      match found with
      | Some _ => ret (register_error Msg.user_exists 400)
      | None =>
          try_except
            (env <- ask ;;
             let hashed_password := get_password_hash env password in
             let user := User.new email username hashed_password in
             Db.add (InsertUser user) ;;;
             ks <- Db.commit ;;
             user <- Db.refresh_user (Db.new_key ks) ;;
             let access_token := create_access_token env (User.username user) in
             ret (RedirectResponse "/albums" HTTP_303_SEE_OTHER
                    [set_cookie ACCESS_TOKEN_cookie access_token]))
            [ (any_exception,
               fun e =>
                 Db.rollback ;;;
                 logger_error (Msg.log_register ++ str_exn e) ;;;
                 ret (register_error Msg.registration_failed 500)) ]
      end
  end.

Definition logout : M Response :=
  ret (RedirectResponse "/" HTTP_303_SEE_OTHER [delete_cookie ACCESS_TOKEN_cookie]).

(** [genre.strip() if genre else None] *)
Definition strip_or_none (v : option text) : option text :=
  match v with
  | None => None
  | Some s => if Text.falsy s then None else Some (Text.strip s)
  end.

(** The dictionary both album forms build, before the [None] entries
    are dropped. *)
Definition form_album_data (f : AlbumForm) : list kwarg :=
  [ kw_title (Some (Text.strip (f_title f)));
    kw_artist (Some (Text.strip (f_artist f)));
    kw_genre (strip_or_none (f_genre f));
    kw_release_year (f_release_year f);
    kw_record_label (strip_or_none (f_record_label f));
    kw_country (strip_or_none (f_country f));
    kw_condition (f_condition f);
    kw_barcode (strip_or_none (f_barcode f));
    kw_notes (strip_or_none (f_notes f)) ].

Definition album_url (album_id : Z) : text := T "/albums/" ++ Text.of_Z album_id.

Section Routes.

Variable like_escape : option ascii.

(** [q] of [/albums]: a search when it is a non-empty string. *)
Definition albums_page (cookie : option text) (q : option text) : M Response :=
  user <- get_current_user_from_cookie cookie ;;
  match user with
  | None => ret redirect_to_login
  | Some u =>
      albums <- match q with
                | Some s => if Text.falsy s
                            then get_albums (User.id u) default_skip default_limit
                            else search_albums like_escape (User.id u) s
                | None => get_albums (User.id u) default_skip default_limit
                end ;;
      ret (TemplateResponse "albums.html"
             (mkContext None None (Some u) (Some albums)
                        (Some match q with Some s => s | None => [] end)
                        no_album None) 200)
  end.

Definition new_album_page (cookie : option text) : M Response :=
  user <- get_current_user_from_cookie cookie ;;
  match user with
  | None => ret redirect_to_login
  | Some u =>
      ret (TemplateResponse "album_detail.html"
             (mkContext None None (Some u) None None no_album (Some (T "new"))) 200)
  end.

Definition album_form_page (u : User.t) (album_id : option Z) (f : AlbumForm)
    (action error : text) (status_code : Z) : Response :=
  TemplateResponse "album_detail.html"
    (mkContext (Some error) None (Some u) None None (album_form album_id f)
               (Some action)) status_code.

Definition create_new_album (cookie : option text) (f : AlbumForm) : M Response :=
  user <- get_current_user_from_cookie cookie ;;
  match user with
  | None => ret redirect_to_login
  | Some u =>
      env <- ask ;;
      let validation_errors :=
        validate_album_data (current_year env) (Some (f_title f)) (Some (f_artist f))
                            (f_release_year f) in
      match validation_errors with
      | _ :: _ =>
          ret (album_form_page u None f "new" (Text.join "; " validation_errors) 422)
      | [] =>
          try_except
            (let album_data := drop_none (form_album_data f) in
             album <- create_album (User.id u) album_data ;;
             ret (RedirectResponse (album_url (Album.id album)) HTTP_303_SEE_OTHER []))
            [ (any_exception,
               fun e =>
                 logger_error (Msg.log_create ++ str_exn e) ;;;
                 ret (album_form_page u None f "new" Msg.create_failed 500)) ]
      end
  end.

Definition album_detail_page (cookie : option text) (album_id : Z) : M Response :=
  user <- get_current_user_from_cookie cookie ;;
  match user with
  | None => ret redirect_to_login
  | Some u =>
      try_except
        (album <- get_album_by_id album_id (User.id u) ;;
         ret (TemplateResponse "album_detail.html"
                (mkContext None None (Some u) None None (album_row album)
                           (Some (T "edit"))) 200))
        [ (is_http,
           fun e =>
             ret (TemplateResponse "error.html"
                    (error_context Msg.album_not_found 404) 404)) ]
  end.

Definition edit_album (cookie : option text) (album_id : Z) (f : AlbumForm) : M Response :=
  user <- get_current_user_from_cookie cookie ;;
  match user with
  | None => ret redirect_to_login
  | Some u =>
      env <- ask ;;
      let validation_errors :=
        validate_album_data (current_year env) (Some (f_title f)) (Some (f_artist f))
                            (f_release_year f) in
      match validation_errors with
      | _ :: _ =>
          ret (album_form_page u (Some album_id) f "edit"
                 (Text.join "; " validation_errors) 422)
      | [] =>
          try_except
            (let album_data := drop_none (form_album_data f) in
             album <- update_album album_id (User.id u) album_data ;;
             ret (RedirectResponse (album_url (Album.id album)) HTTP_303_SEE_OTHER []))
            [ (is_http,
               fun e =>
                 match e with
                 | HTTPException c d =>
                     ret (TemplateResponse "error.html" (error_context d c) c)
                 | _ => raise e
                 end);
              (any_exception,
               fun e =>
                 logger_error (Msg.log_update ++ str_exn e) ;;;
                 ret (album_form_page u (Some album_id) f "edit" Msg.update_failed 500)) ]
      end
  end.

Definition delete_album_endpoint (cookie : option text) (album_id : Z) : M Response :=
  user <- get_current_user_from_cookie cookie ;;
  match user with
  | None => ret redirect_to_login
  | Some u =>
      try_except
        (delete_album album_id (User.id u) ;;;
         ret (RedirectResponse "/albums" HTTP_303_SEE_OTHER []))
        [ (any_exception,
           fun e =>
             logger_error (Msg.log_delete ++ str_exn e) ;;;
             ret (RedirectResponse "/albums" HTTP_303_SEE_OTHER [])) ]
  end.

Definition health_check : M Response := ret (JSONResponse 200 json_health).

Definition get_current_user_info (cookie : option text) : M Response :=
  user <- get_current_user_from_cookie cookie ;;
  match user with
  | None => raise (HTTPException 401 Msg.not_authenticated)
  | Some u => ret (JSONResponse 200 (json_user u))
  end.

End Routes.

(* ================================================================== *)
(** * Serving a request *)
(* ================================================================== *)

Inductive Route :=
| GET_home
| GET_login
| POST_login (username password : text)
| GET_register
| POST_register (email username password confirm_password : text)
| GET_logout
| GET_albums (q : option text)
| GET_albums_new
| POST_albums_new (f : AlbumForm)
| GET_album (album_id : Z)
| POST_album_edit (album_id : Z) (f : AlbumForm)
| POST_album_delete (album_id : Z)
| GET_api_health
| GET_api_me
| no_route (path : text).

Record Request := mkRequest {
  access_token : option text;
  route : Route
}.

(** [request.url.path] *)
Definition path_of (r : Route) : text :=
  match r with
  | GET_home => "/"
  | GET_login | POST_login _ _ => "/login"
  | GET_register | POST_register _ _ _ _ => "/register"
  | GET_logout => "/logout"
  | GET_albums _ => "/albums"
  | GET_albums_new | POST_albums_new _ => "/albums/new"
  | GET_album i => album_url i
  | POST_album_edit i _ => album_url i ++ T "/edit"
  | POST_album_delete i => album_url i ++ T "/delete"
  | GET_api_health => "/api/health"
  | GET_api_me => "/api/me"
  | no_route p => p
  end.

(** ** What the framework does before it calls a route function

    The framework reads the parameters a route function declares
    from the request.  A form field declared [Form(...)] is required:
    when it is missing or empty the framework raises a
    [RequestValidationError] with one error per such field, at
    [("body", name)], and does not call the function; a field
    declared [Form(None)] is optional.  The requests modelled here
    carry integers where the function declares [int]; a request
    whose path or form holds something else there is not
    represented. *)

(** The required fields of a route, with what the request submits
    for them (a missing field and an empty one are both the empty
    text). *)
Definition required_fields (rt : Route) : Body :=
  match rt with
  | POST_login username password =>
      [ (T "username", username); (T "password", password) ]
  | POST_register email username password confirm_password =>
      [ (T "email", email); (T "username", username); (T "password", password);
        (T "confirm_password", confirm_password) ]
  | POST_albums_new f | POST_album_edit _ f =>
      [ (T "title", f_title f); (T "artist", f_artist f) ]
  | _ => []
  end.

(** The optional fields that a request submits. *)
Definition optional_fields (rt : Route) : Body :=
  match rt with
  | POST_albums_new f | POST_album_edit _ f =>
      let given (name : text) (v : option text) : Body :=
        match v with Some t => [(name, t)] | None => [] end in
      given "genre" (f_genre f)
      ++ given "release_year" (option_map Text.of_Z (f_release_year f))
      ++ given "record_label" (f_record_label f)
      ++ given "country" (f_country f)
      ++ given "condition" (f_condition f)
      ++ given "barcode" (f_barcode f)
      ++ given "notes" (f_notes f)
  | _ => []
  end.

(** [exc.body]: the form as submitted. *)
Definition body_of (rt : Route) : Body :=
  filter (fun kv => negb (Text.falsy (snd kv))) (required_fields rt)
  ++ optional_fields rt.

(** [exc.errors()] for a request: one error for each required field
    that is missing or empty. *)
Definition request_errors (rt : Route) : list ValidationError :=
  map (fun kv => mkError [T "body"; fst kv] Msg.field_required)
      (filter (fun kv => Text.falsy (snd kv)) (required_fields rt)).

Section Serve.

Variable like_escape : option ascii.

Definition endpoint (r : Request) : M Response :=
  let cookie := access_token r in
  match route r with
  | GET_home => home_page
  | GET_login => login_page
  | POST_login u p => login_user u p
  | GET_register => register_page
  | POST_register e u p c => register_user e u p c
  | GET_logout => logout
  | GET_albums q => albums_page like_escape cookie q
  | GET_albums_new => new_album_page cookie
  | POST_albums_new f => create_new_album cookie f
  | GET_album i => album_detail_page cookie i
  | POST_album_edit i f => edit_album cookie i f
  | POST_album_delete i => delete_album_endpoint cookie i
  | GET_api_health => health_check
  | GET_api_me => get_current_user_info cookie
  | no_route _ => raise (HTTPException 404 "Not Found")
  end.

(** The framework's part of a request: the route function is called
    when its parameters can be read from the request. *)
Definition dispatch (r : Request) : M Response :=
  match request_errors (route r) with
  | [] => endpoint r
  | errors => raise (RequestValidationError errors (body_of (route r)))
  end.

(** A route with the application's exception handlers around it. *)
Definition with_handlers (path : text) (body : M Response) : M Response :=
  try_except body [ (any_exception, handle_exception path) ].

Definition app (r : Request) : M Response :=
  with_handlers (path_of (route r)) (dispatch r).

(** What persists from one request to the next: the stored tables
    and the log. *)
Record World := mkWorld {
  tables : Tables;
  journal : list text
}.

(** Modelled from the spec: [get_db] of [app/database.py], whose
    source is missing.  The spec gives every request one connection
    and transaction of its own, with no state shared between
    requests: the session is opened on the stored tables and closed
    (what is still pending is dropped) when the response is out. *)
Definition open_session (w : World) : State := mkState (tables w) [] (journal w).
Definition close_session (s : State) : World := mkWorld (stored s) (log s).

Definition serve (e : Env) (w : World) (r : Request) : option Response * World :=
  match app r e (open_session w) with
  | (inr resp, s) => (Some resp, close_session s)
  | (inl _, s) => (None, close_session s)
  end.

End Serve.

(* ================================================================== *)
(** * Vocabulary of the specification *)
(* ================================================================== *)

(** The email holds an ["@"] and there is a ["."] somewhere after
    it. *)
Definition at_then_dot (email : text) : Prop :=
  exists a b c, email = a ++ "@"%char :: b ++ "."%char :: c.

(** The email holds an ["@"] and there is a ["."] after the last
    one. *)
Definition dot_after_last_at (email : text) : Prop :=
  exists a b, email = a ++ "@"%char :: b /\ ~ In "@"%char b /\ In "."%char b.

(** A blank string: nothing but white space (the empty string
    included). *)
Definition blank (s : text) : Prop := Forall (fun c => Text.is_space c = true) s.

(** [w] is [v] without the white space at its two ends. *)
Definition stripped_of (v w : text) : Prop :=
  (exists p q, v = p ++ w ++ q /\ blank p /\ blank q) /\
  (forall c r, w = c :: r -> Text.is_space c = false) /\
  (forall r c, w = r ++ [c] -> Text.is_space c = false).

(** A required field is rejected: it is missing, blank or longer than
    its limit. *)
Definition field_rejected (limit : Z) (v : option text) : Prop :=
  v = None \/ exists s, v = Some s /\ (blank s \/ Text.len s > limit).

(** A release year is given and lies outside 1900 .. current year. *)
Definition year_rejected (current_year : Z) (release_year : option Z) : Prop :=
  exists y, release_year = Some y /\ (y < 1900 \/ y > current_year).

(** [q] occurs in [s]. *)
Definition substring (q s : text) : Prop := exists a b, s = a ++ q ++ b.

(** [q] occurs in the column, letter case aside; a null column holds
    nothing. *)
Definition contains_ci (c : option text) (q : text) : Prop :=
  exists s, c = Some s /\ substring (Text.lower q) (Text.lower s).

Definition owned_by (user_id : Z) (a : Album.t) : Prop :=
  Album.owner_id a = Some user_id.

Definition is_owner (user_id : Z) (a : Album.t) : bool :=
  match Album.owner_id a with
  | Some o => o =? user_id
  | None => false
  end.

(** The user's albums, in the order of the table. *)
Definition albums_of (user_id : Z) (t : Tables) : list Album.t :=
  filter (is_owner user_id) (albums t).


(** An integer the database binds as a query parameter. *)
Definition sql_integer (k : Z) : Prop := - 2 ^ 63 <= k < 2 ^ 63.

(** The first album of key [album_id] that belongs to [user_id]. *)
Definition own_album (t : Tables) (album_id user_id : Z) : option Album.t :=
  find (fun a => (Album.id a =? album_id) && is_owner user_id a) (albums t).

Fixpoint distinct (l : list Z) : bool :=
  match l with
  | [] => true
  | x :: l' => negb (existsb (Z.eqb x) l') && distinct l'
  end.

(** What the declared constraints guarantee of stored tables: album
    keys are distinct, titles and artists are not null. *)
Definition constraints_hold (t : Tables) : bool :=
  distinct (map Album.id (albums t))
  && forallb (fun a => negb (Db.is_null (Album.title a))
                       && negb (Db.is_null (Album.artist a))) (albums t).

(** The last entry of [album_data] that gives column [c] a value
    other than [None]. *)
Definition last_given (c : Album.column) (album_data : list kwarg) : option kwarg :=
  find (fun k => Album.column_eqb (kw_column k) c && negb (is_none k)) (rev album_data).

(** The albums table with the row of key [album_id] replaced. *)
Definition with_row (album_id : Z) (a' : Album.t) (t : Tables) : Tables :=
  mkTables (users t)
           (map (fun r => if Album.id r =? album_id then a' else r) (albums t)).

(** The albums table without the row of key [album_id]. *)
Definition without_row (album_id : Z) (t : Tables) : Tables :=
  mkTables (users t)
           (filter (fun r => negb (Album.id r =? album_id)) (albums t)).

(** A submitted value, or the stored one when nothing is submitted. *)
Definition or_keep {A} (submitted stored : option A) : option A :=
  match submitted with
  | Some v => Some v
  | None => stored
  end.

(** The row a valid creation form becomes. *)
Definition created_row (key now user_id : Z) (f : AlbumForm) : Album.t :=
  Album.mk key
           (Some (Text.strip (f_title f))) (Some (Text.strip (f_artist f)))
           (strip_or_none (f_genre f)) (f_release_year f)
           (strip_or_none (f_record_label f)) (strip_or_none (f_country f))
           (f_condition f) (strip_or_none (f_barcode f))
           (strip_or_none (f_notes f)) now (Some user_id).

(** The row a valid edit form turns a stored row into. *)
Definition edited_row (a : Album.t) (f : AlbumForm) : Album.t :=
  Album.mk (Album.id a)
           (Some (Text.strip (f_title f))) (Some (Text.strip (f_artist f)))
           (or_keep (strip_or_none (f_genre f)) (Album.genre a))
           (or_keep (f_release_year f) (Album.release_year a))
           (or_keep (strip_or_none (f_record_label f)) (Album.record_label a))
           (or_keep (strip_or_none (f_country f)) (Album.country a))
           (or_keep (f_condition f) (Album.condition a))
           (or_keep (strip_or_none (f_barcode f)) (Album.barcode a))
           (or_keep (strip_or_none (f_notes f)) (Album.notes a))
           (Album.created_at a) (Album.owner_id a).

(** The optional text fields that the forms strip. *)
Inductive stripped_field := Genre | RecordLabel | Country | Barcode | Notes.

Definition submitted (x : stripped_field) (f : AlbumForm) : option text :=
  match x with
  | Genre => f_genre f
  | RecordLabel => f_record_label f
  | Country => f_country f
  | Barcode => f_barcode f
  | Notes => f_notes f
  end.

Definition stored_in (x : stripped_field) (a : Album.t) : option text :=
  match x with
  | Genre => Album.genre a
  | RecordLabel => Album.record_label a
  | Country => Album.country a
  | Barcode => Album.barcode a
  | Notes => Album.notes a
  end.

(** The form passes [validate_album_data]. *)
Definition valid_form (e : Env) (f : AlbumForm) : Prop :=
  validate_album_data (current_year e) (Some (f_title f)) (Some (f_artist f))
                      (f_release_year f) = [].

(** The albums table with one more row. *)
Definition with_new_row (row : Album.t) (t : Tables) : Tables :=
  mkTables (users t) (albums t ++ [row]).

(** The request is made by a logged-in user [u]. *)
Definition authenticated (cookie : option text) (e : Env) (s : State) (u : User.t) : Prop :=
  get_current_user_from_cookie cookie e s = (inr (Some u), s).

Definition ge_created (a b : Album.t) : Prop :=
  Album.created_at a >= Album.created_at b.

(** ** Histories

    A history is a list of requests, each with the environment it
    ran in.  Next to the world, the run keeps a record of who
    brought each album key into the table: whenever a request leaves
    the table with a key it did not hold before, the requester is
    written down for that key. *)
Section History.

Variable like_escape : option ascii.

Definition empty_world : World := mkWorld (mkTables [] []) [].

Definition requester (e : Env) (w : World) (r : Request) : option Z :=
  match get_current_user_from_cookie (access_token r) e (open_session w) with
  | (inr (Some u), _) => Some (User.id u)
  | _ => None
  end.

Definition album_keys (w : World) : list Z := map Album.id (albums (tables w)).

Definition mem (i : Z) (l : list Z) : bool := existsb (Z.eqb i) l.

Definition creators := Z -> option Z.

Definition step (wc : World * creators) (er : Env * Request) : World * creators :=
  let (w, c) := wc in
  let (e, r) := er in
  let w' := snd (serve like_escape e w r) in
  (w', fun i => if mem i (album_keys w') && negb (mem i (album_keys w))
                then requester e w r
                else c i).

Definition run (history : list (Env * Request)) : World * creators :=
  fold_left step history (empty_world, fun _ => None).

End History.

(** ** What a request can do to the stored tables

    [effect e s r t'] lists the ways in which the tables [t'] left by
    the request [r], served in state [s], can differ from the stored
    ones. *)
Inductive effect (e : Env) (s : State) (r : Request) (t' : Tables) : Prop :=
| eff_none :
    t' = stored s -> effect e s r t'
| eff_register email username password confirm_password :
    route r = POST_register email username password confirm_password ->
    commit_fault e = None ->
    albums t' = albums (stored s) -> effect e s r t'
| eff_create u f :
    route r = POST_albums_new f ->
    commit_fault e = None ->
    authenticated (access_token r) e s u ->
    t' = with_new_row
           (created_row (Db.next_key (map Album.id (albums (stored s))))
                        (utcnow e) (User.id u) f) (stored s) ->
    effect e s r t'
| eff_edit u album_id f a :
    route r = POST_album_edit album_id f ->
    commit_fault e = None ->
    authenticated (access_token r) e s u ->
    own_album (stored s) album_id (User.id u) = Some a ->
    t' = with_row album_id (edited_row a f) (stored s) ->
    effect e s r t'
| eff_delete u album_id a :
    route r = POST_album_delete album_id ->
    commit_fault e = None ->
    authenticated (access_token r) e s u ->
    own_album (stored s) album_id (User.id u) = Some a ->
    t' = without_row album_id (stored s) ->
    effect e s r t'.

(** Every stored album has an owner, and it is the user written
    down for its key. *)
Definition owners_recorded (w : World) (created_by : Z -> option Z) : Prop :=
  forall a, In a (albums (tables w)) ->
            Album.owner_id a = created_by (Album.id a) /\ Album.owner_id a <> None.

(** A character that means nothing special in a [LIKE] pattern. *)
Definition plain (esc : option ascii) (c : ascii) : Prop :=
  c <> "%"%char /\ c <> "_"%char /\ esc <> Some c.

(** A query all of whose characters, once case-folded, are plain. *)
Definition literal (esc : option ascii) (query : text) : Prop :=
  Forall (plain esc) (Text.lower query).

(** The query occurs in the album's title, artist or genre, letter
    case aside. *)
Definition mentions (a : Album.t) (query : text) : Prop :=
  contains_ci (Album.title a) query \/ contains_ci (Album.artist a) query
  \/ contains_ci (Album.genre a) query.

(** ** Sample data *)
Module Sample.

Definition env : Env :=
  mkEnv 1000 2026 None
    (fun p => T "h:" ++ p)
    (fun p h => Text.eqb (T "h:" ++ p) h)
    (fun u => T "tok:" ++ u)
    (fun t => match t with
              | "t"%char :: "o"%char :: "k"%char :: ":"%char :: u => Some (Some u)
              | _ => None
              end)
    "http://testserver".

(** The same, with a database that refuses to commit. *)
Definition failing_env : Env :=
  mkEnv 1000 2026 (Some (T "database is locked"))
    (get_password_hash env) (verify_password env)
    (create_access_token env) (decode_token env) (base_url env).

Definition alice : User.t := User.mk 1 "alice@example.org" "alice" "h:secret" true 10.
Definition bob : User.t := User.mk 2 "bob@example.org" "bob" "h:hunter2" true 20.

Definition abbey_road : Album.t :=
  Album.mk 1 (Some (T "Abbey Road")) (Some (T "The Beatles")) (Some (T "Rock"))
           (Some 1969) None None None None None 30 (Some 2).
Definition kind_of_blue : Album.t :=
  Album.mk 2 (Some (T "Kind of Blue")) (Some (T "Miles Davis")) (Some (T "Jazz"))
           (Some 1959) None None None None None 40 (Some 1).
Definition blue_train : Album.t :=
  Album.mk 3 (Some (T "Blue Train")) (Some (T "John Coltrane")) None
           (Some 1958) None None None None None 50 (Some 1).

Definition tables : Tables :=
  mkTables [alice; bob] [abbey_road; kind_of_blue; blue_train].

Definition world : World := mkWorld tables [].
Definition state : State := mkState tables [] [].

Definition alice_cookie : option text := Some (T "tok:alice").
Definition bob_cookie : option text := Some (T "tok:bob").

Definition form : AlbumForm :=
  mkForm "Blue Train" "John Coltrane" (Some (T " ")) None (Some (T ""))
         None (Some (T "VG+")) None None.

(** Alice registers, logs in and adds an album. *)
Definition history : list (Env * Request) :=
  [ (env, mkRequest None (POST_register "alice@example.org" "alice" "secret" "secret"));
    (env, mkRequest alice_cookie (POST_albums_new form)) ].

(** An edit of "Kind of Blue" that submits one space as genre. *)
Definition blank_genre_form : AlbumForm :=
  mkForm "Kind of Blue" "Miles Davis" (Some (T " ")) (Some 1959) None None None
         None None.

End Sample.

(* ================================================================== *)
(** * Further vocabulary *)
(* ================================================================== *)

(** The object [Album(owner_id=user_id, **album_data)] when no keyword
    is given twice. *)
Definition built (user_id : Z) (album_data : list kwarg) : Album.t :=
  fold_left setattr album_data (setattr Album.fresh (kw_owner_id (Some user_id))).

(** The dictionary has an entry for [owner_id]. *)
Definition names_owner (album_data : list kwarg) : bool :=
  existsb (fun k => Album.column_eqb (kw_column k) Album.c_owner_id) album_data.

(** An object as the INSERT stores it: with its key and its time. *)
Definition stamped (key now : Z) (a : Album.t) : Album.t :=
  let 'Album.mk _ ti ar ge ry rl co cn ba no _ ow := a in
  Album.mk key ti ar ge ry rl co cn ba no now ow.

(** The row a registration stores. *)
Definition new_user_row (e : Env) (t : Tables) (email username password : text) : User.t :=
  User.mk (Db.next_key (map User.id (users t))) email username
          (get_password_hash e password) true (utcnow e).

(** The users table with one more row. *)
Definition with_new_user (row : User.t) (t : Tables) : Tables :=
  mkTables (users t ++ [row]) (albums t).

(** Some stored user has this email or this user name. *)
Definition taken (t : Tables) (email username : text) : Prop :=
  exists r, In r (users t) /\ (User.email r = email \/ User.username r = username).

(** The answer to a login or registration that went through. *)
Definition logged_in (e : Env) (username : text) : Response :=
  RedirectResponse "/albums" 303
    [set_cookie ACCESS_TOKEN_cookie (create_access_token e username)].

(** The answer to a login that did not. *)
Definition login_failed : Response :=
  TemplateResponse "login.html"
    (mkContext (Some (T "Неверное имя пользователя или пароль"))
               None None None None no_album None) 401.

(** The routes that ask for a logged-in user and send everybody else
    to the login page. *)
Definition protected (rt : Route) : bool :=
  match rt with
  | GET_albums _ | GET_albums_new | POST_albums_new _ | GET_album _
  | POST_album_edit _ _ | POST_album_delete _ => true
  | _ => false
  end.

(** Stored users have pairwise distinct keys, emails and user names. *)
Definition users_unique (t : Tables) : Prop :=
  NoDup (map User.id (users t)) /\ NoDup (map User.email (users t))
  /\ NoDup (map User.username (users t)).

(** [m] is [l] with rows added at the end. *)
Definition extends {A} (l m : list A) : Prop := exists r, m = l ++ r.

(** A text that is not empty, has no white space at its ends and is
    at most [limit] characters long. *)
Definition tidy (limit : Z) (v : option text) : Prop :=
  exists t, v = Some t /\ t <> [] /\ Text.strip t = t /\ Text.len t <= limit.

(** What the album forms guarantee of a stored album; [stored_in]
    ranges over genre, record label, country, barcode and notes, the
    optional texts that the forms strip. *)
Definition well_kept (a : Album.t) : Prop :=
  tidy 200 (Album.title a) /\ tidy 100 (Album.artist a) /\
  (forall y, Album.release_year a = Some y -> 1900 <= y) /\
  (forall x v, stored_in x a = Some v -> Text.strip v = v) /\
  Album.owner_id a <> None.

(** ** More sample data *)
Module Demo.

(** An environment whose password check and token decoding fit its
    hashing and token making. *)
Definition env : Env := Sample.env.

Definition carol_row : User.t :=
  new_user_row env Sample.tables "carol@example.org" "carol" "s3cret!".

Definition album_data : list kwarg :=
  [ kw_title (Some (T "Giant Steps")); kw_artist (Some (T "John Coltrane"));
    kw_release_year (Some 1960); kw_notes None ].

Definition invalid_form : AlbumForm :=
  mkForm "   " "John Coltrane" None (Some 1812) None None None None None.

End Demo.

(* ================================================================== *)
(** * Facts about text *)
(* ================================================================== *)

Module TextFacts.
Import Text.

Lemma eqb_eq (a b : text) : eqb a b = true <-> a = b.
Proof.
  unfold eqb. destruct (list_eq_dec ascii_dec a b); split; congruence.
Qed.

Lemma eqb_neq (a b : text) : eqb a b = false <-> a <> b.
Proof.
  unfold eqb. destruct (list_eq_dec ascii_dec a b); split; congruence.
Qed.

Lemma falsy_nil (s : text) : falsy s = true <-> s = [].
Proof. destruct s; simpl; split; congruence. Qed.

Lemma falsy_len (s : text) : falsy s = true <-> len s = 0.
Proof.
  destruct s; unfold len; simpl; split; intros; try reflexivity; try discriminate; lia.
Qed.

Lemma contains_char_In (c : ascii) (s : text) :
  contains_char c s = true <-> In c s.
Proof.
  induction s as [|x s IH]; simpl.
  - split; [discriminate | tauto].
  - rewrite orb_true_iff, IH, Ascii.eqb_eq. tauto.
Qed.

Lemma split_not_nil (sep : ascii) (s : text) : split sep s <> [].
Proof.
  destruct s as [|c s]; simpl; [discriminate|].
  destruct (Ascii.eqb c sep); [discriminate|].
  destruct (split sep s); discriminate.
Qed.

(** Splitting around an occurrence of the separator splits both
    sides. *)
Lemma split_app (sep : ascii) (a b : text) :
  split sep (a ++ sep :: b) = split sep a ++ split sep b.
Proof.
  induction a as [|x a IH]; simpl.
  - now rewrite Ascii.eqb_refl.
  - destruct (Ascii.eqb x sep).
    + now rewrite IH.
    + rewrite IH. pose proof (split_not_nil sep a) as Hne.
      destruct (split sep a); [congruence | reflexivity].
Qed.

Lemma split_no_sep (sep : ascii) (s : text) :
  ~ In sep s -> split sep s = [s].
Proof.
  induction s as [|x s IH]; simpl; intros H; [reflexivity|].
  destruct (Ascii.eqb x sep) eqn:E.
  - apply Ascii.eqb_eq in E. tauto.
  - rewrite IH by tauto. reflexivity.
Qed.

Lemma last_item_app (l m : list text) : m <> [] -> last_item (l ++ m) = last_item m.
Proof.
  unfold last_item. induction l as [|x l IH]; simpl; intros H; [reflexivity|].
  rewrite <- (IH H). destruct (l ++ m) eqn:E; [|reflexivity].
  apply app_eq_nil in E. tauto.
Qed.

(** Every string with a separator in it has a last one. *)
Lemma last_occurrence (sep : ascii) (s : text) :
  In sep s -> exists a b, s = a ++ sep :: b /\ ~ In sep b.
Proof.
  induction s as [|x s IH]; simpl; [tauto|].
  intros H. destruct (in_dec ascii_dec sep s) as [Hin|Hout].
  - destruct (IH Hin) as (a & b & -> & Hb). now exists (x :: a), b.
  - destruct H as [->|H]; [|tauto]. now exists [], s.
Qed.

Lemma after_last (sep : ascii) (a b : text) :
  ~ In sep b -> last_item (split sep (a ++ sep :: b)) = b.
Proof.
  intros H. rewrite split_app, last_item_app by apply split_not_nil.
  now rewrite split_no_sep.
Qed.

Lemma lstrip_nil (s : text) : lstrip s = [] <-> Forall (fun c => is_space c = true) s.
Proof.
  induction s as [|c s IH]; simpl.
  - split; auto.
  - destruct (is_space c) eqn:E.
    + rewrite IH. split; intros H; [now constructor | now inversion H].
    + split; [discriminate|]. intros H. inversion H. congruence.
Qed.

Lemma lstrip_head (s : text) :
  lstrip s = [] \/ exists c r, lstrip s = c :: r /\ is_space c = false.
Proof.
  induction s as [|c s IH]; simpl; [now left|].
  destruct (is_space c) eqn:E; [exact IH|]. right. now exists c, s.
Qed.

Lemma lstrip_suffix (s : text) : exists p, s = p ++ lstrip s /\
  Forall (fun c => is_space c = true) p.
Proof.
  induction s as [|c s (p & Hp & Hall)]; simpl.
  - now exists [].
  - destruct (is_space c) eqn:E.
    + exists (c :: p). split; [simpl; congruence | now constructor].
    + now exists [].
Qed.

(** [s.strip()] is empty exactly for a blank [s]. *)
Lemma strip_nil (s : text) : strip s = [] <-> blank s.
Proof.
  unfold strip, rstrip, blank. split.
  - intros H.
    assert (Hr : lstrip (rev (lstrip s)) = []).
    { apply (f_equal (@rev ascii)) in H. now rewrite rev_involutive in H. }
    apply lstrip_nil in Hr.
    destruct (lstrip_head s) as [E|(c & r & E & Hc)].
    + now apply lstrip_nil.
    + rewrite E in Hr. rewrite Forall_forall in Hr.
      specialize (Hr c). rewrite <- in_rev in Hr.
      rewrite Hr in Hc by now left. discriminate.
  - intros H. apply lstrip_nil in H. now rewrite H.
Qed.

Lemma lstrip_keeps_last (r : text) (c : ascii) :
  is_space c = false -> exists u, lstrip (r ++ [c]) = u ++ [c].
Proof.
  intros Hc. induction r as [|x r IH]; simpl.
  - rewrite Hc. now exists [].
  - destruct (is_space x); [exact IH|]. now exists (x :: r).
Qed.

(** [s.strip()] is [s] without the white space at its two ends. *)
Lemma strip_is_stripped (s : text) : stripped_of s (strip s).
Proof.
  unfold stripped_of, strip, rstrip, blank.
  destruct (lstrip_suffix s) as (p & Hp & Hblank).
  destruct (lstrip_suffix (rev (lstrip s))) as (q & Hq & Hqblank).
  split; [|split].
  - exists p, (rev q). split; [|split; [exact Hblank|]].
    + rewrite <- rev_app_distr, <- Hq, rev_involutive. exact Hp.
    + apply Forall_forall. intros c Hc. apply in_rev in Hc.
      rewrite Forall_forall in Hqblank. now apply Hqblank.
  - intros c r Hw.
    destruct (lstrip_head s) as [E|(d & t & E & Hd)].
    + rewrite E in Hw. discriminate.
    + rewrite E in Hw. simpl rev in Hw.
      destruct (lstrip_keeps_last (rev t) d Hd) as (u & Hu).
      rewrite Hu, rev_app_distr in Hw. simpl in Hw. congruence.
  - intros r c Hw. apply (f_equal (@rev ascii)) in Hw.
    rewrite rev_involutive, rev_app_distr in Hw. simpl in Hw.
    destruct (lstrip_head (rev (lstrip s))) as [E|(d & t & E & Hd)]; congruence.
Qed.

Lemma len_zero (s : text) : len s = 0 <-> s = [].
Proof.
  unfold len. destruct s; simpl; split; intros; try reflexivity; try discriminate; lia.
Qed.


End TextFacts.

(* ================================================================== *)
(** * Registration and album validation *)
(* ================================================================== *)

Lemma email_test (email : text) :
  Text.falsy email
  || negb (Text.contains_char "@" email)
  || negb (Text.contains_char "." (Text.last_item (Text.split "@" email))) = false
  <-> dot_after_last_at email.
Proof.
  rewrite !orb_false_iff, !negb_false_iff, !TextFacts.contains_char_In.
  split.
  - intros [[_ Hat] Hdot].
    destruct (TextFacts.last_occurrence _ _ Hat) as (a & b & -> & Hb).
    rewrite TextFacts.after_last in Hdot by assumption.
    now exists a, b.
  - intros (a & b & -> & Hb & Hdot). repeat split.
    + now destruct a.
    + apply in_or_app. right. now left.
    + now rewrite TextFacts.after_last.
Qed.

Lemma short_test (n : Z) (s : text) :
  0 < n -> Text.falsy s || (Text.len s <? n) = (Text.len s <? n).
Proof.
  intros Hn. destruct (Text.falsy s) eqn:E; [|reflexivity].
  apply TextFacts.falsy_len in E. rewrite E. simpl. symmetry. now apply Z.ltb_lt.
Qed.

Ltac messages_differ :=
  match goal with
  | H : ?a = ?b |- _ =>
      first [ is_var a; fail 1 | is_var b; fail 1
            | exfalso; revert H; vm_compute; discriminate ]
  end.

(** The entries [validate_user_registration] returns, rule by rule. *)
Lemma registration_errors (email username password confirm_password : text) :
  validate_user_registration email username password confirm_password =
  (if Text.falsy email
      || negb (Text.contains_char "@" email)
      || negb (Text.contains_char "." (Text.last_item (Text.split "@" email)))
   then [Msg.bad_email] else [])
  ++ (if Text.len username <? 3 then [Msg.username_short]
      else if Text.len username >? 50 then [Msg.username_long] else [])
  ++ (if Text.len password <? 6 then [Msg.password_short]
      else if Text.len password >? 72 then [Msg.password_long] else [])
  ++ (if Text.eqb password confirm_password then [] else [Msg.password_mismatch]).
Proof.
  unfold validate_user_registration, append_if.
  rewrite !short_test by lia.
  destruct (Text.falsy email || _ || _);
    destruct (Text.len username <? 3); destruct (Text.len username >? 50);
    destruct (Text.len password <? 6); destruct (Text.len password >? 72);
    destruct (Text.eqb password confirm_password); reflexivity.
Qed.

Ltac bool_to_prop :=
  repeat match goal with
         | H : (_ <? _) = true |- _ => apply Z.ltb_lt in H
         | H : (_ <? _) = false |- _ => apply Z.ltb_ge in H
         | H : (_ >? _) = true |- _ => rewrite Z.gtb_ltb in H
         | H : (_ >? _) = false |- _ => rewrite Z.gtb_ltb in H
         | H : (_ =? _) = true |- _ => apply Z.eqb_eq in H
         | H : (_ =? _) = false |- _ => apply Z.eqb_neq in H
         | H : Text.eqb _ _ = true |- _ => apply TextFacts.eqb_eq in H
         | H : Text.eqb _ _ = false |- _ => apply TextFacts.eqb_neq in H
         end.

Ltac in_messages :=
  repeat match goal with
         | H : In _ _ |- _ => simpl in H
         | H : _ \/ _ |- _ => destruct H
         | H : False |- _ => destruct H
         | H : _ = _ |- _ => messages_differ
         end.

Lemma missing_or_blank_Some (s : text) :
  missing_or_blank (Some s) = true <-> blank s.
Proof.
  simpl. rewrite orb_true_iff, Z.eqb_eq, TextFacts.len_zero, TextFacts.strip_nil,
    TextFacts.falsy_nil.
  split; [intros [->|H]; [constructor | exact H] | tauto].
Qed.

(** The entries [validate_album_data] returns, rule by rule. *)
Lemma album_errors (current_year : Z) (title artist : option text) (release_year : option Z) :
  validate_album_data current_year title artist release_year =
  (if missing_or_blank title then [Msg.title_required]
   else if longer_than 200 title then [Msg.title_long] else [])
  ++ (if missing_or_blank artist then [Msg.artist_required]
      else if longer_than 100 artist then [Msg.artist_long] else [])
  ++ match release_year with
     | Some y => if (y <? 1900) || (y >? current_year)
                 then [Msg.year_range current_year] else []
     | None => []
     end.
Proof.
  unfold validate_album_data.
  destruct (missing_or_blank title); destruct (longer_than 200 title);
    destruct (missing_or_blank artist); destruct (longer_than 100 artist);
    destruct release_year as [y|]; try destruct ((y <? 1900) || (y >? current_year));
    reflexivity.
Qed.

Lemma field_test (limit : Z) (v : option text) :
  (if missing_or_blank v then true else longer_than limit v) = true
  <-> field_rejected limit v.
Proof.
  unfold field_rejected. destruct v as [s|].
  - destruct (missing_or_blank (Some s)) eqn:E.
    + apply missing_or_blank_Some in E. split; [|reflexivity].
      intros _. right. exists s. tauto.
    + assert (Hnb : ~ blank s).
      { intros Hb. apply missing_or_blank_Some in Hb. congruence. }
      simpl. rewrite Z.gtb_ltb, Z.ltb_lt. split.
      * intros H. right. exists s. split; [reflexivity | right; lia].
      * intros [H|(s' & [= <-] & [H|H])]; [discriminate | tauto | lia].
  - simpl. split; [now left | reflexivity].
Qed.

(* ================================================================== *)
(** * Listing *)
(* ================================================================== *)

Lemma is_owner_iff (user_id : Z) (a : Album.t) :
  is_owner user_id a = true <-> owned_by user_id a.
Proof.
  unfold is_owner, owned_by. destruct (Album.owner_id a) as [o|].
  - rewrite Z.eqb_eq. split; congruence.
  - split; discriminate.
Qed.

Lemma owner_filter (user_id : Z) (a : Album.t) :
  Sql.is_true (Sql.eq_int (Album.owner_id a) user_id) = is_owner user_id a.
Proof.
  unfold is_owner. destruct (Album.owner_id a) as [o|]; simpl; [|reflexivity].
  now destruct (o =? user_id).
Qed.

Module SortFacts.
Import Sql.

Lemma insert_desc_perm (a : Album.t) (l : list Album.t) :
  Permutation (insert_desc a l) (a :: l).
Proof.
  induction l as [|b l IH]; simpl; [reflexivity|].
  destruct (Album.created_at b <=? Album.created_at a); [reflexivity|].
  rewrite IH. apply perm_swap.
Qed.

Lemma order_by_perm (l : list Album.t) :
  Permutation (order_by_created_at_desc l) l.
Proof.
  induction l as [|a l IH]; simpl; [reflexivity|].
  rewrite insert_desc_perm. now constructor.
Qed.

Lemma insert_desc_sorted (a : Album.t) (l : list Album.t) :
  StronglySorted ge_created l -> StronglySorted ge_created (insert_desc a l).
Proof.
  induction 1 as [|b l Hl IH Hb]; simpl.
  - repeat constructor.
  - destruct (Album.created_at b <=? Album.created_at a) eqn:E.
    + apply Z.leb_le in E. constructor; [now constructor|].
      constructor; [unfold ge_created; lia|].
      eapply Forall_impl; [|exact Hb]. unfold ge_created. intros c Hc. lia.
    + apply Z.leb_gt in E. constructor; [exact IH|].
      eapply Permutation_Forall; [symmetry; apply insert_desc_perm|].
      constructor; [unfold ge_created; lia | exact Hb].
Qed.

Lemma order_by_sorted (l : list Album.t) :
  StronglySorted ge_created (order_by_created_at_desc l).
Proof.
  induction l as [|a l IH]; simpl; [constructor|].
  now apply insert_desc_sorted.
Qed.

Lemma sorted_skipn (n : nat) (l : list Album.t) :
  StronglySorted ge_created l -> StronglySorted ge_created (skipn n l).
Proof.
  revert l. induction n as [|n IH]; intros l H; simpl; [exact H|].
  destruct l as [|a l]; [constructor|]. apply IH. now inversion H.
Qed.

Lemma sorted_firstn (n : nat) (l : list Album.t) :
  StronglySorted ge_created l -> StronglySorted ge_created (firstn n l).
Proof.
  revert l. induction n as [|n IH]; intros l H; simpl; [constructor|].
  destruct l as [|a l]; [constructor|]. inversion H as [|? ? Hl Ha]; subst.
  constructor; [now apply IH|].
  rewrite Forall_forall in *. intros b Hb. apply Ha.
  eapply In_nth_error in Hb. destruct Hb as [i Hi].
  eapply nth_error_In. rewrite nth_error_firstn in Hi.
  destruct (i <? n)%nat; [exact Hi | discriminate].
Qed.

End SortFacts.

Lemma get_albums_run (e : Env) (s : State) (user_id : Z) (skip limit : nat) :
  get_albums user_id skip limit e s =
  (inr (firstn limit (skipn skip
          (Sql.order_by_created_at_desc (albums_of user_id (stored s))))), s).
Proof.
  unfold get_albums, bind, ret, Db.query_albums, Sql.offset_limit, albums_of. simpl.
  now rewrite (filter_ext _ _ (owner_filter user_id)).
Qed.

(* ================================================================== *)
(** * Facts about the session and the data-access functions *)
(* ================================================================== *)

Lemma column_eqb_eq (x y : Album.column) : Album.column_eqb x y = true <-> x = y.
Proof. destruct x, y; simpl; split; congruence. Qed.

Lemma column_eqb_refl (x : Album.column) : Album.column_eqb x x = true.
Proof. now apply column_eqb_eq. Qed.

Lemma setattr_get (c : Album.column) (a : Album.t) (k : kwarg) :
  Album.get c (setattr a k) =
  if Album.column_eqb (kw_column k) c then kw_value k else Album.get c a.
Proof. destruct a, k, c; reflexivity. Qed.

Lemma set_given_cons (a : Album.t) (k : kwarg) (album_data : list kwarg) :
  set_given a (k :: album_data) =
  set_given (if negb (is_none k) then setattr a k else a) album_data.
Proof. reflexivity. Qed.

Lemma find_append {A} (f : A -> bool) (l m : list A) :
  find f (l ++ m) = match find f l with Some x => Some x | None => find f m end.
Proof.
  induction l as [|x l IH]; simpl; [reflexivity|]. now destruct (f x).
Qed.

Lemma find_same {A} (f g : A -> bool) (l : list A) :
  (forall x, f x = g x) -> find f l = find g l.
Proof.
  intros H. induction l as [|x l IH]; simpl; [reflexivity|]. now rewrite H, IH.
Qed.

(** What the loop of [update_album] leaves in each column. *)
Lemma set_given_get (c : Album.column) (album_data : list kwarg) (a : Album.t) :
  Album.get c (set_given a album_data) =
  match last_given c album_data with
  | Some k => kw_value k
  | None => Album.get c a
  end.
Proof.
  revert a. induction album_data as [|k l IH]; intros a; [reflexivity|].
  rewrite set_given_cons, IH. unfold last_given. simpl rev.
  destruct (find _ (rev l)) as [k'|] eqn:E.
  - now rewrite find_append, E.
  - rewrite find_append, E. simpl.
    destruct (is_none k); simpl.
    + now rewrite andb_false_r.
    + rewrite andb_true_r, setattr_get.
      now destruct (Album.column_eqb (kw_column k) c).
Qed.

Lemma last_given_none (c : Album.column) (album_data : list kwarg) :
  (forall k, In k album_data -> kw_column k = c -> is_none k = true) ->
  last_given c album_data = None.
Proof.
  intros H. unfold last_given.
  destruct (find _ (rev album_data)) as [k|] eqn:E; [|reflexivity].
  apply find_some in E. destruct E as [Hin Hk].
  apply andb_true_iff in Hk. destruct Hk as [Hc Hn].
  apply column_eqb_eq in Hc. apply in_rev in Hin.
  rewrite (H k Hin Hc) in Hn. discriminate.
Qed.

Lemma last_given_some (k : kwarg) (album_data : list kwarg) :
  In k album_data -> is_none k = false ->
  (forall k', In k' album_data -> kw_column k' = kw_column k -> k' = k) ->
  last_given (kw_column k) album_data = Some k.
Proof.
  intros Hin Hn Huniq. unfold last_given.
  destruct (find _ (rev album_data)) as [k'|] eqn:E.
  - apply find_some in E. destruct E as [Hin' Hk].
    apply andb_true_iff in Hk. destruct Hk as [Hc _].
    apply column_eqb_eq in Hc. apply in_rev in Hin'.
    now rewrite (Huniq k' Hin' Hc).
  - apply in_rev in Hin. apply (find_none _ _ E k) in Hin.
    rewrite column_eqb_refl, Hn in Hin. discriminate.
Qed.

Lemma set_given_nothing (a : Album.t) (album_data : list kwarg) :
  existsb (fun k => negb (is_none k)) album_data = false ->
  set_given a album_data = a.
Proof.
  induction album_data as [|k l IH]; [reflexivity|]. simpl existsb.
  intros H. apply orb_false_iff in H. destruct H as [Hk Hl].
  rewrite set_given_cons, Hk. now apply IH.
Qed.

(** Dropping the [None] entries beforehand changes nothing: the loop
    skips them anyway. *)
Lemma set_given_drop_none (a : Album.t) (album_data : list kwarg) :
  set_given a (drop_none album_data) = set_given a album_data.
Proof.
  revert a. induction album_data as [|k l IH]; intros a; [reflexivity|].
  unfold drop_none in *. simpl filter. rewrite (set_given_cons a k l).
  destruct (is_none k) eqn:E; simpl negb; cbv iota.
  - apply IH.
  - rewrite set_given_cons, E. apply IH.
Qed.

Lemma set_given_id (a : Album.t) (album_data : list kwarg) :
  Album.id (set_given a album_data) = Album.id a.
Proof.
  pose proof (set_given_get Album.c_id album_data a) as H.
  rewrite last_given_none in H.
  - simpl in H. congruence.
  - intros k _ Hk. destruct k; discriminate.
Qed.

Lemma set_given_not_null (c : Album.column) (a : Album.t) (album_data : list kwarg) :
  Album.get c a <> Album.Str None -> Album.get c a <> Album.Int None ->
  Album.get c (set_given a album_data) <> Album.Str None /\
  Album.get c (set_given a album_data) <> Album.Int None.
Proof.
  intros H1 H2. rewrite set_given_get. unfold last_given.
  destruct (find _ (rev album_data)) as [k|] eqn:E; [|tauto].
  apply find_some in E. destruct E as [_ Hk].
  apply andb_true_iff in Hk. destruct Hk as [_ Hn].
  unfold is_none in Hn. destruct (kw_value k) as [[v|]|[v|]]; split; discriminate.
Qed.

(** The owner-scoped lookup of the source is [own_album]. *)
Lemma get_album_by_id_run (album_id user_id : Z) (e : Env) (s : State) :
  get_album_by_id album_id user_id e s =
  match own_album (stored s) album_id user_id with
  | Some a => (inr a, s)
  | None => (inl (HTTPException 404 Msg.album_not_found), s)
  end.
Proof.
  unfold get_album_by_id, bind, Db.query_albums, own_album.
  rewrite (find_same _ (fun a => (Album.id a =? album_id) && is_owner user_id a)).
  - now destruct (find _ (albums (stored s))).
  - intros a. rewrite <- owner_filter.
    destruct (Album.id a =? album_id); destruct (Album.owner_id a) as [o|]; simpl;
      try reflexivity; now destruct (o =? user_id).
Qed.

Lemma own_album_found (t : Tables) (album_id user_id : Z) (a : Album.t) :
  own_album t album_id user_id = Some a ->
  In a (albums t) /\ Album.id a = album_id /\ owned_by user_id a.
Proof.
  unfold own_album. intros H. apply find_some in H. destruct H as [Hin H].
  apply andb_true_iff in H. destruct H as [Hid Hown].
  apply Z.eqb_eq in Hid. apply is_owner_iff in Hown. tauto.
Qed.

Lemma own_album_missing (t : Tables) (album_id user_id : Z) :
  own_album t album_id user_id = None <->
  ~ exists a, In a (albums t) /\ Album.id a = album_id /\ owned_by user_id a.
Proof.
  unfold own_album. split.
  - intros H (a & Hin & Hid & Hown).
    apply (find_none _ _ H) in Hin. apply is_owner_iff in Hown.
    rewrite Hown, <- Hid, Z.eqb_refl in Hin. discriminate.
  - intros H. destruct (find _ (albums t)) as [a|] eqn:E; [|reflexivity].
    exfalso. apply H. exists a. now apply own_album_found.
Qed.

Lemma mem_In (i : Z) (l : list Z) : existsb (Z.eqb i) l = true <-> In i l.
Proof.
  rewrite existsb_exists. split.
  - intros (x & Hx & E). apply Z.eqb_eq in E. now subst.
  - intros H. exists i. split; [exact H | apply Z.eqb_refl].
Qed.

Lemma distinct_NoDup (l : list Z) : distinct l = true <-> NoDup l.
Proof.
  induction l as [|x l IH]; simpl.
  - split; [constructor | reflexivity].
  - rewrite andb_true_iff, negb_true_iff, IH, NoDup_cons_iff.
    rewrite <- (mem_In x l). destruct (existsb (Z.eqb x) l); intuition congruence.
Qed.

(** In a table with distinct keys a key names one row. *)
Lemma same_key_same_row (l : list Album.t) (a b : Album.t) :
  NoDup (map Album.id l) -> In a l -> In b l -> Album.id a = Album.id b -> a = b.
Proof.
  induction l as [|x l IH]; simpl; [tauto|].
  intros Hnd Ha Hb Hid. apply NoDup_cons_iff in Hnd. destruct Hnd as [Hx Hnd].
  destruct Ha as [->|Ha], Hb as [->|Hb]; auto.
  - exfalso. apply Hx. rewrite Hid. now apply in_map.
  - exfalso. apply Hx. rewrite <- Hid. now apply in_map.
Qed.

Lemma constraints_keys (t : Tables) :
  constraints_hold t = true -> NoDup (map Album.id (albums t)).
Proof.
  unfold constraints_hold. intros H. apply andb_true_iff in H.
  now apply distinct_NoDup.
Qed.

Lemma constraints_not_null (t : Tables) (a : Album.t) :
  constraints_hold t = true -> In a (albums t) ->
  Db.is_null (Album.title a) = false /\ Db.is_null (Album.artist a) = false.
Proof.
  unfold constraints_hold. intros H Hin. apply andb_true_iff in H.
  destruct H as [_ H]. rewrite forallb_forall in H. specialize (H a Hin).
  apply andb_true_iff in H. now rewrite !negb_true_iff in H.
Qed.

Lemma find_replaced (i : Z) (a' : Album.t) (l : list Album.t) :
  Album.id a' = i -> (exists r, In r l /\ Album.id r = i) ->
  find (fun r => Album.id r =? i)
       (map (fun r => if Album.id r =? i then a' else r) l) = Some a'.
Proof.
  intros Hid. induction l as [|x l IH]; intros (r & Hin & Hr); [contradiction|].
  simpl. destruct (Album.id x =? i) eqn:E.
  - now rewrite Hid, Z.eqb_refl.
  - rewrite E. apply IH. destruct Hin as [->|Hin].
    + apply Z.eqb_neq in E. congruence.
    + now exists r.
Qed.

Lemma replace_same (i : Z) (a : Album.t) (l : list Album.t) :
  NoDup (map Album.id l) -> In a l -> Album.id a = i ->
  map (fun r => if Album.id r =? i then a else r) l = l.
Proof.
  intros Hnd Hin Hid. rewrite <- (map_id l) at 2. apply map_ext_in.
  intros r Hr. destruct (Album.id r =? i) eqn:E; [|reflexivity].
  apply Z.eqb_eq in E. eapply same_key_same_row; eauto. congruence.
Qed.

Lemma is_null_false_iff {A} (v : option A) : Db.is_null v = false <-> v <> None.
Proof. destruct v; simpl; split; congruence. Qed.

Lemma set_given_keeps_required (a : Album.t) (album_data : list kwarg) :
  Db.is_null (Album.title a) = false -> Db.is_null (Album.artist a) = false ->
  Db.is_null (Album.title (set_given a album_data)) = false /\
  Db.is_null (Album.artist (set_given a album_data)) = false.
Proof.
  rewrite !is_null_false_iff. intros Ht Ha.
  destruct (set_given_not_null Album.c_title a album_data) as [H1 _];
    [simpl; congruence | discriminate |].
  destruct (set_given_not_null Album.c_artist a album_data) as [H2 _];
    [simpl; congruence | discriminate |].
  simpl in H1, H2. split; congruence.
Qed.

(** A successful [update_album]: the row is replaced by the object
    the loop has produced. *)
Lemma update_album_run (e : Env) (s : State) (album_id user_id : Z)
    (album_data : list kwarg) (a : Album.t) :
  commit_fault e = None -> pending s = [] ->
  constraints_hold (stored s) = true ->
  own_album (stored s) album_id user_id = Some a ->
  update_album album_id user_id album_data e s =
  (inr (set_given a album_data),
   mkState (with_row album_id (set_given a album_data) (stored s)) [] (log s)).
Proof.
  intros Hfault Hpend Hok Hown.
  destruct (own_album_found _ _ _ _ Hown) as (Hin & Hid & _).
  destruct (constraints_not_null _ _ Hok Hin) as [Ht Ha].
  destruct (set_given_keeps_required a album_data Ht Ha) as [Ht' Ha'].
  pose proof (set_given_id a album_data) as Hid'.
  unfold update_album, bind. rewrite get_album_by_id_run, Hown.
  destruct (existsb _ album_data) eqn:E.
  - unfold Db.add, Db.commit, Db.refresh_album, with_row. simpl.
    rewrite Hfault, Hpend. simpl. rewrite Ht', Ha'. simpl.
    rewrite Hid', Hid, find_replaced; [reflexivity | congruence |].
    exists a. tauto.
  - unfold ret, Db.commit, Db.refresh_album, with_row. simpl.
    rewrite Hfault, Hpend. simpl.
    rewrite (set_given_nothing _ _ E).
    rewrite replace_same; auto using constraints_keys.
    rewrite Hid.
    assert (Hfind : find (fun r => Album.id r =? album_id) (albums (stored s)) = Some a).
    { destruct (find _ (albums (stored s))) as [r|] eqn:F.
      - apply find_some in F. destruct F as [Hr Hk]. apply Z.eqb_eq in Hk.
        f_equal. eapply same_key_same_row; eauto using constraints_keys. congruence.
      - apply (find_none _ _ F) in Hin. rewrite Hid, Z.eqb_refl in Hin. discriminate. }
    rewrite Hfind. now destruct (stored s).
Qed.

Lemma next_key_above (keys : list Z) (i : Z) : In i keys -> i < Db.next_key keys.
Proof.
  unfold Db.next_key. induction keys as [|k l IH]; cbn [fold_right In]; [tauto|].
  intros [->|H].
  - pose proof (Z.le_max_l i (fold_right Z.max 0 l)). lia.
  - specialize (IH H). pose proof (Z.le_max_r k (fold_right Z.max 0 l)). lia.
Qed.

Lemma find_new_row (l : list Album.t) (row : Album.t) :
  Album.id row = Db.next_key (map Album.id l) ->
  find (fun r => Album.id r =? Album.id row) (l ++ [row]) = Some row.
Proof.
  intros Hk. rewrite find_append.
  destruct (find _ l) as [r|] eqn:E.
  - apply find_some in E. destruct E as [Hin E]. apply Z.eqb_eq in E.
    apply (in_map Album.id) in Hin. apply next_key_above in Hin. lia.
  - simpl. now rewrite Z.eqb_refl.
Qed.

(** The object and the dictionary that the two album forms build. *)
Lemma form_object (user_id : Z) (f : AlbumForm) :
  fold_left setattr (drop_none (form_album_data f))
            (setattr Album.fresh (kw_owner_id (Some user_id))) =
  created_row 0 0 user_id f.
Proof.
  unfold form_album_data, created_row, drop_none.
  destruct (strip_or_none (f_genre f)), (f_release_year f),
    (strip_or_none (f_record_label f)), (strip_or_none (f_country f)),
    (f_condition f), (strip_or_none (f_barcode f)), (strip_or_none (f_notes f));
    reflexivity.
Qed.

Lemma form_edit (a : Album.t) (f : AlbumForm) :
  set_given a (drop_none (form_album_data f)) = edited_row a f.
Proof.
  unfold form_album_data, edited_row, drop_none, set_given. destruct a.
  destruct (strip_or_none (f_genre f)), (f_release_year f),
    (strip_or_none (f_record_label f)), (strip_or_none (f_country f)),
    (f_condition f), (strip_or_none (f_barcode f)), (strip_or_none (f_notes f));
    reflexivity.
Qed.

Lemma form_no_owner (f : AlbumForm) :
  existsb (fun k => Album.column_eqb (kw_column k) Album.c_owner_id)
          (drop_none (form_album_data f)) = false.
Proof.
  unfold form_album_data, drop_none.
  destruct (strip_or_none (f_genre f)), (f_release_year f),
    (strip_or_none (f_record_label f)), (strip_or_none (f_country f)),
    (f_condition f), (strip_or_none (f_barcode f)), (strip_or_none (f_notes f));
    reflexivity.
Qed.

Lemma form_gives_title (f : AlbumForm) :
  existsb (fun k => negb (is_none k)) (drop_none (form_album_data f)) = true.
Proof. reflexivity. Qed.

(** A successful [create_album] on the dictionary of a form. *)
Lemma create_album_run (e : Env) (s : State) (user_id : Z) (f : AlbumForm) :
  commit_fault e = None -> pending s = [] ->
  let row := created_row (Db.next_key (map Album.id (albums (stored s))))
                         (utcnow e) user_id f in
  create_album user_id (drop_none (form_album_data f)) e s =
  (inr row, mkState (with_new_row row (stored s)) [] (log s)).
Proof.
  intros Hfault Hpend row.
  unfold create_album, new_album, bind. rewrite form_no_owner, form_object.
  unfold ret, Db.add, Db.commit, Db.refresh_album, Db.new_key, with_new_row. simpl.
  rewrite Hfault, Hpend. simpl.
  pose proof (@find_new_row (albums (stored s)) row eq_refl) as Hfind.
  unfold row, created_row in Hfind. cbn [Album.id] in Hfind.
  now rewrite Hfind.
Qed.

(** A successful [delete_album]. *)
Lemma delete_album_run (e : Env) (s : State) (album_id user_id : Z) (a : Album.t) :
  commit_fault e = None -> pending s = [] ->
  own_album (stored s) album_id user_id = Some a ->
  delete_album album_id user_id e s =
  (inr true, mkState (without_row album_id (stored s)) [] (log s)).
Proof.
  intros Hfault Hpend Hown.
  destruct (own_album_found _ _ _ _ Hown) as (_ & Hid & _).
  unfold delete_album, bind. rewrite get_album_by_id_run, Hown.
  unfold ret, Db.add, Db.commit, without_row. simpl.
  rewrite Hfault, Hpend. simpl. now rewrite Hid.
Qed.

(** The three owner-scoped functions on an album the user does not
    have: a 404, and the state is as it was. *)
Lemma missing_album_run (e : Env) (s : State) (album_id user_id : Z)
    (album_data : list kwarg) :
  own_album (stored s) album_id user_id = None ->
  get_album_by_id album_id user_id e s = (inl (HTTPException 404 Msg.album_not_found), s) /\
  update_album album_id user_id album_data e s =
    (inl (HTTPException 404 Msg.album_not_found), s) /\
  delete_album album_id user_id e s = (inl (HTTPException 404 Msg.album_not_found), s).
Proof.
  intros H. unfold update_album, delete_album, bind.
  rewrite get_album_by_id_run, H. auto.
Qed.

(* ================================================================== *)
(** * Facts about the routes *)
(* ================================================================== *)

(** The identity lookup reads the users table and changes nothing. *)
Lemma current_user_pure (cookie : option text) (e : Env) (s : State) :
  exists user, get_current_user_from_cookie cookie e s = (inr user, s).
Proof.
  unfold get_current_user_from_cookie, bind, ask, ret, Db.query_users.
  destruct cookie as [token|]; [|now exists None].
  destruct (Text.falsy token); [now exists None|].
  destruct (decode_token e token) as [[username|]|]; try now exists None.
  destruct (Text.falsy username); [now exists None|]. eauto.
Qed.

Section RouteFacts.

Variable like_escape : option ascii.
Variables (e : Env) (s : State) (cookie : option text) (u : User.t).
Hypothesis Hauth : authenticated cookie e s u.

Lemma album_detail_page_run (album_id : Z) :
  album_detail_page cookie album_id e s =
  match own_album (stored s) album_id (User.id u) with
  | Some a =>
      (inr (TemplateResponse "album_detail.html"
              (mkContext None None (Some u) None None (album_row a)
                         (Some (T "edit"))) 200), s)
  | None =>
      (inr (TemplateResponse "error.html"
              (error_context Msg.album_not_found 404) 404), s)
  end.
Proof.
  unfold album_detail_page, bind. rewrite Hauth.
  unfold try_except, bind. rewrite get_album_by_id_run.
  now destruct (own_album (stored s) album_id (User.id u)).
Qed.

Lemma edit_album_invalid (album_id : Z) (f : AlbumForm) :
  ~ valid_form e f ->
  exists error,
    edit_album cookie album_id f e s =
    (inr (album_form_page u (Some album_id) f "edit" error 422), s).
Proof.
  unfold valid_form. intros Hinv. unfold edit_album, bind. rewrite Hauth.
  unfold ask. destruct (validate_album_data _ _ _ _) as [|m l]; [congruence|].
  eexists. reflexivity.
Qed.

Lemma edit_album_missing (album_id : Z) (f : AlbumForm) :
  valid_form e f ->
  own_album (stored s) album_id (User.id u) = None ->
  edit_album cookie album_id f e s =
  (inr (TemplateResponse "error.html" (error_context Msg.album_not_found 404) 404), s).
Proof.
  unfold valid_form. intros Hvalid Hnone. unfold edit_album, bind. rewrite Hauth.
  unfold ask. rewrite Hvalid. unfold try_except, bind.
  destruct (missing_album_run e s _ _ (drop_none (form_album_data f)) Hnone) as (_ & -> & _).
  reflexivity.
Qed.

Lemma edit_album_found (album_id : Z) (f : AlbumForm) (a : Album.t) :
  valid_form e f ->
  commit_fault e = None -> pending s = [] -> constraints_hold (stored s) = true ->
  own_album (stored s) album_id (User.id u) = Some a ->
  edit_album cookie album_id f e s =
  (inr (RedirectResponse (album_url album_id) HTTP_303_SEE_OTHER []),
   mkState (with_row album_id (edited_row a f) (stored s)) [] (log s)).
Proof.
  unfold valid_form. intros Hvalid Hfault Hpend Hok Hown.
  unfold edit_album, bind. rewrite Hauth.
  unfold ask. rewrite Hvalid. unfold try_except, bind.
  rewrite (update_album_run _ _ _ _ _ _ Hfault Hpend Hok Hown), form_edit.
  unfold ret, edited_row. cbn [Album.id].
  destruct (own_album_found _ _ _ _ Hown) as (_ & -> & _). reflexivity.
Qed.

Lemma edit_album_fault (album_id : Z) (f : AlbumForm) (a : Album.t) (m : text) :
  valid_form e f ->
  commit_fault e = Some m ->
  own_album (stored s) album_id (User.id u) = Some a ->
  edit_album cookie album_id f e s =
  (inr (album_form_page u (Some album_id) f "edit" Msg.update_failed 500),
   mkState (stored s) [] (log s ++ [Msg.log_update ++ m])).
Proof.
  unfold valid_form. intros Hvalid Hfault Hown.
  unfold edit_album, bind. rewrite Hauth.
  unfold ask. rewrite Hvalid. unfold try_except, update_album, bind.
  rewrite get_album_by_id_run, Hown, form_gives_title, form_edit.
  unfold Db.add, Db.commit, logger_error, ret. simpl.
  now rewrite Hfault.
Qed.

Lemma delete_endpoint_missing (album_id : Z) :
  own_album (stored s) album_id (User.id u) = None ->
  delete_album_endpoint cookie album_id e s =
  (inr (RedirectResponse "/albums" HTTP_303_SEE_OTHER []),
   mkState (stored s) (pending s)
           (log s ++ [Msg.log_delete
                      ++ str_exn (HTTPException 404 Msg.album_not_found)])).
Proof.
  intros Hnone. unfold delete_album_endpoint, bind. rewrite Hauth.
  unfold try_except, bind.
  destruct (missing_album_run e s _ _ [] Hnone) as (_ & _ & ->).
  reflexivity.
Qed.

Lemma delete_endpoint_found (album_id : Z) (a : Album.t) :
  commit_fault e = None -> pending s = [] ->
  own_album (stored s) album_id (User.id u) = Some a ->
  delete_album_endpoint cookie album_id e s =
  (inr (RedirectResponse "/albums" HTTP_303_SEE_OTHER []),
   mkState (without_row album_id (stored s)) [] (log s)).
Proof.
  intros Hfault Hpend Hown. unfold delete_album_endpoint, bind. rewrite Hauth.
  unfold try_except, bind.
  now rewrite (delete_album_run _ _ _ _ _ Hfault Hpend Hown).
Qed.

Lemma delete_endpoint_fault (album_id : Z) (a : Album.t) (m : text) :
  commit_fault e = Some m ->
  own_album (stored s) album_id (User.id u) = Some a ->
  delete_album_endpoint cookie album_id e s =
  (inr (RedirectResponse "/albums" HTTP_303_SEE_OTHER []),
   mkState (stored s) [] (log s ++ [Msg.log_delete ++ m])).
Proof.
  intros Hfault Hown. unfold delete_album_endpoint, bind. rewrite Hauth.
  unfold try_except, delete_album, bind.
  rewrite get_album_by_id_run, Hown.
  unfold Db.add, Db.commit, logger_error, ret. simpl.
  now rewrite Hfault.
Qed.

Lemma create_new_album_invalid (f : AlbumForm) :
  ~ valid_form e f ->
  exists error,
    create_new_album cookie f e s =
    (inr (album_form_page u None f "new" error 422), s).
Proof.
  unfold valid_form. intros Hinv. unfold create_new_album, bind. rewrite Hauth.
  unfold ask. destruct (validate_album_data _ _ _ _) as [|m l]; [congruence|].
  eexists. reflexivity.
Qed.

Lemma create_new_album_run (f : AlbumForm) :
  valid_form e f -> commit_fault e = None -> pending s = [] ->
  let key := Db.next_key (map Album.id (albums (stored s))) in
  create_new_album cookie f e s =
  (inr (RedirectResponse (album_url key) HTTP_303_SEE_OTHER []),
   mkState (with_new_row (created_row key (utcnow e) (User.id u) f) (stored s))
           [] (log s)).
Proof.
  intros Hvalid Hfault Hpend key. unfold valid_form in Hvalid.
  unfold create_new_album, bind. rewrite Hauth.
  unfold ask. rewrite Hvalid. unfold try_except, bind.
  now rewrite (create_album_run _ _ _ _ Hfault Hpend).
Qed.

Lemma create_new_album_fault (f : AlbumForm) (m : text) :
  valid_form e f -> commit_fault e = Some m ->
  create_new_album cookie f e s =
  (inr (album_form_page u None f "new" Msg.create_failed 500),
   mkState (stored s) [] (log s ++ [Msg.log_create ++ m])).
Proof.
  unfold valid_form. intros Hvalid Hfault.
  unfold create_new_album, bind. rewrite Hauth.
  unfold ask. rewrite Hvalid. unfold try_except, create_album, new_album, bind.
  rewrite form_no_owner, form_object.
  unfold Db.add, Db.commit, logger_error, ret. simpl.
  now rewrite Hfault.
Qed.

End RouteFacts.

(* ================================================================== *)
(** * Owner-scoped access *)
(* ================================================================== *)

Lemma own_album_the (t : Tables) (album_id user_id : Z) (a : Album.t) :
  constraints_hold t = true ->
  In a (albums t) -> Album.id a = album_id -> owned_by user_id a ->
  own_album t album_id user_id = Some a.
Proof.
  intros Hok Hin Hid Hown.
  destruct (own_album t album_id user_id) as [b|] eqn:E.
  - destruct (own_album_found _ _ _ _ E) as (Hb & Hidb & _).
    f_equal. eapply same_key_same_row; eauto using constraints_keys. congruence.
  - apply own_album_missing in E. exfalso. apply E. now exists a.
Qed.

Lemma without_row_gone (album_id : Z) (t : Tables) :
  ~ In album_id (map Album.id (albums (without_row album_id t))).
Proof.
  unfold without_row. simpl. intros H. apply in_map_iff in H.
  destruct H as (r & Hid & Hin). apply filter_In in Hin.
  destruct Hin as [_ Hne]. apply negb_true_iff, Z.eqb_neq in Hne. congruence.
Qed.

Lemma without_row_others (album_id : Z) (t : Tables) (r : Album.t) :
  In r (albums (without_row album_id t)) <-> In r (albums t) /\ Album.id r <> album_id.
Proof.
  unfold without_row. simpl. rewrite filter_In, negb_true_iff, Z.eqb_neq. tauto.
Qed.

(* ================================================================== *)
(** * Optional fields of the album forms *)
(* ================================================================== *)

Lemma strip_or_none_cases (v : option text) :
  ((v = None \/ v = Some []) -> strip_or_none v = None) /\
  (forall w, v = Some w -> w <> [] -> strip_or_none v = Some (Text.strip w)).
Proof.
  split.
  - intros [->| ->]; reflexivity.
  - intros w -> Hw. destruct w; [congruence | reflexivity].
Qed.

Lemma created_row_stored (x : stripped_field) (key now user_id : Z) (f : AlbumForm) :
  stored_in x (created_row key now user_id f) = strip_or_none (submitted x f).
Proof. now destruct x. Qed.

Lemma edited_row_stored (x : stripped_field) (a : Album.t) (f : AlbumForm) :
  stored_in x (edited_row a f) = or_keep (strip_or_none (submitted x f)) (stored_in x a).
Proof. now destruct x. Qed.

(* ================================================================== *)
(** * Registration *)
(* ================================================================== *)

(** The duplicate lookup: by email first, then by user name. *)
Lemma duplicate_lookup (email username : text) (e : Env) (s : State) :
  or_else (get_user_by_email email) (get_user_by_username username) e s =
  (inr match find (fun r => Text.eqb (User.email r) email) (users (stored s)) with
       | Some r => Some r
       | None => find (fun r => Text.eqb (User.username r) username) (users (stored s))
       end, s).
Proof.
  unfold or_else, get_user_by_email, get_user_by_username, bind, ret, Db.query_users.
  simpl. now destruct (find _ (users (stored s))).
Qed.

Lemma duplicate_found (email username : text) (t : Tables) :
  (exists r, In r (users t) /\ (User.email r = email \/ User.username r = username)) ->
  exists r',
    match find (fun r => Text.eqb (User.email r) email) (users t) with
    | Some r => Some r
    | None => find (fun r => Text.eqb (User.username r) username) (users t)
    end = Some r'.
Proof.
  intros (r & Hin & Hr).
  destruct (find (fun r => Text.eqb (User.email r) email) (users t)) as [x|] eqn:E1;
    [now exists x|].
  destruct (find (fun r => Text.eqb (User.username r) username) (users t)) as [y|] eqn:E2;
    [now exists y|].
  exfalso. apply (find_none _ _ E1) in Hin as H1. apply (find_none _ _ E2) in Hin as H2.
  apply TextFacts.eqb_neq in H1, H2. tauto.
Qed.

(** What the registration route leaves behind. *)
Lemma register_user_effect (email username password confirm_password : text)
    (e : Env) (s : State) :
  pending s = [] ->
  albums (stored (snd (register_user email username password confirm_password e s)))
    = albums (stored s) /\
  (commit_fault e <> None ->
   stored (snd (register_user email username password confirm_password e s)) = stored s).
Proof.
  intros Hpend. unfold register_user.
  destruct (validate_user_registration _ _ _ _) as [|m l]; [|now split].
  unfold bind. rewrite duplicate_lookup.
  destruct (match find _ (users (stored s)) with Some _ => _ | None => _ end);
    [now split|].
  unfold try_except, bind, ask, Db.add, Db.commit, Db.rollback, logger_error, ret.
  simpl. rewrite Hpend. destruct (commit_fault e) as [m|]; simpl; [now split|].
  destruct (existsb _ (users (stored s))); simpl; [split; [reflexivity | congruence]|].
  destruct (existsb _ (users (stored s))); simpl; [split; [reflexivity | congruence]|].
  unfold Db.refresh_user. simpl.
  destruct (find _ (users (stored s) ++ _)); simpl; split; reflexivity || congruence.
Qed.

(** Registration when the database refuses the commit: the session
    is rolled back, the failure logged, the form shown with 500. *)
Lemma register_user_fault (email username password confirm_password : text)
    (e : Env) (s : State) (m : text) :
  commit_fault e = Some m ->
  validate_user_registration email username password confirm_password = [] ->
  (~ exists r, In r (users (stored s))
               /\ (User.email r = email \/ User.username r = username)) ->
  register_user email username password confirm_password e s =
  (inr (register_error Msg.registration_failed 500),
   mkState (stored s) [] (log s ++ [Msg.log_register ++ m])).
Proof.
  intros Hfault Hvalid Hnew. unfold register_user. rewrite Hvalid.
  unfold bind. rewrite duplicate_lookup.
  destruct (find (fun r => Text.eqb (User.email r) email) (users (stored s))) as [x|] eqn:E1.
  { exfalso. apply Hnew. apply find_some in E1. destruct E1 as [Hin Hx].
    apply TextFacts.eqb_eq in Hx. exists x. tauto. }
  destruct (find (fun r => Text.eqb (User.username r) username) (users (stored s)))
    as [y|] eqn:E2.
  { exfalso. apply Hnew. apply find_some in E2. destruct E2 as [Hin Hy].
    apply TextFacts.eqb_eq in Hy. exists y. tauto. }
  unfold try_except, bind, ask, Db.add, Db.commit, Db.rollback, logger_error, ret.
  simpl. now rewrite Hfault.
Qed.

(* ================================================================== *)
(** * The effect of a request on the stored tables *)
(* ================================================================== *)

Lemma handle_exception_stored (path : text) (x : Exn) (e : Env) (s : State) :
  exists resp s',
    handle_exception path x e s = (inr resp, s') /\
    stored s' = stored s /\ pending s' = pending s.
Proof.
  unfold handle_exception, not_found_handler, http_exception_handler,
    general_exception_handler, validation_exception_handler, bind, ask,
    logger_error, ret.
  destruct x as [c d|m|m|errors body]; try destruct (c =? 404);
    destruct (in_paths path SYSTEM_PATHS);
    do 2 eexists; (split; [reflexivity | split; reflexivity]).
Qed.

(** The framework either calls the route function or raises its
    validation error without touching the session. *)
Lemma dispatch_cases (like_escape : option ascii) (r : Request) (e : Env) (s : State) :
  (request_errors (route r) = [] /\
   dispatch like_escape r e s = endpoint like_escape r e s)
  \/
  (request_errors (route r) <> [] /\
   dispatch like_escape r e s =
     (inl (RequestValidationError (request_errors (route r)) (body_of (route r))), s)).
Proof.
  unfold dispatch. destruct (request_errors (route r)) as [|err errs].
  - now left.
  - right. split; [discriminate | reflexivity].
Qed.

(** The application's handlers leave the stored tables as the route
    left them. *)
Lemma with_handlers_stored (path : text) (body : M Response) (e : Env) (s : State) :
  stored (snd (with_handlers path body e s)) = stored (snd (body e s)).
Proof.
  unfold with_handlers, try_except.
  destruct (body e s) as [[x|resp] s'];
    cbn [find fst snd any_exception]; [|reflexivity].
  destruct (handle_exception_stored path x e s') as (resp & s'' & -> & H & _).
  exact H.
Qed.

Lemma valid_form_dec (e : Env) (f : AlbumForm) : valid_form e f \/ ~ valid_form e f.
Proof.
  unfold valid_form. destruct (validate_album_data _ _ _ _); [now left|].
  right. discriminate.
Qed.

Section Effects.

Variable like_escape : option ascii.

Lemma read_only_routes (e : Env) (s : State) (cookie : option text) :
  (forall username password, snd (login_user username password e s) = s) /\
  (forall q, snd (albums_page like_escape cookie q e s) = s) /\
  snd (new_album_page cookie e s) = s /\
  (forall album_id, snd (album_detail_page cookie album_id e s) = s) /\
  snd (get_current_user_info cookie e s) = s.
Proof.
  destruct (current_user_pure cookie e s) as (user & Huser).
  repeat match goal with |- _ /\ _ => split end.
  - intros username password.
    unfold login_user, authenticate_user, get_user_by_username, bind, ask, ret,
      Db.query_users. simpl.
    destruct (find _ (users (stored s))) as [r|]; [|reflexivity].
    now destruct (verify_password e password (User.hashed_password r)).
  - intros q. unfold albums_page, bind. rewrite Huser.
    destruct user as [u|]; [|reflexivity].
    destruct q as [q|]; [destruct (Text.falsy q)|]; try now rewrite get_albums_run.
    reflexivity.
  - unfold new_album_page, bind. rewrite Huser. now destruct user.
  - intros album_id. destruct user as [u|].
    + rewrite (album_detail_page_run e s cookie u Huser).
      now destruct (own_album (stored s) album_id (User.id u)).
    + unfold album_detail_page, bind. now rewrite Huser.
  - unfold get_current_user_info, bind. rewrite Huser. now destruct user.
Qed.

(** Every request has one of the listed effects on the stored
    tables. *)
Lemma endpoint_effect (e : Env) (s : State) (r : Request) :
  pending s = [] ->
  (commit_fault e = None -> constraints_hold (stored s) = true) ->
  effect e s r (stored (snd (app like_escape r e s))).
Proof.
  intros Hpend Hok.
  destruct (dispatch_cases like_escape r e s) as [[_ Hcall]|[_ Hrefused]].
  2:{ apply eff_none. unfold app. now rewrite with_handlers_stored, Hrefused. }
  assert (Hwrap : forall t',
             (forall s', snd (endpoint like_escape r e s) = s' -> t' = stored s') ->
             stored (snd (app like_escape r e s)) = t').
  { intros t' H. unfold app. rewrite with_handlers_stored, Hcall.
    symmetry. now apply H. }
  clear Hcall.
  destruct (current_user_pure (access_token r) e s) as (user & Huser).
  destruct (read_only_routes e s (access_token r)) as (Hlogin & Hlist & Hnew & Hdetail & Hme).
  destruct r as [cookie rt]. simpl in *.
  destruct rt as [| |un pw| |em un pw cf| |q| |f|i|i f|i| | |p];
    unfold endpoint; cbn [route access_token].
  all: try (apply eff_none; apply Hwrap; unfold endpoint; cbn [route access_token];
            intros s' <-; first [ reflexivity | now rewrite Hlogin | now rewrite Hlist
                                | now rewrite Hnew | now rewrite Hdetail
                                | now rewrite Hme ]).
  - (* register *)
    destruct (register_user_effect em un pw cf e s Hpend) as [Halb Hsame].
    destruct (commit_fault e) as [m|] eqn:Hfault.
    + apply eff_none. apply Hwrap. unfold endpoint; cbn [route access_token].
      intros s' <-. symmetry. apply Hsame. discriminate.
    + apply (eff_register e s _ _ em un pw cf); [reflexivity | exact Hfault |].
      rewrite (Hwrap (stored (snd (register_user em un pw cf e s)))); [exact Halb|].
      unfold endpoint; cbn [route access_token]. now intros s' <-.
  - (* create *)
    destruct user as [u|].
    2:{ apply eff_none. apply Hwrap. unfold endpoint; cbn [route access_token].
        intros s' <-. unfold create_new_album, bind. now rewrite Huser. }
    destruct (valid_form_dec e f) as [Hvalid|Hinv].
    2:{ apply eff_none. apply Hwrap. unfold endpoint; cbn [route access_token].
        intros s' <-.
        now destruct (create_new_album_invalid e s cookie u Huser f Hinv) as (err & ->). }
    destruct (commit_fault e) as [m|] eqn:Hfault.
    + apply eff_none. apply Hwrap. unfold endpoint; cbn [route access_token].
      intros s' <-. now rewrite (create_new_album_fault e s cookie u Huser f m).
    + apply (eff_create e s _ _ u f); try reflexivity; try assumption.
      apply Hwrap. unfold endpoint; cbn [route access_token].
      intros s' <-. now rewrite (create_new_album_run e s cookie u Huser f).
  - (* edit *)
    destruct user as [u|].
    2:{ apply eff_none. apply Hwrap. unfold endpoint; cbn [route access_token].
        intros s' <-. unfold edit_album, bind. now rewrite Huser. }
    destruct (valid_form_dec e f) as [Hvalid|Hinv].
    2:{ apply eff_none. apply Hwrap. unfold endpoint; cbn [route access_token].
        intros s' <-.
        now destruct (edit_album_invalid e s cookie u Huser i f Hinv) as (err & ->). }
    destruct (own_album (stored s) i (User.id u)) as [a|] eqn:Hown.
    2:{ apply eff_none. apply Hwrap. unfold endpoint; cbn [route access_token].
        intros s' <-. now rewrite (edit_album_missing e s cookie u Huser i f). }
    destruct (commit_fault e) as [m|] eqn:Hfault.
    + apply eff_none. apply Hwrap. unfold endpoint; cbn [route access_token].
      intros s' <-. now rewrite (edit_album_fault e s cookie u Huser i f a m).
    + apply (eff_edit e s _ _ u i f a); try reflexivity; try assumption.
      apply Hwrap. unfold endpoint; cbn [route access_token].
      intros s' <-.
      now rewrite (edit_album_found e s cookie u Huser i f a Hvalid Hfault Hpend
                     (Hok eq_refl) Hown).
  - (* delete *)
    destruct user as [u|].
    2:{ apply eff_none. apply Hwrap. unfold endpoint; cbn [route access_token].
        intros s' <-. unfold delete_album_endpoint, bind. now rewrite Huser. }
    destruct (own_album (stored s) i (User.id u)) as [a|] eqn:Hown.
    2:{ apply eff_none. apply Hwrap. unfold endpoint; cbn [route access_token].
        intros s' <-. now rewrite (delete_endpoint_missing e s cookie u Huser i). }
    destruct (commit_fault e) as [m|] eqn:Hfault.
    + apply eff_none. apply Hwrap. unfold endpoint; cbn [route access_token].
      intros s' <-. now rewrite (delete_endpoint_fault e s cookie u Huser i a m).
    + apply (eff_delete e s _ _ u i a); try reflexivity; try assumption.
      apply Hwrap. unfold endpoint; cbn [route access_token].
      intros s' <-. now rewrite (delete_endpoint_found e s cookie u Huser i a).
Qed.

End Effects.

(* ================================================================== *)
(** * Unexpected failures *)
(* ================================================================== *)


(* ================================================================== *)
(** * Ownership along a history *)
(* ================================================================== *)

Lemma constraints_iff (t : Tables) :
  constraints_hold t = true <->
  NoDup (map Album.id (albums t)) /\
  forall a, In a (albums t) ->
            Db.is_null (Album.title a) = false /\ Db.is_null (Album.artist a) = false.
Proof.
  unfold constraints_hold.
  rewrite andb_true_iff, distinct_NoDup, forallb_forall.
  split; intros [Hnd H]; split; auto; intros a Hin; specialize (H a Hin).
  - apply andb_true_iff in H. now rewrite !negb_true_iff in H.
  - apply andb_true_iff. now rewrite !negb_true_iff.
Qed.

Lemma keys_with_row (album_id : Z) (a' : Album.t) (t : Tables) :
  Album.id a' = album_id ->
  map Album.id (albums (with_row album_id a' t)) = map Album.id (albums t).
Proof.
  intros Hid. unfold with_row. simpl. rewrite map_map. apply map_ext.
  intros r. destruct (Album.id r =? album_id) eqn:E; [|reflexivity].
  apply Z.eqb_eq in E. congruence.
Qed.

Lemma in_with_row (album_id : Z) (a' : Album.t) (t : Tables) (x : Album.t) :
  In x (albums (with_row album_id a' t)) ->
  (In x (albums t) /\ Album.id x <> album_id) \/
  (x = a' /\ exists r, In r (albums t) /\ Album.id r = album_id).
Proof.
  unfold with_row. simpl. intros H. apply in_map_iff in H.
  destruct H as (r & Hx & Hr). destruct (Album.id r =? album_id) eqn:E.
  - right. apply Z.eqb_eq in E. split; [congruence | now exists r].
  - left. apply Z.eqb_neq in E. subst. tauto.
Qed.

Lemma constraints_with_row (album_id : Z) (a' : Album.t) (t : Tables) :
  constraints_hold t = true -> Album.id a' = album_id ->
  Db.is_null (Album.title a') = false -> Db.is_null (Album.artist a') = false ->
  constraints_hold (with_row album_id a' t) = true.
Proof.
  rewrite !constraints_iff. intros [Hnd Hnn] Hid Ht Ha.
  rewrite keys_with_row by assumption. split; [exact Hnd|].
  intros x Hx. apply in_with_row in Hx.
  destruct Hx as [[Hx _]|[-> _]]; auto.
Qed.

Lemma NoDup_map_filter (p : Album.t -> bool) (l : list Album.t) :
  NoDup (map Album.id l) -> NoDup (map Album.id (filter p l)).
Proof.
  induction l as [|x l IH]; simpl; intros H; [constructor|].
  apply NoDup_cons_iff in H. destruct H as [Hx Hl].
  destruct (p x); simpl; auto. constructor; auto.
  intros Hin. apply Hx. apply in_map_iff in Hin. destruct Hin as (y & Hy & Hin).
  apply filter_In in Hin. rewrite <- Hy. apply in_map. tauto.
Qed.

Lemma constraints_without_row (album_id : Z) (t : Tables) :
  constraints_hold t = true -> constraints_hold (without_row album_id t) = true.
Proof.
  rewrite !constraints_iff. intros [Hnd Hnn]. split.
  - now apply NoDup_map_filter.
  - intros a Ha. apply without_row_others in Ha. now apply Hnn.
Qed.

Lemma constraints_with_new_row (key now user_id : Z) (f : AlbumForm) (t : Tables) :
  constraints_hold t = true -> key = Db.next_key (map Album.id (albums t)) ->
  constraints_hold (with_new_row (created_row key now user_id f) t) = true.
Proof.
  rewrite !constraints_iff. intros [Hnd Hnn] Hkey. unfold with_new_row. simpl. split.
  - rewrite map_app. simpl. apply NoDup_app; [exact Hnd | repeat constructor; auto |].
    intros i Hi [<-|[]]. apply next_key_above in Hi. lia.
  - intros a Ha. apply in_app_or in Ha. destruct Ha as [Ha|[<-|[]]]; auto.
Qed.

Section HistoryFacts.

Variable like_escape : option ascii.

Lemma requester_of (e : Env) (w : World) (r : Request) (u : User.t) :
  authenticated (access_token r) e (open_session w) u ->
  requester e w r = Some (User.id u).
Proof. unfold authenticated, requester. now intros ->. Qed.

Lemma serve_tables (e : Env) (w : World) (r : Request) :
  tables (snd (serve like_escape e w r)) =
  stored (snd (app like_escape r e (open_session w))).
Proof.
  unfold serve. now destruct (app like_escape r e (open_session w)) as [[x|resp] s'].
Qed.

Lemma serve_effect (e : Env) (w : World) (r : Request) :
  constraints_hold (tables w) = true ->
  effect e (open_session w) r (tables (snd (serve like_escape e w r))).
Proof.
  intros Hok. rewrite serve_tables. now apply endpoint_effect.
Qed.

(** No request changes the owner of a stored album. *)
Lemma serve_keeps_owner (e : Env) (w : World) (r : Request) (a a' : Album.t) :
  constraints_hold (tables w) = true ->
  In a (albums (tables w)) ->
  In a' (albums (tables (snd (serve like_escape e w r)))) ->
  Album.id a' = Album.id a -> Album.owner_id a' = Album.owner_id a.
Proof.
  intros Hok Ha Ha' Hid.
  pose proof (constraints_keys _ Hok) as Hnd.
  destruct (serve_effect e w r Hok)
    as [H|? ? ? ? _ _ H|u f _ _ _ H|u i f a0 _ _ _ Hown H|u i a0 _ _ _ _ H];
    simpl in H.
  - rewrite H in Ha'. f_equal. eapply same_key_same_row; eauto.
  - rewrite H in Ha'. f_equal. eapply same_key_same_row; eauto.
  - rewrite H in Ha'. unfold with_new_row in Ha'. simpl in Ha'.
    apply in_app_or in Ha'. destruct Ha' as [Ha'|[<-|[]]].
    + f_equal. eapply same_key_same_row; eauto.
    + exfalso. simpl in Hid. apply (in_map Album.id) in Ha.
      apply next_key_above in Ha. lia.
  - rewrite H in Ha'. apply in_with_row in Ha'.
    destruct (own_album_found _ _ _ _ Hown) as (Hin0 & Hid0 & _).
    destruct Ha' as [[Ha' _]|[-> _]].
    + f_equal. eapply same_key_same_row; eauto.
    + simpl in *. f_equal. eapply same_key_same_row; eauto.
  - rewrite H in Ha'. apply without_row_others in Ha'.
    f_equal. eapply same_key_same_row; eauto. tauto.
Qed.

(** Only a creation request brings a new key into the table, and the
    row it brings belongs to the requester. *)
Lemma serve_new_key (e : Env) (w : World) (r : Request) (a' : Album.t) :
  constraints_hold (tables w) = true ->
  In a' (albums (tables (snd (serve like_escape e w r)))) ->
  ~ In (Album.id a') (album_keys w) ->
  (exists f, route r = POST_albums_new f) /\
  Album.owner_id a' = requester e w r /\ requester e w r <> None.
Proof.
  intros Hok Ha' Hnew. unfold album_keys in Hnew.
  destruct (serve_effect e w r Hok)
    as [H|? ? ? ? _ _ H|u f Hr _ Hauth H|u i f a0 _ _ _ Hown H|u i a0 _ _ _ _ H];
    simpl in H.
  - exfalso. apply Hnew. rewrite H in Ha'. now apply in_map.
  - exfalso. apply Hnew. rewrite H in Ha'. now apply in_map.
  - rewrite H in Ha'. unfold with_new_row in Ha'. simpl in Ha'.
    apply in_app_or in Ha'. destruct Ha' as [Ha'|[<-|[]]].
    + exfalso. apply Hnew. now apply in_map.
    + rewrite (requester_of e w r u Hauth). simpl.
      split; [now exists f | split; [reflexivity | discriminate]].
  - exfalso. apply Hnew. apply (in_map Album.id) in Ha'.
    destruct (own_album_found _ _ _ _ Hown) as (_ & Hid0 & _).
    rewrite H, keys_with_row in Ha'; [exact Ha' | exact Hid0].
  - exfalso. apply Hnew. rewrite H in Ha'. apply without_row_others in Ha'.
    apply in_map. tauto.
Qed.

Lemma serve_constraints (e : Env) (w : World) (r : Request) :
  constraints_hold (tables w) = true ->
  constraints_hold (tables (snd (serve like_escape e w r))) = true.
Proof.
  intros Hok.
  destruct (serve_effect e w r Hok)
    as [H|? ? ? ? _ _ H|u f _ _ _ H|u i f a0 _ _ _ Hown H|u i a0 _ _ _ _ H];
    simpl in H.
  - now rewrite H.
  - unfold constraints_hold in *. now rewrite H.
  - rewrite H. now apply constraints_with_new_row.
  - rewrite H. destruct (own_album_found _ _ _ _ Hown) as (_ & Hid0 & _).
    now apply constraints_with_row.
  - rewrite H. now apply constraints_without_row.
Qed.

Lemma mem_iff (i : Z) (l : list Z) : mem i l = true <-> In i l.
Proof. apply mem_In. Qed.

(** One step of a history keeps the record of creators right. *)
Lemma step_invariant (w : World) (c : creators) (e : Env) (r : Request) :
  constraints_hold (tables w) = true -> owners_recorded w c ->
  constraints_hold (tables (fst (step like_escape (w, c) (e, r)))) = true /\
  owners_recorded (fst (step like_escape (w, c) (e, r)))
                  (snd (step like_escape (w, c) (e, r))).
Proof.
  intros Hok Hrec. simpl. split; [now apply serve_constraints|].
  intros a' Ha'. unfold album_keys.
  destruct (mem (Album.id a') (map Album.id (albums (tables w)))) eqn:Hold.
  - rewrite andb_false_r. apply mem_iff in Hold. apply in_map_iff in Hold.
    destruct Hold as (a & Hid & Ha).
    rewrite (serve_keeps_owner e w r a a' Hok Ha Ha' (eq_sym Hid)), <- Hid.
    now apply Hrec.
  - assert (Hin : mem (Album.id a')
                      (map Album.id (albums (tables (snd (serve like_escape e w r)))))
                  = true) by (apply mem_iff; now apply in_map).
    rewrite Hin. simpl.
    assert (Hnew : ~ In (Album.id a') (album_keys w)).
    { unfold album_keys. rewrite <- mem_iff. congruence. }
    destruct (serve_new_key e w r a' Hok Ha' Hnew) as (_ & Hown & Hsome).
    split; congruence.
Qed.

Lemma run_invariant (history : list (Env * Request)) :
  constraints_hold (tables (fst (run like_escape history))) = true /\
  owners_recorded (fst (run like_escape history)) (snd (run like_escape history)).
Proof.
  unfold run. induction history as [|[e r] h IH] using rev_ind.
  - simpl. split; [reflexivity | intros a []].
  - rewrite fold_left_app. simpl fold_left.
    destruct (fold_left (step like_escape) h (empty_world, fun _ => None)) as [w c].
    destruct IH as [Hok Hrec]. now apply step_invariant.
Qed.

End HistoryFacts.

(* ================================================================== *)
(** * Search *)
(* ================================================================== *)

Module LikeFacts.
Import Sql.

Section Escape.

Variable esc : option ascii.
Hypothesis percent_plain : esc <> Some "%"%char.

Lemma percent_not_escape : is_escape esc "%" = false.
Proof.
  unfold is_escape. destruct esc as [c|]; [|reflexivity].
  apply Ascii.eqb_neq. congruence.
Qed.

Lemma like_percent (p s : text) :
  like esc ("%"%char :: p) s =
  like esc p s || match s with
                  | [] => false
                  | _ :: s' => like esc ("%"%char :: p) s'
                  end.
Proof.
  cbn [like]. rewrite percent_not_escape. cbn [Ascii.eqb Bool.eqb].
  now destruct s.
Qed.

(** A leading ["%"] lets the rest of the pattern start anywhere. *)
Lemma like_percent_iff (p s : text) :
  like esc ("%"%char :: p) s = true <->
  exists a b, s = a ++ b /\ like esc p b = true.
Proof.
  induction s as [|d s IH]; rewrite like_percent, orb_true_iff.
  - split.
    + intros [H|H]; [now exists [], [] | discriminate].
    + intros (a & b & Hs & H). symmetry in Hs. apply app_eq_nil in Hs.
      destruct Hs as [-> ->]. now left.
  - rewrite IH. split.
    + intros [H|(a & b & -> & H)]; [now exists [], (d :: s)|].
      now exists (d :: a), b.
    + intros (a & b & Hs & H). destruct a as [|x a]; simpl in Hs.
      * left. now subst.
      * right. injection Hs as -> ->. now exists a, b.
Qed.

Lemma like_percent_only (s : text) : like esc ["%"%char] s = true.
Proof.
  apply like_percent_iff. exists s, []. split; [now rewrite app_nil_r | reflexivity].
Qed.

Lemma like_plain (c : ascii) (p s : text) :
  plain esc c ->
  like esc (c :: p) s =
  match s with
  | [] => false
  | d :: s' => Ascii.eqb c d && like esc p s'
  end.
Proof.
  intros (Hp & Hu & He). cbn [like].
  assert (E1 : is_escape esc c = false).
  { unfold is_escape. destruct esc as [x|]; [|reflexivity].
    apply Ascii.eqb_neq. congruence. }
  rewrite E1.
  apply Ascii.eqb_neq in Hp, Hu. rewrite Hp, Hu. reflexivity.
Qed.

(** A run of plain characters matches itself and nothing else. *)
Lemma like_plain_prefix (q p s : text) :
  Forall (plain esc) q ->
  like esc (q ++ p) s = true <-> exists b, s = q ++ b /\ like esc p b = true.
Proof.
  intros Hq. revert s. induction Hq as [|c q Hc Hq IH]; intros s.
  - split; [intros H; now exists s | intros (b & -> & H); exact H].
  - rewrite <- app_comm_cons, (like_plain c (q ++ p) s Hc). destruct s as [|d s].
    + split; [discriminate | intros (b & H & _); discriminate].
    + rewrite andb_true_iff, Ascii.eqb_eq, IH. split.
      * intros (-> & b & -> & H). now exists b.
      * intros (b & Hs & H). injection Hs as -> ->. split; [reflexivity | now exists b].
Qed.

(** The pattern ["%" ++ q ++ "%"] with a plain [q] is a substring
    test. *)
Lemma like_contains (q s : text) :
  Forall (plain esc) q ->
  like esc ("%"%char :: q ++ ["%"%char]) s = true <-> substring q s.
Proof.
  intros Hq. rewrite like_percent_iff. unfold substring. split.
  - intros (a & b & -> & H). apply (like_plain_prefix q _ b Hq) in H.
    destruct H as (c & -> & _). now exists a, c.
  - intros (a & b & ->). exists a, (q ++ b). split; [reflexivity|].
    apply (like_plain_prefix q _ _ Hq). exists b. split; [reflexivity|].
    apply like_percent_only.
Qed.

End Escape.

Lemma is_true_some (b : bool) : is_true (Some b) = b.
Proof. now destruct b. Qed.

Lemma lower_pattern (query : text) :
  Text.lower (contains_pattern query) = "%"%char :: Text.lower query ++ ["%"%char].
Proof.
  unfold contains_pattern, Text.lower. simpl. now rewrite map_app.
Qed.

(** On a plain query the case-insensitive pattern match of a column
    is the specification's "occurs in, letter case aside". *)
Lemma ilike_contains (esc : option ascii) (c : option text) (query : text) :
  esc <> Some "%"%char -> literal esc query ->
  is_true (ilike esc c (contains_pattern query)) = true <-> contains_ci c query.
Proof.
  intros Hesc Hlit. unfold ilike, contains_ci. destruct c as [s|].
  - rewrite lower_pattern, is_true_some, (like_contains esc Hesc _ _ Hlit).
    split; [intros H; now exists s | now intros (s' & [= <-] & H)].
  - split; [discriminate | intros (s & H & _); discriminate].
Qed.

Lemma or3_true (a b : tv) :
  is_true (or3 a b) = is_true a || is_true b.
Proof. destruct a as [[|]|], b as [[|]|]; reflexivity. Qed.

Lemma and3_true (a b : tv) :
  is_true (and3 a b) = is_true a && is_true b.
Proof. destruct a as [[|]|], b as [[|]|]; reflexivity. Qed.

End LikeFacts.

(** On a query without pattern characters, [search_albums] returns
    the user's albums that mention the query, in table order. *)
Lemma search_albums_literal (esc : option ascii) (user_id : Z) (query : text)
    (e : Env) (s : State) :
  esc <> Some "%"%char -> literal esc query ->
  exists found,
    search_albums esc user_id query e s = (inr found, s) /\
    forall a, In a found <->
              In a (albums (stored s)) /\ owned_by user_id a /\ mentions a query.
Proof.
  intros Hesc Hlit. unfold search_albums, bind, ret, Db.query_albums.
  cbv beta iota zeta. eexists. split; [reflexivity|].
  intros a. rewrite filter_In.
  rewrite LikeFacts.and3_true, !LikeFacts.or3_true, owner_filter.
  rewrite andb_true_iff, !orb_true_iff, is_owner_iff.
  rewrite !(LikeFacts.ilike_contains esc _ query Hesc Hlit).
  unfold mentions. tauto.
Qed.

Lemma substring_chars (q s : text) (c : ascii) :
  substring q s -> In c q -> In c s.
Proof.
  intros (a & b & ->) H. apply in_or_app. right. apply in_or_app. now left.
Qed.

(* ================================================================== *)
(** * The claims *)
(* ================================================================== *)

(** C1, as amended: for a logged-in user [u] and a key, within the
    range of integers the database binds, under which [u] owns no
    album (the album of another user included), the data-access
    functions [get_album_by_id], [update_album] and [delete_album]
    raise the 404 exception and leave the state as it was; the detail
    page answers 404, the edit route answers 404 when its form passes
    validation (422 otherwise), and the delete route writes the
    exception to the log and answers with a redirect (303) to the
    albums page; the stored tables are unchanged in every case, and
    apart from that one line of the log so is the whole state.  When
    [u] owns an album of that key (and the commit goes through),
    fetching shows that album, editing with a valid form rewrites
    that row, deleting removes that row and no other. *)
Theorem C1_owner_scoped_access (e : Env) (s : State) (cookie : option text)
    (u : User.t) (album_id : Z) :
  authenticated cookie e s u -> sql_integer album_id ->
  ((~ exists a, In a (albums (stored s)) /\ Album.id a = album_id
                /\ owned_by (User.id u) a) ->
   get_album_by_id album_id (User.id u) e s =
     (inl (HTTPException 404 Msg.album_not_found), s) /\
   (forall album_data,
       update_album album_id (User.id u) album_data e s =
         (inl (HTTPException 404 Msg.album_not_found), s)) /\
   delete_album album_id (User.id u) e s =
     (inl (HTTPException 404 Msg.album_not_found), s) /\
   album_detail_page cookie album_id e s =
     (inr (TemplateResponse "error.html"
             (error_context Msg.album_not_found 404) 404), s) /\
   (forall f, valid_form e f ->
       edit_album cookie album_id f e s =
         (inr (TemplateResponse "error.html"
                 (error_context Msg.album_not_found 404) 404), s)) /\
   (forall f, ~ valid_form e f ->
       exists r, edit_album cookie album_id f e s = (inr r, s) /\ status_of r = 422) /\
   delete_album_endpoint cookie album_id e s =
     (inr (RedirectResponse "/albums" 303 []),
      mkState (stored s) (pending s)
              (log s ++ [Msg.log_delete
                         ++ str_exn (HTTPException 404 Msg.album_not_found)])))
  /\
  (forall a,
      In a (albums (stored s)) -> Album.id a = album_id -> owned_by (User.id u) a ->
      commit_fault e = None -> pending s = [] -> constraints_hold (stored s) = true ->
      get_album_by_id album_id (User.id u) e s = (inr a, s) /\
      album_detail_page cookie album_id e s =
        (inr (TemplateResponse "album_detail.html"
                (mkContext None None (Some u) None None (album_row a)
                           (Some (T "edit"))) 200), s) /\
      (forall f, valid_form e f ->
          edit_album cookie album_id f e s =
            (inr (RedirectResponse (album_url album_id) 303 []),
             mkState (with_row album_id (edited_row a f) (stored s)) [] (log s))) /\
      delete_album_endpoint cookie album_id e s =
        (inr (RedirectResponse "/albums" 303 []),
         mkState (without_row album_id (stored s)) [] (log s)) /\
      (forall r, In r (albums (without_row album_id (stored s))) <->
                 In r (albums (stored s)) /\ r <> a)).
Proof.
  intros Hauth _. split.
  - intros Hnone. apply own_album_missing in Hnone.
    destruct (missing_album_run e s _ _ [] Hnone) as (Hget & _ & Hdel).
    repeat match goal with |- _ /\ _ => split end.
    + exact Hget.
    + intros album_data. now destruct (missing_album_run e s _ _ album_data Hnone) as (_ & ? & _).
    + exact Hdel.
    + now rewrite (album_detail_page_run e s cookie u Hauth), Hnone.
    + intros f Hvalid. now apply (edit_album_missing e s cookie u Hauth).
    + intros f Hinv.
      destruct (edit_album_invalid e s cookie u Hauth album_id f Hinv) as (err & ->).
      eexists. split; reflexivity.
    + now apply (delete_endpoint_missing e s cookie u Hauth).
  - intros a Hin Hid Hown Hfault Hpend Hok.
    pose proof (own_album_the _ _ _ _ Hok Hin Hid Hown) as Hfound.
    repeat match goal with |- _ /\ _ => split end.
    + now rewrite get_album_by_id_run, Hfound.
    + now rewrite (album_detail_page_run e s cookie u Hauth), Hfound.
    + intros f Hvalid. now apply (edit_album_found e s cookie u Hauth).
    + now apply (delete_endpoint_found e s cookie u Hauth album_id a).
    + intros r. rewrite without_row_others. split.
      * intros [Hr Hne]. split; [exact Hr | congruence].
      * intros [Hr Hne]. split; [exact Hr|].
        intros Heq. apply Hne.
        eapply same_key_same_row; eauto using constraints_keys. congruence.
Qed.

(** C1 at work: Bob asks for Alice's album 2 and gets the 404
    page; Alice deletes it and it is gone. *)
Lemma C1_owner_scoped_access_witness :
  album_detail_page Sample.bob_cookie 2 Sample.env Sample.state =
    (inr (TemplateResponse "error.html" (error_context Msg.album_not_found 404) 404),
     Sample.state) /\
  delete_album_endpoint Sample.alice_cookie 2 Sample.env Sample.state =
    (inr (RedirectResponse "/albums" 303 []),
     mkState (without_row 2 Sample.tables) [] []).
Proof.
  assert (Hkey : sql_integer 2) by (unfold sql_integer; lia).
  split.
  - destruct (C1_owner_scoped_access Sample.env Sample.state Sample.bob_cookie
                Sample.bob 2 eq_refl Hkey) as [H _].
    apply H. rewrite <- own_album_missing. reflexivity.
  - destruct (C1_owner_scoped_access Sample.env Sample.state Sample.alice_cookie
                Sample.alice 2 eq_refl Hkey) as [_ H].
    apply (H Sample.kind_of_blue); try reflexivity. simpl. tauto.
Defined.

(** C1, as stated, fails: Alice is logged in, album 1 is Bob's, and
    her request to delete it is answered with a redirect (303) to the
    albums page, not with a 404; the tables are unchanged. *)
Lemma C1_foreign_delete_is_redirected :
  authenticated Sample.alice_cookie Sample.env Sample.state Sample.alice /\
  In Sample.abbey_road (albums Sample.tables) /\
  Album.id Sample.abbey_road = 1 /\
  Album.owner_id Sample.abbey_road = Some (User.id Sample.bob) /\
  own_album Sample.tables 1 (User.id Sample.alice) = None /\
  fst (serve None Sample.env Sample.world
             (mkRequest Sample.alice_cookie (POST_album_delete 1))) =
    Some (RedirectResponse "/albums" 303 []) /\
  tables (snd (serve None Sample.env Sample.world
                     (mkRequest Sample.alice_cookie (POST_album_delete 1)))) =
    Sample.tables /\
  status_of (RedirectResponse "/albums" 303 []) <> 404.
Proof.
  repeat split; try reflexivity.
  - simpl. tauto.
  - discriminate.
Qed.

(** C2: along every history of requests, each stored album has an
    owner, and it is the logged-in user whose request brought the
    album's key into the table; a key enters the table only through
    the creation route, with the requester as owner; no request
    changes the owner of a stored album; and a creation that goes
    through stores its row with the requester as owner. *)
Theorem C2_owner_is_creator (like_escape : option ascii)
    (history : list (Env * Request)) :
  let w := fst (run like_escape history) in
  let created_by := snd (run like_escape history) in
  (forall a, In a (albums (tables w)) ->
             Album.owner_id a = created_by (Album.id a) /\ Album.owner_id a <> None) /\
  (forall e r a',
      In a' (albums (tables (snd (serve like_escape e w r)))) ->
      ~ In (Album.id a') (album_keys w) ->
      (exists f, route r = POST_albums_new f) /\
      Album.owner_id a' = requester e w r /\ requester e w r <> None) /\
  (forall e r a a',
      In a (albums (tables w)) ->
      In a' (albums (tables (snd (serve like_escape e w r)))) ->
      Album.id a' = Album.id a -> Album.owner_id a' = Album.owner_id a) /\
  (forall e s cookie u f,
      authenticated cookie e s u -> valid_form e f ->
      commit_fault e = None -> pending s = [] ->
      exists row,
        create_new_album cookie f e s =
          (inr (RedirectResponse (album_url (Album.id row)) 303 []),
           mkState (with_new_row row (stored s)) [] (log s)) /\
        Album.owner_id row = Some (User.id u)).
Proof.
  intros w created_by.
  destruct (run_invariant like_escape history) as [Hok Hrec].
  split; [exact Hrec | split; [|split]].
  - intros e r a'. now apply serve_new_key.
  - intros e r a a'. now apply serve_keeps_owner.
  - intros e s cookie u f Hauth Hvalid Hfault Hpend.
    exists (created_row (Db.next_key (map Album.id (albums (stored s))))
                        (utcnow e) (User.id u) f).
    split; [|reflexivity].
    apply (create_new_album_run e s cookie u Hauth f Hvalid Hfault Hpend).
Qed.

(** C2 at work: after Alice has registered and added an album, the
    album's owner is the creator recorded for its key. *)
Lemma C2_owner_is_creator_witness :
  let a := created_row 1 1000 1 Sample.form in
  Album.owner_id a = snd (run None Sample.history) (Album.id a) /\
  Album.owner_id a <> None.
Proof.
  apply (proj1 (C2_owner_is_creator None Sample.history)).
  vm_compute. now left.
Defined.

(** C3, on the code: the query ["_"] returns both of Alice's albums,
    neither of which has an underscore in its title, artist or
    genre; the underscore of the query is read as the pattern
    character that stands for any one character (with no escape
    character and with the backslash as escape character alike). *)
Theorem C3_underscore_matches_everything :
  search_albums None 1 "_" Sample.env Sample.state =
    (inr [Sample.kind_of_blue; Sample.blue_train], Sample.state) /\
  search_albums (Some "\"%char) 1 "_" Sample.env Sample.state =
    (inr [Sample.kind_of_blue; Sample.blue_train], Sample.state) /\
  ~ mentions Sample.kind_of_blue "_" /\ ~ mentions Sample.blue_train "_".
Proof.
  assert (Hno : forall c, (forall s, c = Some s -> ~ In "_"%char (Text.lower s)) ->
                          ~ contains_ci c "_").
  { intros c H (s & Hc & Hsub). apply (H s Hc).
    apply (substring_chars _ _ "_"%char Hsub). now left. }
  repeat split; try reflexivity.
  - intros [H|[H|H]]; revert H; apply Hno; intros s [= <-]; vm_compute; intuition discriminate.
  - intros [H|[H|H]]; revert H; apply Hno; intros s Hs; try discriminate;
      injection Hs as <-; vm_compute; intuition discriminate.
Qed.

(** C4: the listing of a user's albums is a window of [limit] entries,
    [skip] entries in, of that user's albums put newest first by
    creation time; [skip] defaults to 0 and [limit] to 100, and these
    are what the albums page asks for. *)
Theorem C4_listing_newest_first (e : Env) (s : State) (user_id : Z) (skip limit : nat) :
  exists newest_first,
    Permutation newest_first (albums_of user_id (stored s)) /\
    (forall a, In a newest_first <-> In a (albums (stored s)) /\ owned_by user_id a) /\
    StronglySorted ge_created newest_first /\
    get_albums user_id skip limit e s =
      (inr (firstn limit (skipn skip newest_first)), s) /\
    StronglySorted ge_created (firstn limit (skipn skip newest_first)) /\
    default_skip = 0%nat /\ default_limit = 100%nat /\
    (forall esc cookie u,
        authenticated cookie e s u -> User.id u = user_id ->
        albums_page esc cookie None e s =
          (inr (TemplateResponse "albums.html"
                  (mkContext None None (Some u)
                             (Some (firstn 100 newest_first)) (Some [])
                             no_album None) 200), s)).
Proof.
  exists (Sql.order_by_created_at_desc (albums_of user_id (stored s))).
  pose proof (SortFacts.order_by_perm (albums_of user_id (stored s))) as Hperm.
  pose proof (SortFacts.order_by_sorted (albums_of user_id (stored s))) as Hsort.
  repeat match goal with |- _ /\ _ => split end; try reflexivity; try assumption.
  - intros a. split.
    + intros H. eapply Permutation_in in H; [|exact Hperm].
      unfold albums_of in H. apply filter_In in H. now rewrite <- is_owner_iff.
    + intros [Hin Hown]. eapply Permutation_in; [symmetry; exact Hperm|].
      apply filter_In. now rewrite is_owner_iff.
  - apply get_albums_run.
  - now apply SortFacts.sorted_firstn, SortFacts.sorted_skipn.
  - intros esc cookie u Hauth <-. unfold albums_page, bind.
    rewrite Hauth, get_albums_run. reflexivity.
Qed.

(** C4 at work: Alice's albums page lists her two albums, the newer
    first. *)
Lemma C4_listing_newest_first_witness :
  albums_page None Sample.alice_cookie None Sample.env Sample.state =
  (inr (TemplateResponse "albums.html"
          (mkContext None None (Some Sample.alice)
                     (Some [Sample.blue_train; Sample.kind_of_blue]) (Some [])
                     no_album None) 200), Sample.state).
Proof.
  destruct (C4_listing_newest_first Sample.env Sample.state 1 0 100)
    as (l & _ & _ & _ & Hget & _ & _ & _ & Hpage).
  rewrite (Hpage None Sample.alice_cookie Sample.alice); [|reflexivity|reflexivity].
  assert (Hrun : get_albums 1 0 100 Sample.env Sample.state =
                 (inr [Sample.blue_train; Sample.kind_of_blue], Sample.state))
    by reflexivity.
  rewrite Hrun in Hget.
  assert (Hl : [Sample.blue_train; Sample.kind_of_blue] = firstn 100 l)
    by (change l with (skipn 0 l); congruence).
  now rewrite <- Hl.
Defined.

(** C5: a successful edit leaves every column for which the
    submitted data holds no value other than [None] as it was stored,
    and writes the submitted non-null values; the other rows are not
    touched.  The edit route does this with the dictionary of its
    form. *)
Theorem C5_edit_keeps_unsubmitted (e : Env) (s : State) (album_id user_id : Z)
    (album_data : list kwarg) (a : Album.t) :
  commit_fault e = None -> pending s = [] ->
  constraints_hold (stored s) = true ->
  own_album (stored s) album_id user_id = Some a ->
  exists a',
    update_album album_id user_id album_data e s =
      (inr a', mkState (with_row album_id a' (stored s)) [] (log s)) /\
    In a' (albums (with_row album_id a' (stored s))) /\
    (forall c,
        (forall k, In k album_data -> kw_column k = c -> is_none k = true) ->
        Album.get c a' = Album.get c a) /\
    (forall k,
        In k album_data -> is_none k = false ->
        (forall k', In k' album_data -> kw_column k' = kw_column k -> k' = k) ->
        Album.get (kw_column k) a' = kw_value k) /\
    (forall r,
        In r (albums (stored s)) -> Album.id r <> album_id ->
        In r (albums (with_row album_id a' (stored s)))) /\
    (forall cookie u f,
        authenticated cookie e s u -> User.id u = user_id -> valid_form e f ->
        edit_album cookie album_id f e s =
          (inr (RedirectResponse (album_url album_id) 303 []),
           mkState (with_row album_id (set_given a (form_album_data f)) (stored s))
                   [] (log s))).
Proof.
  intros Hfault Hpend Hok Hown. exists (set_given a album_data).
  destruct (own_album_found _ _ _ _ Hown) as (Hin & Hid & _).
  split; [now apply update_album_run|]. split; [|split; [|split; [|split]]].
  - unfold with_row. simpl. apply in_map_iff. exists a.
    now rewrite Hid, Z.eqb_refl.
  - intros c H. now rewrite set_given_get, last_given_none.
  - intros k Hk Hn Huniq. now rewrite set_given_get, (@last_given_some k album_data).
  - intros r Hr Hne. unfold with_row. simpl. apply in_map_iff. exists r.
    apply Z.eqb_neq in Hne. now rewrite Hne.
  - intros cookie u f Hauth Hu Hvalid. subst user_id.
    rewrite (edit_album_found e s cookie u Hauth album_id f a Hvalid Hfault Hpend
               Hok Hown).
    now rewrite <- form_edit, set_given_drop_none.
Qed.

(** C5 at work: an edit that gives a title, [None] for the genre
    and a note keeps genre and artist and stores the note. *)
Lemma C5_edit_keeps_unsubmitted_witness :
  exists a',
    update_album 2 1 [kw_title (Some (T "Kind Of Blue")); kw_genre None;
                      kw_notes (Some (T "mono"))] Sample.env Sample.state =
      (inr a', mkState (with_row 2 a' Sample.tables) [] []) /\
    Album.genre a' = Some (T "Jazz") /\ Album.artist a' = Some (T "Miles Davis") /\
    Album.notes a' = Some (T "mono").
Proof.
  destruct (@C5_edit_keeps_unsubmitted Sample.env Sample.state 2 1
              [kw_title (Some (T "Kind Of Blue")); kw_genre None;
               kw_notes (Some (T "mono"))] Sample.kind_of_blue)
    as (a' & Hrun & _ & Hkeep & Hset & _ & _); try reflexivity.
  exists a'. split; [exact Hrun|].
  pose proof (Hkeep Album.c_genre) as Hg.
  pose proof (Hkeep Album.c_artist) as Ha.
  pose proof (Hset (kw_notes (Some (T "mono")))) as Hn.
  simpl in Hg, Ha, Hn.
  split; [|split].
  - assert (G : Album.Str (Album.genre a') = Album.Str (Some (T "Jazz"))).
    { apply Hg. intros k [<-|[<-|[<-|[]]]]; try discriminate. reflexivity. }
    congruence.
  - assert (G : Album.Str (Album.artist a') = Album.Str (Some (T "Miles Davis"))).
    { apply Ha. intros k [<-|[<-|[<-|[]]]]; discriminate. }
    congruence.
  - assert (G : Album.Str (Album.notes a') = Album.Str (Some (T "mono"))).
    { apply Hn; [tauto | reflexivity |].
      intros k [<-|[<-|[<-|[]]]]; try discriminate. reflexivity. }
    congruence.
Defined.

(** C6, as amended: registration validation reports the email rule
    exactly when the email has no ["@"] or no ["."] after its last
    ["@"], the user-name rule exactly when the length is below 3 or
    above 50, the password rule exactly when the length is below 6 or
    above 72, and the confirmation rule exactly when the two
    passwords differ; every violated rule has its entry in the
    returned list, and the list is empty exactly when no rule is
    violated (lengths 3, 50, 6 and 72 included). *)
Theorem C6_registration_rules (email username password confirm_password : text) :
  let errors := validate_user_registration email username password confirm_password in
  (In Msg.bad_email errors <-> ~ dot_after_last_at email) /\
  (In Msg.username_short errors <-> Text.len username < 3) /\
  (In Msg.username_long errors <-> Text.len username > 50) /\
  (In Msg.password_short errors <-> Text.len password < 6) /\
  (In Msg.password_long errors <-> Text.len password > 72) /\
  (In Msg.password_mismatch errors <-> password <> confirm_password) /\
  (errors = [] <->
     dot_after_last_at email /\ 3 <= Text.len username <= 50 /\
     6 <= Text.len password <= 72 /\ password = confirm_password).
Proof.
  intros errors. subst errors. rewrite registration_errors.
  pose proof (email_test email) as Hemail.
  destruct (Text.falsy email || _ || _) eqn:E1;
    [ assert (Hmail : ~ dot_after_last_at email) by (rewrite <- Hemail; discriminate)
    | assert (Hmail : dot_after_last_at email) by (now apply Hemail) ];
    clear Hemail E1.
  all: destruct (Text.len username <? 3) eqn:E2;
       [| destruct (Text.len username >? 50) eqn:E3];
       (destruct (Text.len password <? 6) eqn:E4;
        [| destruct (Text.len password >? 72) eqn:E5]);
       destruct (Text.eqb password confirm_password) eqn:E6.
  all: bool_to_prop; bool_to_prop.
  all: repeat match goal with |- _ /\ _ => split end.
  all: split; intros H.
  all: try (simpl; tauto).
  all: try lia.
  all: try congruence.
  all: try (exfalso; in_messages; fail).
  all: try (exfalso; simpl in H; discriminate H).
  all: try (simpl; intuition congruence).
  all: try (exfalso; simpl in H; intuition (congruence || lia)).
Qed.

(** C6, as stated, fails: this address has an ["@"] with a ["."]
    after it, the lengths are in range and the passwords agree, yet
    the input is rejected, since the ["."] does not come after the
    last ["@"]. *)
Lemma C6_dot_before_last_at :
  at_then_dot "a@b.c@d" /\
  3 <= Text.len "abc" <= 50 /\ 6 <= Text.len "secret" <= 72 /\
  validate_user_registration "a@b.c@d" "abc" "secret" "secret" = [Msg.bad_email].
Proof.
  split; [| split; [| split]].
  - exists (T "a"), (T "b"), (T "c@d"). reflexivity.
  - vm_compute. split; discriminate.
  - vm_compute. split; discriminate.
  - reflexivity.
Qed.

(** C7: album validation rejects its input exactly when the title is
    missing, blank or longer than 200 characters, or the artist is
    missing, blank or longer than 100 characters, or a release year
    is given that lies outside 1900 .. current year; a title of 200
    characters, an artist of 100 characters and the years 1900 and
    current year are accepted (the clock being past 1900). *)
Theorem C7_album_rules (current_year : Z) (title artist : option text)
    (release_year : option Z) :
  (validate_album_data current_year title artist release_year <> [] <->
     field_rejected 200 title \/ field_rejected 100 artist \/
     year_rejected current_year release_year) /\
  (forall t a y,
      ~ blank t -> Text.len t = 200 -> ~ blank a -> Text.len a = 100 ->
      1900 <= current_year -> y = 1900 \/ y = current_year ->
      validate_album_data current_year (Some t) (Some a) (Some y) = []).
Proof.
  assert (Hiff : forall ti ar ry,
             validate_album_data current_year ti ar ry <> [] <->
             field_rejected 200 ti \/ field_rejected 100 ar \/
             year_rejected current_year ry).
  { intros ti ar ry. rewrite album_errors.
    rewrite <- !field_test. unfold year_rejected.
    destruct (missing_or_blank ti); [| destruct (longer_than 200 ti)];
      (destruct (missing_or_blank ar); [| destruct (longer_than 100 ar)]);
      simpl; try (split; [intros _; tauto | intros _; discriminate]).
    destruct ry as [y|].
    - destruct ((y <? 1900) || (y >? current_year)) eqn:E.
      + apply orb_true_iff in E. rewrite Z.gtb_ltb, !Z.ltb_lt in E.
        split; [intros _ | intros _; discriminate].
        right. right. exists y. split; [reflexivity | lia].
      + apply orb_false_iff in E. rewrite Z.gtb_ltb, !Z.ltb_ge in E.
        split; [congruence |].
        intros [H|[H|(y' & [= <-] & H)]]; try discriminate. lia.
    - split; [congruence |].
      intros [H|[H|(y' & H & _)]]; discriminate. }
  split; [apply Hiff |].
  intros t a y Hbt Hlt Hba Hla Hcy Hy.
  destruct (validate_album_data current_year (Some t) (Some a) (Some y)) eqn:E;
    [reflexivity | exfalso].
  assert (Hne : validate_album_data current_year (Some t) (Some a) (Some y) <> [])
    by (rewrite E; discriminate).
  apply Hiff in Hne. unfold field_rejected, year_rejected in Hne.
  destruct Hne as [[H|(s & [= <-] & [H|H])]|[[H|(s & [= <-] & [H|H])]|(y' & [= <-] & H)]];
    try discriminate; try tauto; lia.
Qed.

(** C7 at work: a title of 200 characters, an artist of 100 and the
    year 1900 pass. *)
Lemma C7_album_rules_witness :
  validate_album_data 2026 (Some (repeat "a"%char 200)) (Some (repeat "b"%char 100))
                      (Some 1900) = [].
Proof.
  refine (proj2 (C7_album_rules 2026 None None None)
            (repeat "a"%char 200) (repeat "b"%char 100) 1900 _ _ _ _ _ _).
  - intros H. inversion H as [|c l Hc _]. vm_compute in Hc. discriminate.
  - reflexivity.
  - intros H. inversion H as [|c l Hc _]. vm_compute in Hc. discriminate.
  - reflexivity.
  - lia.
  - now left.
Defined.

(** C8: when a user with the given email or the given user name is
    stored, registration is answered with an error page (400 for the
    duplicate, or 422 when the input is invalid as well) and
    [create_user] raises the 400 exception; the state is as it was:
    nothing was added to the session, no commit was attempted and
    nothing was logged, whatever the database would have said to a
    commit. *)
Theorem C8_duplicate_registration (e : Env) (s : State)
    (email username password confirm_password : text) :
  (exists r, In r (users (stored s))
             /\ (User.email r = email \/ User.username r = username)) ->
  (exists error status_code,
      register_user email username password confirm_password e s =
        (inr (register_error error status_code), s) /\
      (status_code = 400 /\ error = Msg.user_exists \/ status_code = 422) /\
      (validate_user_registration email username password confirm_password = [] ->
       status_code = 400)) /\
  create_user email username password e s =
    (inl (HTTPException 400 Msg.user_exists), s).
Proof.
  intros Hdup. destruct (duplicate_found _ _ _ Hdup) as (r' & Hfound). split.
  - unfold register_user.
    destruct (validate_user_registration _ _ _ _) as [|m l].
    + exists Msg.user_exists, 400. unfold bind.
      rewrite duplicate_lookup, Hfound. auto.
    + eexists _, 422. split; [reflexivity|]. split; [now right | discriminate].
  - unfold create_user, bind. now rewrite duplicate_lookup, Hfound.
Qed.

(** C8 at work: Alice's email is taken; [create_user] raises 400
    even under a database that would refuse the commit. *)
Lemma C8_duplicate_registration_witness :
  create_user "alice@example.org" "carol" "secret" Sample.failing_env Sample.state =
  (inl (HTTPException 400 Msg.user_exists), Sample.state).
Proof.
  refine (proj2 (C8_duplicate_registration Sample.failing_env Sample.state
                   "alice@example.org" "carol" "secret" "secret" _)).
  exists Sample.alice. split; [simpl; tauto | now left].
Defined.




(** C10, as amended: on a valid create or edit submission, each of
    genre, record label, country, barcode and notes that is missing
    or empty counts as null: a created album is stored with that
    field null, an edited album keeps the value it had, so that an
    edit never sets such a field back to null; a non-empty
    submission is stored stripped, that is without the white space
    at its two ends, and so are title and artist; the condition is
    stored as submitted (on an edit: when one is submitted). *)
Theorem C10_optional_fields (e : Env) (s : State) (cookie : option text)
    (u : User.t) (f : AlbumForm) :
  authenticated cookie e s u -> valid_form e f ->
  commit_fault e = None -> pending s = [] ->
  (exists row,
      create_new_album cookie f e s =
        (inr (RedirectResponse (album_url (Album.id row)) 303 []),
         mkState (with_new_row row (stored s)) [] (log s)) /\
      Album.title row = Some (Text.strip (f_title f)) /\
      Album.artist row = Some (Text.strip (f_artist f)) /\
      Album.condition row = f_condition f /\
      forall x,
        ((submitted x f = None \/ submitted x f = Some []) -> stored_in x row = None) /\
        (forall v, submitted x f = Some v -> v <> [] ->
                   stored_in x row = Some (Text.strip v)))
  /\
  (forall album_id a,
      constraints_hold (stored s) = true ->
      own_album (stored s) album_id (User.id u) = Some a ->
      exists a',
        edit_album cookie album_id f e s =
          (inr (RedirectResponse (album_url album_id) 303 []),
           mkState (with_row album_id a' (stored s)) [] (log s)) /\
        Album.title a' = Some (Text.strip (f_title f)) /\
        Album.artist a' = Some (Text.strip (f_artist f)) /\
        Album.condition a' = or_keep (f_condition f) (Album.condition a) /\
        forall x,
          ((submitted x f = None \/ submitted x f = Some []) ->
           stored_in x a' = stored_in x a) /\
          (forall v, submitted x f = Some v -> v <> [] ->
                     stored_in x a' = Some (Text.strip v)) /\
          (stored_in x a <> None -> stored_in x a' <> None))
  /\
  (forall v, stripped_of v (Text.strip v)).
Proof.
  intros Hauth Hvalid Hfault Hpend.
  split; [|split; [|exact TextFacts.strip_is_stripped]].
  - exists (created_row (Db.next_key (map Album.id (albums (stored s))))
                        (utcnow e) (User.id u) f).
    split; [apply (create_new_album_run e s cookie u Hauth f Hvalid Hfault Hpend)|].
    do 3 (split; [reflexivity|]).
    intros x. rewrite created_row_stored. apply strip_or_none_cases.
  - intros album_id a Hok Hown. exists (edited_row a f).
    split; [now apply (edit_album_found e s cookie u Hauth)|].
    do 3 (split; [reflexivity|]).
    intros x. rewrite edited_row_stored.
    destruct (strip_or_none_cases (submitted x f)) as [Hnull Hgiven].
    split; [|split].
    + intros H. now rewrite (Hnull H).
    + intros v H1 H2. now rewrite (Hgiven v H1 H2).
    + destruct (strip_or_none (submitted x f)); [discriminate | exact id].
Qed.

(** C10 at work: an edit that submits an empty record label and a
    condition keeps the label null and stores the condition. *)
Lemma C10_optional_fields_witness :
  exists a',
    edit_album Sample.alice_cookie 3 Sample.form Sample.env Sample.state =
      (inr (RedirectResponse (album_url 3) 303 []),
       mkState (with_row 3 a' Sample.tables) [] []) /\
    Album.record_label a' = None /\ Album.condition a' = Some (T "VG+").
Proof.
  destruct (C10_optional_fields Sample.env Sample.state Sample.alice_cookie
              Sample.alice Sample.form eq_refl eq_refl eq_refl eq_refl)
    as (_ & Hedit & _).
  destruct (Hedit 3 Sample.blue_train eq_refl eq_refl)
    as (a' & Hrun & _ & _ & Hcond & Hx).
  exists a'. split; [exact Hrun|]. split.
  - apply (proj1 (Hx RecordLabel)). now right.
  - exact Hcond.
Defined.

(** C10, as stated, fails: the stored genre of "Kind of Blue" is
    "Jazz"; an edit that submits a single space as genre goes
    through and leaves the empty string as genre. *)
Lemma C10_blank_genre_clears :
  Album.genre Sample.kind_of_blue = Some (T "Jazz") /\
  own_album Sample.tables 2 (User.id Sample.alice) = Some Sample.kind_of_blue /\
  f_genre Sample.blank_genre_form = Some (T " ") /\
  exists a',
    edit_album Sample.alice_cookie 2 Sample.blank_genre_form Sample.env Sample.state =
      (inr (RedirectResponse (album_url 2) 303 []),
       mkState (with_row 2 a' Sample.tables) [] []) /\
    Album.genre a' = Some [].
Proof.
  repeat split.
  exists (edited_row Sample.kind_of_blue Sample.blank_genre_form).
  split; vm_compute; reflexivity.
Qed.


(* ================================================================== *)
(** * Further properties: listing and search *)
(* ================================================================== *)

Lemma firstn_plus {A} (n m : nat) (l : list A) :
  firstn (n + m) l = firstn n l ++ firstn m (skipn n l).
Proof.
  revert l. induction n as [|n IH]; intros l; [reflexivity|].
  destruct l as [|x l]; simpl; [now rewrite firstn_nil | now rewrite IH].
Qed.

Lemma skipn_plus {A} (n m : nat) (l : list A) :
  skipn (n + m) l = skipn m (skipn n l).
Proof.
  revert l. induction n as [|n IH]; intros l; [reflexivity|].
  destruct l as [|x l]; simpl; [now rewrite skipn_nil | apply IH].
Qed.

Lemma in_window {A} (skip limit : nat) (l : list A) (a : A) :
  In a (firstn limit (skipn skip l)) -> In a l.
Proof.
  intros H. rewrite <- (firstn_skipn skip l). apply in_or_app. right.
  rewrite <- (firstn_skipn limit (skipn skip l)). apply in_or_app. now left.
Qed.

Lemma search_albums_run (esc : option ascii) (user_id : Z) (query : text)
    (e : Env) (s : State) :
  exists found,
    search_albums esc user_id query e s = (inr found, s) /\
    forall a, In a found -> In a (albums (stored s)) /\ owned_by user_id a.
Proof.
  unfold search_albums, bind, ret, Db.query_albums. cbv beta iota zeta.
  eexists. split; [reflexivity|].
  intros a Ha. apply filter_In in Ha. destruct Ha as [Hin Hp].
  rewrite LikeFacts.and3_true, owner_filter in Hp.
  apply andb_true_iff in Hp. split; [exact Hin | now apply is_owner_iff].
Qed.

(** X1: for a query none of whose characters (case-folded) is a
    pattern character, [search_albums] returns exactly the albums of
    the user whose title, artist or genre holds the query, letter
    case aside, and leaves the state alone. *)
Theorem X1_search_plain_query (esc : option ascii) (user_id : Z) (query : text)
    (e : Env) (s : State) :
  esc <> Some "%"%char -> literal esc query ->
  exists found,
    search_albums esc user_id query e s = (inr found, s) /\
    forall a, In a found <->
              In a (albums (stored s)) /\ owned_by user_id a /\ mentions a query.
Proof. apply search_albums_literal. Qed.

Lemma X1_search_plain_query_witness :
  exists found,
    search_albums None 1 "BLUE" Sample.env Sample.state = (inr found, Sample.state) /\
    forall a, In a found <->
              In a (albums Sample.tables) /\ owned_by 1 a /\ mentions a "BLUE".
Proof.
  apply (X1_search_plain_query None 1 "BLUE" Sample.env Sample.state).
  - discriminate.
  - unfold literal, plain. vm_compute.
    repeat constructor; discriminate.
Defined.

(** X2: whatever the query, pattern characters included, the albums
    page of a logged-in user shows stored albums of that user only,
    echoes the query, and changes nothing. *)
Theorem X2_albums_page_shows_own (esc : option ascii) (cookie : option text)
    (q : option text) (e : Env) (s : State) (u : User.t) :
  authenticated cookie e s u ->
  exists shown,
    albums_page esc cookie q e s =
      (inr (TemplateResponse "albums.html"
              (mkContext None None (Some u) (Some shown)
                         (Some match q with Some t => t | None => [] end)
                         no_album None) 200), s) /\
    forall a, In a shown -> In a (albums (stored s)) /\ owned_by (User.id u) a.
Proof.
  intros Hauth. unfold albums_page, bind. rewrite Hauth.
  assert (Hlist : exists shown,
             get_albums (User.id u) default_skip default_limit e s = (inr shown, s) /\
             forall a, In a shown -> In a (albums (stored s)) /\ owned_by (User.id u) a).
  { rewrite get_albums_run. eexists. split; [reflexivity|].
    intros a Ha. apply in_window in Ha.
    eapply Permutation_in in Ha; [|apply SortFacts.order_by_perm].
    unfold albums_of in Ha. apply filter_In in Ha. now rewrite <- is_owner_iff. }
  destruct q as [t|]; [destruct (Text.falsy t)|].
  - destruct Hlist as (shown & -> & H). now exists shown.
  - destruct (search_albums_run esc (User.id u) t e s) as (shown & -> & H).
    now exists shown.
  - destruct Hlist as (shown & -> & H). now exists shown.
Qed.

Lemma X2_albums_page_shows_own_witness :
  exists shown,
    albums_page None Sample.bob_cookie (Some (T "%")) Sample.env Sample.state =
      (inr (TemplateResponse "albums.html"
              (mkContext None None (Some Sample.bob) (Some shown) (Some (T "%"))
                         no_album None) 200), Sample.state) /\
    forall a, In a shown -> In a (albums Sample.tables) /\ owned_by 2 a.
Proof.
  exact (X2_albums_page_shows_own None Sample.bob_cookie (Some (T "%")) Sample.env
           Sample.state Sample.bob eq_refl).
Defined.

(** Rows with pairwise distinct creation times can be put newest
    first in one way only. *)
Lemma newest_first_unique (l1 l2 : list Album.t) :
  NoDup (map Album.created_at l1) -> Permutation l1 l2 ->
  StronglySorted ge_created l1 -> StronglySorted ge_created l2 -> l1 = l2.
Proof.
  revert l2. induction l1 as [|a l1 IH]; intros l2 Hnd Hperm Hs1 Hs2.
  - apply Permutation_nil in Hperm. now subst.
  - destruct l2 as [|b l2].
    { apply Permutation_sym, Permutation_nil in Hperm. discriminate. }
    apply StronglySorted_inv in Hs1. destruct Hs1 as [Hs1 Ha].
    apply StronglySorted_inv in Hs2. destruct Hs2 as [Hs2 Hb].
    rewrite Forall_forall in Ha, Hb.
    cbn [map] in Hnd. apply NoDup_cons_iff in Hnd. destruct Hnd as [Hfresh Hnd].
    assert (Heq : a = b).
    { assert (Hbin : In b (a :: l1))
        by (eapply Permutation_in; [symmetry; exact Hperm | now left]).
      assert (Hain : In a (b :: l2))
        by (eapply Permutation_in; [exact Hperm | now left]).
      destruct Hbin as [Hba|Hbin]; [exact Hba|].
      destruct Hain as [Hab|Hain]; [now symmetry|].
      exfalso. apply Hfresh.
      pose proof (Ha b Hbin) as H1. pose proof (Hb a Hain) as H2.
      unfold ge_created in H1, H2.
      replace (Album.created_at a) with (Album.created_at b) by lia.
      now apply in_map. }
    subst b. f_equal. apply IH; auto.
    now apply Permutation_cons_inv in Hperm.
Qed.

(** X3: when the albums of a user have pairwise distinct creation
    times there is one way only to list them newest first, so that
    the listing does not depend on how the database orders equal
    times, and the pages of that listing fit together: the page of
    [n + m] entries is the page of [n] followed by the next page of
    [m], so that consecutive pages neither repeat nor skip an album;
    a page holds [n] entries or, at the end of the listing, what is
    left (nothing once [skip] has passed the end, nothing for
    [n = 0]). *)
Theorem X3_pages_fit_together (e : Env) (s : State) (user_id : Z) (skip n m : nat) :
  NoDup (map Album.created_at (albums_of user_id (stored s))) ->
  exists listing page next both,
    (forall l, Permutation l (albums_of user_id (stored s)) ->
               StronglySorted ge_created l -> l = listing) /\
    get_albums user_id skip n e s = (inr page, s) /\
    get_albums user_id (skip + n) m e s = (inr next, s) /\
    get_albums user_id skip (n + m) e s = (inr both, s) /\
    page = firstn n (skipn skip listing) /\
    next = firstn m (skipn (skip + n) listing) /\
    both = page ++ next /\
    List.length page =
      Nat.min n (List.length (albums_of user_id (stored s)) - skip).
Proof.
  intros Hnd. rewrite !get_albums_run.
  exists (Sql.order_by_created_at_desc (albums_of user_id (stored s))).
  pose proof (SortFacts.order_by_perm (albums_of user_id (stored s))) as Hperm.
  pose proof (SortFacts.order_by_sorted (albums_of user_id (stored s))) as Hsort.
  do 3 eexists.
  repeat match goal with |- _ /\ _ => split end; try reflexivity.
  - intros l Hl Hsorted. apply newest_first_unique; auto.
    + apply (Permutation_NoDup (l := map Album.created_at (albums_of user_id (stored s))));
        [|exact Hnd].
      apply Permutation_map. now symmetry.
    + eapply Permutation_trans; [exact Hl | now symmetry].
  - now rewrite firstn_plus, skipn_plus.
  - rewrite length_firstn, length_skipn.
    now rewrite (Permutation_length Hperm).
Qed.

(** X3 at work: Alice's two albums were created at different times;
    her first page of one album and her second page of one album
    make up the page of two. *)
Lemma X3_pages_fit_together_witness :
  exists page next,
    get_albums 1 0 1 Sample.env Sample.state = (inr page, Sample.state) /\
    get_albums 1 1 1 Sample.env Sample.state = (inr next, Sample.state) /\
    get_albums 1 0 2 Sample.env Sample.state = (inr (page ++ next), Sample.state).
Proof.
  destruct (X3_pages_fit_together Sample.env Sample.state 1 0 1 1)
    as (listing & page & next & both & _ & H1 & H2 & H3 & _ & _ & Hboth & _).
  - vm_compute. repeat constructor; simpl; intuition discriminate.
  - exists page, next. rewrite <- Hboth. auto.
Defined.

(* ================================================================== *)
(** * Further properties: identity, login and the login wall *)
(* ================================================================== *)

Lemma falsy_false (t : text) : Text.falsy t = false <-> t <> [].
Proof. destruct t; simpl; split; congruence. Qed.

Lemma find_by_username (users : list User.t) (u : User.t) :
  NoDup (map User.username users) -> In u users ->
  find (fun r => Text.eqb (User.username r) (User.username u)) users = Some u.
Proof.
  induction users as [|x l IH]; simpl; [tauto|].
  intros Hnd Hin. apply NoDup_cons_iff in Hnd. destruct Hnd as [Hx Hnd].
  destruct (Text.eqb (User.username x) (User.username u)) eqn:E.
  - destruct Hin as [->|Hin]; [reflexivity|].
    apply TextFacts.eqb_eq in E. exfalso. apply Hx. rewrite E. now apply in_map.
  - destruct Hin as [->|Hin]; [|now apply IH].
    apply TextFacts.eqb_neq in E. congruence.
Qed.

Lemma found_by_username (users : list User.t) (name : text) (u : User.t) :
  find (fun r => Text.eqb (User.username r) name) users = Some u ->
  In u users /\ User.username u = name.
Proof.
  intros H. apply find_some in H. now rewrite TextFacts.eqb_eq in H.
Qed.

(** X5: a login changes nothing in the state and has two answers
    only: the redirect to the albums page with a token for the
    submitted user name, or one and the same 401 page, whether the
    user name is unknown or the password wrong.  With distinct user
    names it goes through exactly when some stored user has that name
    and the password checks against that user's hash. *)
Theorem X5_login_outcomes (username password : text) (e : Env) (s : State) :
  NoDup (map User.username (users (stored s))) ->
  exists resp,
    login_user username password e s = (inr resp, s) /\
    (resp = logged_in e username \/ resp = login_failed) /\
    (resp = logged_in e username <->
     exists u, In u (users (stored s)) /\ User.username u = username /\
               verify_password e password (User.hashed_password u) = true).
Proof.
  intros Hnd.
  unfold login_user, authenticate_user, get_user_by_username, bind, ask, ret,
    Db.query_users. cbv beta iota zeta.
  destruct (find _ (users (stored s))) as [u|] eqn:Hfind.
  - destruct (found_by_username _ _ _ Hfind) as [Hin Hname].
    destruct (verify_password e password (User.hashed_password u)) eqn:Hv;
      cbv beta iota zeta delta [negb].
    + exists (logged_in e username). rewrite Hname.
      split; [reflexivity | split; [now left|]].
      split; [intros _; now exists u | reflexivity].
    + exists login_failed. split; [reflexivity | split; [now right|]].
      split; [discriminate|]. intros (u' & Hin' & Hname' & Hv').
      rewrite <- Hname' in Hfind. rewrite (find_by_username _ u' Hnd Hin') in Hfind.
      congruence.
  - exists login_failed. split; [reflexivity | split; [now right|]].
    split; [discriminate|]. intros (u' & Hin' & Hname' & _).
    apply (find_none _ _ Hfind) in Hin'. apply TextFacts.eqb_neq in Hin'. congruence.
Qed.

Lemma X5_login_outcomes_witness :
  exists resp,
    login_user "alice" "wrong" Sample.env Sample.state = (inr resp, Sample.state) /\
    (resp = logged_in Sample.env "alice" \/ resp = login_failed) /\
    (resp = logged_in Sample.env "alice" <->
     exists u, In u (users Sample.tables) /\ User.username u = T "alice" /\
               verify_password Sample.env "wrong" (User.hashed_password u) = true).
Proof.
  apply (X5_login_outcomes "alice" "wrong" Sample.env Sample.state).
  simpl. repeat constructor; simpl; intuition discriminate.
Defined.

Lemma in_paths_iff (path : text) (l : list text) :
  in_paths path l = true <-> In path l.
Proof.
  unfold in_paths. rewrite existsb_exists. split.
  - intros (x & Hin & Heq). apply TextFacts.eqb_eq in Heq. now subst.
  - intros Hin. exists path. split; [exact Hin | now apply TextFacts.eqb_eq].
Qed.

Lemma in_paths_not (path : text) (l : list text) :
  in_paths path l = false <-> ~ In path l.
Proof.
  rewrite <- in_paths_iff. destruct (in_paths path l); split; congruence.
Qed.

(** No path under [/albums] is a system path. *)
Lemma album_paths (rt : Route) :
  protected rt = true -> in_paths (path_of rt) SYSTEM_PATHS = false.
Proof.
  intros Hprot. apply in_paths_not. intros Hin.
  assert (Hthird : nth_error (path_of rt) 1 = Some "a"%char)
    by (destruct rt; try discriminate Hprot; reflexivity).
  cbn [SYSTEM_PATHS In] in Hin.
  destruct Hin as [H|[H|[H|[H|[]]]]]; rewrite <- H in Hthird; discriminate Hthird.
Qed.

(** X6: a request without a valid identity never gets past the login
    wall.  On a route that lists, shows, creates, edits or deletes
    albums it is answered with the redirect to the login page, once
    the framework has found the fields the route requires; when the
    title or the artist of an album form is missing or empty, the
    framework's validation error is answered instead, before any
    login check, with status 422 and the messages of the fields.  On
    [/api/me] it is answered with the 401 error page.  In each case
    the stored tables and the log are exactly as before. *)
Theorem X6_login_wall (esc : option ascii) (e : Env) (w : World) (r : Request) :
  requester e w r = None ->
  (protected (route r) = true -> request_errors (route r) = [] ->
   serve esc e w r = (Some redirect_to_login, w)) /\
  (protected (route r) = true -> request_errors (route r) <> [] ->
   exists template,
     serve esc e w r =
       (Some (TemplateResponse template
                (error_context
                   (Text.join "; " (map describe (request_errors (route r)))) 422)
                422), w)) /\
  (route r = GET_api_me ->
   serve esc e w r =
     (Some (TemplateResponse "error.html"
              (error_context Msg.not_authenticated 401) 401), w)).
Proof.
  intros Hreq. unfold requester in Hreq.
  destruct (current_user_pure (access_token r) e (open_session w)) as (user & Huser).
  rewrite Huser in Hreq. destruct user as [u|]; [discriminate|]. clear Hreq.
  destruct w as [t j]. destruct r as [cookie rt]. simpl in Huser.
  cbn [route]. split; [|split].
  - intros Hprot Hacc.
    unfold serve, app, with_handlers, try_except, dispatch. cbn [route].
    rewrite Hacc. unfold endpoint. cbn [route access_token].
    destruct rt; try discriminate Hprot;
      unfold albums_page, new_album_page, create_new_album, album_detail_page,
        edit_album, delete_album_endpoint, bind; rewrite Huser; reflexivity.
  - intros Hprot Hrej. pose proof (album_paths rt Hprot) as Hsys.
    unfold serve, app, with_handlers, try_except, dispatch. cbn [route].
    destruct (request_errors rt) as [|err errs]; [congruence|].
    unfold raise. cbn [find fst snd any_exception].
    unfold handle_exception, validation_exception_handler. rewrite Hsys.
    unfold bind, ask, ret. cbn [map]. eexists. reflexivity.
  - intros ->. unfold serve, app, with_handlers, try_except, dispatch, endpoint.
    cbn [route access_token request_errors required_fields filter map].
    unfold get_current_user_info, bind. rewrite Huser. reflexivity.
Qed.

Lemma X6_login_wall_witness :
  serve None Sample.env Sample.world
        (mkRequest (Some (T "forged")) (POST_album_delete 2)) =
  (Some redirect_to_login, Sample.world).
Proof.
  apply (proj1 (X6_login_wall None Sample.env Sample.world
                  (mkRequest (Some (T "forged")) (POST_album_delete 2)) eq_refl)).
  - reflexivity.
  - reflexivity.
Defined.

(* ================================================================== *)
(** * Further properties: registration and the users table *)
(* ================================================================== *)

Lemma find_none_existsb {A} (p : A -> bool) (l : list A) :
  find p l = None -> existsb p l = false.
Proof.
  induction l as [|x l IH]; simpl; [reflexivity|].
  destruct (p x); [discriminate | exact IH].
Qed.

Lemma not_taken_iff (t : Tables) (email username : text) :
  ~ taken t email username <->
  find (fun r => Text.eqb (User.email r) email) (users t) = None /\
  find (fun r => Text.eqb (User.username r) username) (users t) = None.
Proof.
  unfold taken. split.
  - intros H. split.
    + destruct (find _ (users t)) as [x|] eqn:E; [|reflexivity].
      exfalso. apply H. apply find_some in E. rewrite TextFacts.eqb_eq in E.
      exists x. tauto.
    + destruct (find _ (users t)) as [x|] eqn:E; [|reflexivity].
      exfalso. apply H. apply find_some in E. rewrite TextFacts.eqb_eq in E.
      exists x. tauto.
  - intros [H1 H2] (r & Hin & Hr).
    apply (find_none _ _ H1) in Hin as E1. apply (find_none _ _ H2) in Hin as E2.
    apply TextFacts.eqb_neq in E1, E2. tauto.
Qed.

Lemma find_new_user (l : list User.t) (row : User.t) :
  User.id row = Db.next_key (map User.id l) ->
  find (fun r => User.id r =? User.id row) (l ++ [row]) = Some row.
Proof.
  intros Hk. rewrite find_append.
  destruct (find _ l) as [r|] eqn:E.
  - apply find_some in E. destruct E as [Hin E]. apply Z.eqb_eq in E.
    apply (in_map User.id) in Hin. apply next_key_above in Hin. lia.
  - simpl. now rewrite Z.eqb_refl.
Qed.

(** What a registration that passes validation says about its
    input. *)
Lemma valid_registration (email username password confirm_password : text) :
  validate_user_registration email username password confirm_password = [] ->
  dot_after_last_at email /\ 3 <= Text.len username <= 50 /\
  6 <= Text.len password <= 72 /\ password = confirm_password.
Proof.
  rewrite registration_errors. pose proof (email_test email) as Hemail.
  destruct (Text.falsy email || _ || _); [discriminate|].
  destruct (Text.len username <? 3) eqn:E2; [discriminate|].
  destruct (Text.len username >? 50) eqn:E3; [discriminate|].
  destruct (Text.len password <? 6) eqn:E4; [discriminate|].
  destruct (Text.len password >? 72) eqn:E5; [discriminate|].
  destruct (Text.eqb password confirm_password) eqn:E6; [|discriminate].
  intros _. bool_to_prop. bool_to_prop.
  repeat split; try lia; try assumption. now apply Hemail.
Qed.

(** A registration that goes through. *)
Lemma register_user_success (email username password confirm_password : text)
    (e : Env) (s : State) :
  validate_user_registration email username password confirm_password = [] ->
  ~ taken (stored s) email username ->
  commit_fault e = None -> pending s = [] ->
  register_user email username password confirm_password e s =
  (inr (logged_in e username),
   mkState (with_new_user (new_user_row e (stored s) email username password)
                          (stored s)) [] (log s)).
Proof.
  intros Hvalid Hnew Hfault Hpend. apply not_taken_iff in Hnew.
  destruct Hnew as [H1 H2].
  unfold register_user. rewrite Hvalid. unfold bind.
  rewrite duplicate_lookup, H1, H2.
  unfold try_except, bind, ask, Db.add, Db.commit, Db.refresh_user, Db.new_key, ret.
  simpl. rewrite Hfault, Hpend. simpl.
  rewrite (find_none_existsb _ _ H1), (find_none_existsb _ _ H2). simpl.
  pose proof (find_new_user (users (stored s))
                (new_user_row e (stored s) email username password) eq_refl) as Hfind.
  unfold new_user_row in Hfind. cbn [User.id] in Hfind. rewrite Hfind.
  reflexivity.
Qed.

(** X7: a registration that passes validation, finds email and user
    name free and is committed stores one new user, with the hash of
    the password and never the password as submitted, and answers
    with the redirect that carries a token for the user name.  When
    that token decodes to the user name, a request with it is a
    request of the new user; when the password checks against its
    own hash, a login with the same user name and password goes
    through.  The albums are untouched. *)
Theorem X7_registered_user_can_act (email username password confirm_password : text)
    (e : Env) (s : State) :
  validate_user_registration email username password confirm_password = [] ->
  ~ taken (stored s) email username ->
  commit_fault e = None -> pending s = [] ->
  let row := new_user_row e (stored s) email username password in
  let s' := mkState (with_new_user row (stored s)) [] (log s) in
  register_user email username password confirm_password e s =
    (inr (logged_in e username), s') /\
  User.hashed_password row = get_password_hash e password /\
  albums (stored s') = albums (stored s) /\
  (create_access_token e username <> [] ->
   decode_token e (create_access_token e username) = Some (Some username) ->
   authenticated (Some (create_access_token e username)) e s' row) /\
  (verify_password e password (get_password_hash e password) = true ->
   login_user username password e s' = (inr (logged_in e username), s')).
Proof.
  intros Hvalid Hnew Hfault Hpend row s'.
  pose proof Hnew as Hfree. apply not_taken_iff in Hfree. destruct Hfree as [_ Hname].
  assert (Hfind : find (fun r => Text.eqb (User.username r) username)
                       (users (stored s'))
                  = Some row).
  { subst s'. unfold with_new_user. simpl. rewrite find_append, Hname. simpl.
    now rewrite (proj2 (TextFacts.eqb_eq username username) eq_refl). }
  split; [now apply register_user_success|].
  split; [reflexivity | split; [reflexivity | split]].
  - intros Htoken Hdecode.
    destruct (valid_registration _ _ _ _ Hvalid) as (_ & Hlen & _).
    assert (Hne : username <> []).
    { intros ->. unfold Text.len in Hlen. simpl in Hlen. lia. }
    unfold authenticated, get_current_user_from_cookie, bind, ask, ret, Db.query_users.
    apply falsy_false in Htoken, Hne. rewrite Htoken. cbv beta iota zeta.
    rewrite Hdecode, Hne. cbv beta iota zeta. now rewrite Hfind.
  - intros Hverify.
    unfold login_user, authenticate_user, get_user_by_username, bind, ask, ret,
      Db.query_users. cbv beta iota zeta. rewrite Hfind.
    cbn [User.hashed_password row new_user_row]. unfold row, new_user_row.
    cbn [User.hashed_password User.username]. rewrite Hverify. reflexivity.
Qed.

Lemma X7_registered_user_can_act_witness :
  register_user "carol@example.org" "carol" "s3cret!" "s3cret!" Demo.env Sample.state =
    (inr (logged_in Demo.env "carol"),
     mkState (with_new_user Demo.carol_row Sample.tables) [] []) /\
  authenticated (Some (T "tok:carol")) Demo.env
    (mkState (with_new_user Demo.carol_row Sample.tables) [] []) Demo.carol_row.
Proof.
  destruct (X7_registered_user_can_act "carol@example.org" "carol" "s3cret!" "s3cret!"
              Demo.env Sample.state) as (Hrun & _ & _ & Hcookie & _).
  - reflexivity.
  - apply not_taken_iff. split; reflexivity.
  - reflexivity.
  - reflexivity.
  - split; [exact Hrun|]. apply Hcookie; [discriminate | reflexivity].
Defined.

(** What the registration route does to the users table. *)
Lemma register_user_users (email username password confirm_password : text)
    (e : Env) (s : State) :
  pending s = [] ->
  stored (snd (register_user email username password confirm_password e s)) = stored s \/
  (~ taken (stored s) email username /\
   stored (snd (register_user email username password confirm_password e s)) =
     with_new_user (new_user_row e (stored s) email username password) (stored s)).
Proof.
  intros Hpend.
  destruct (validate_user_registration email username password confirm_password)
    as [|m l] eqn:Hvalid.
  2:{ left. unfold register_user. now rewrite Hvalid. }
  destruct (find (fun r => Text.eqb (User.email r) email) (users (stored s)))
    as [x|] eqn:E1.
  { left. unfold register_user. rewrite Hvalid. unfold bind.
    now rewrite duplicate_lookup, E1. }
  destruct (find (fun r => Text.eqb (User.username r) username) (users (stored s)))
    as [y|] eqn:E2.
  { left. unfold register_user. rewrite Hvalid. unfold bind.
    now rewrite duplicate_lookup, E1, E2. }
  assert (Hnew : ~ taken (stored s) email username) by now apply not_taken_iff.
  destruct (commit_fault e) as [m|] eqn:Hfault.
  - left. now rewrite (register_user_fault _ _ _ _ e s m Hfault Hvalid Hnew).
  - right. split; [exact Hnew|].
    now rewrite (register_user_success _ _ _ _ e s Hvalid Hnew Hfault Hpend).
Qed.

Lemma users_unique_grow (t : Tables) (row : User.t) :
  users_unique t ->
  User.id row = Db.next_key (map User.id (users t)) ->
  ~ taken t (User.email row) (User.username row) ->
  users_unique (with_new_user row t).
Proof.
  intros (Hid & Hemail & Hname) Hkey Hnew. unfold users_unique, with_new_user.
  simpl. rewrite !map_app. simpl.
  repeat split; (apply NoDup_app; [assumption | repeat constructor; auto |]).
  - intros i Hi [<-|[]]. apply next_key_above in Hi. lia.
  - intros m Hm [<-|[]]. apply in_map_iff in Hm. destruct Hm as (r & Hr & Hin).
    apply Hnew. exists r. tauto.
  - intros m Hm [<-|[]]. apply in_map_iff in Hm. destruct Hm as (r & Hr & Hin).
    apply Hnew. exists r. tauto.
Qed.

Lemma extends_refl {A} (l : list A) : extends l l.
Proof. exists []. now rewrite app_nil_r. Qed.

Lemma extends_trans {A} (l m n : list A) : extends l m -> extends m n -> extends l n.
Proof. intros (r & ->) (r' & ->). exists (r ++ r'). now rewrite app_assoc. Qed.

Section UsersFacts.

Variable like_escape : option ascii.

(** The application leaves the stored tables as the route function
    left them, or as they were when the function was not called. *)
Lemma app_stored (e : Env) (s : State) (r : Request) :
  stored (snd (app like_escape r e s)) = stored (snd (endpoint like_escape r e s))
  \/ stored (snd (app like_escape r e s)) = stored s.
Proof.
  unfold app. rewrite with_handlers_stored.
  destruct (dispatch_cases like_escape r e s) as [[_ ->]|[_ ->]];
    [now left | now right].
Qed.

(** Every request leaves the users table as it was or adds one row,
    with a new key and with an email and a user name that no stored
    user has. *)
Lemma serve_users (e : Env) (w : World) (r : Request) :
  constraints_hold (tables w) = true ->
  users (tables (snd (serve like_escape e w r))) = users (tables w) \/
  exists row,
    users (tables (snd (serve like_escape e w r))) = users (tables w) ++ [row] /\
    User.id row = Db.next_key (map User.id (users (tables w))) /\
    ~ taken (tables w) (User.email row) (User.username row).
Proof.
  intros Hok.
  destruct (serve_effect like_escape e w r Hok)
    as [H|em un pw cf Hr _ _|u f _ _ _ H|u i f a0 _ _ _ _ H|u i a0 _ _ _ _ H];
    try (left; rewrite H; reflexivity).
  rewrite serve_tables.
  destruct (app_stored e (open_session w) r) as [-> | ->]; [|now left].
  unfold endpoint. rewrite Hr.
  destruct (register_user_users em un pw cf e (open_session w) eq_refl) as [H|[Hnew H]];
    rewrite H; [now left|].
  right. exists (new_user_row e (tables w) em un pw). now repeat split.
Qed.

Lemma step_users (w : World) (c : creators) (e : Env) (r : Request) :
  constraints_hold (tables w) = true -> users_unique (tables w) ->
  users_unique (tables (fst (step like_escape (w, c) (e, r)))) /\
  extends (users (tables w)) (users (tables (fst (step like_escape (w, c) (e, r))))).
Proof.
  intros Hok Huniq. simpl.
  destruct (serve_users e w r Hok) as [H|(row & H & Hkey & Hnew)].
  - unfold users_unique in *. rewrite H. split; [exact Huniq | apply extends_refl].
  - split; [|rewrite H; now exists [row]].
    pose proof (users_unique_grow (tables w) row Huniq Hkey Hnew) as Hgrow.
    unfold users_unique, with_new_user in *. simpl in Hgrow. now rewrite H.
Qed.

Lemma run_app (history more : list (Env * Request)) :
  run like_escape (history ++ more) =
  fold_left (step like_escape) more (run like_escape history).
Proof. unfold run. apply fold_left_app. Qed.

Lemma run_users (history : list (Env * Request)) :
  users_unique (tables (fst (run like_escape history))).
Proof.
  induction history as [|[e r] h IH] using rev_ind.
  - simpl. repeat split; constructor.
  - rewrite run_app. simpl fold_left.
    destruct (run_invariant like_escape h) as [Hok _].
    destruct (run like_escape h) as [w c].
    now apply step_users.
Qed.

Lemma run_extends (history more : list (Env * Request)) :
  extends (users (tables (fst (run like_escape history))))
          (users (tables (fst (run like_escape (history ++ more))))).
Proof.
  induction more as [|[e r] m IH] using rev_ind.
  - rewrite app_nil_r. apply extends_refl.
  - rewrite app_assoc, run_app. simpl fold_left.
    destruct (run_invariant like_escape (history ++ m)) as [Hok _].
    pose proof (run_users (history ++ m)) as Huniq.
    destruct (run like_escape (history ++ m)) as [w c].
    eapply extends_trans; [exact IH|]. now apply step_users.
Qed.

End UsersFacts.

(** X8: along every history of requests the stored users keep
    pairwise distinct keys, emails and user names, and the users
    table only grows at its end: no request removes or changes a
    user that is stored. *)
Theorem X8_users_unique_and_kept (like_escape : option ascii)
    (history more : list (Env * Request)) :
  users_unique (tables (fst (run like_escape history))) /\
  extends (users (tables (fst (run like_escape history))))
          (users (tables (fst (run like_escape (history ++ more))))).
Proof.
  split; [apply run_users | apply run_extends].
Qed.

(* ================================================================== *)
(** * Further properties: the data-access functions *)
(* ================================================================== *)

Lemma album_ext (a b : Album.t) :
  (forall c, Album.get c a = Album.get c b) -> a = b.
Proof.
  intros H. destruct a, b.
  pose proof (H Album.c_id) as H1. pose proof (H Album.c_title) as H2.
  pose proof (H Album.c_artist) as H3. pose proof (H Album.c_genre) as H4.
  pose proof (H Album.c_release_year) as H5. pose proof (H Album.c_record_label) as H6.
  pose proof (H Album.c_country) as H7. pose proof (H Album.c_condition) as H8.
  pose proof (H Album.c_barcode) as H9. pose proof (H Album.c_notes) as H10.
  pose proof (H Album.c_created_at) as H11. pose proof (H Album.c_owner_id) as H12.
  simpl in *. congruence.
Qed.

(** What the constructor of [Album] leaves in each column: the last
    value given for it, [None] included. *)
Lemma fold_setattr_get (c : Album.column) (album_data : list kwarg) (a : Album.t) :
  Album.get c (fold_left setattr album_data a) =
  match find (fun k => Album.column_eqb (kw_column k) c) (rev album_data) with
  | Some k => kw_value k
  | None => Album.get c a
  end.
Proof.
  revert a. induction album_data as [|k l IH]; intros a; [reflexivity|].
  simpl fold_left. rewrite IH. simpl rev. rewrite find_append.
  destruct (find _ (rev l)); [reflexivity|]. simpl. rewrite setattr_get.
  now destruct (Album.column_eqb (kw_column k) c).
Qed.

Lemma built_owner (user_id : Z) (album_data : list kwarg) :
  names_owner album_data = false ->
  Album.owner_id (built user_id album_data) = Some user_id.
Proof.
  intros H. pose proof (fold_setattr_get Album.c_owner_id album_data
                          (setattr Album.fresh (kw_owner_id (Some user_id)))) as Hget.
  fold (built user_id album_data) in Hget.
  destruct (find _ (rev album_data)) as [k|] eqn:E.
  - apply find_some in E. destruct E as [Hin Hk]. apply in_rev in Hin.
    unfold names_owner in H. rewrite <- Bool.not_true_iff_false in H.
    exfalso. apply H. apply existsb_exists. now exists k.
  - simpl in Hget. congruence.
Qed.

Lemma stamped_get (c : Album.column) (key now : Z) (a : Album.t) :
  c <> Album.c_id -> c <> Album.c_created_at ->
  Album.get c (stamped key now a) = Album.get c a.
Proof. destruct a, c; simpl; congruence. Qed.

Lemma own_album_new_row (t : Tables) (row : Album.t) (user_id : Z) :
  Album.id row = Db.next_key (map Album.id (albums t)) ->
  own_album (with_new_row row t) (Album.id row) user_id =
  if is_owner user_id row then Some row else None.
Proof.
  intros Hk. unfold own_album, with_new_row. simpl. rewrite find_append.
  destruct (find _ (albums t)) as [r|] eqn:E.
  - apply find_some in E. destruct E as [Hin E]. apply andb_true_iff in E.
    destruct E as [E _]. apply Z.eqb_eq in E.
    apply (in_map Album.id) in Hin. apply next_key_above in Hin. lia.
  - simpl. now rewrite Z.eqb_refl.
Qed.

(** [create_album] on any dictionary that gives a title and an artist
    and does not name the owner. *)
Lemma create_album_general (e : Env) (s : State) (user_id : Z) (album_data : list kwarg) :
  names_owner album_data = false ->
  Album.title (built user_id album_data) <> None ->
  Album.artist (built user_id album_data) <> None ->
  commit_fault e = None -> pending s = [] ->
  let row := stamped (Db.next_key (map Album.id (albums (stored s)))) (utcnow e)
                     (built user_id album_data) in
  create_album user_id album_data e s =
  (inr row, mkState (with_new_row row (stored s)) [] (log s)).
Proof.
  intros Hno. unfold create_album, new_album, bind.
  fold (names_owner album_data). rewrite Hno. fold (built user_id album_data).
  generalize (built user_id album_data). intros b Ht Ha Hfault Hpend.
  destruct b as [i ti ar ge ry rl co cn ba no ca ow]. simpl in Ht, Ha.
  destruct ti as [ti|]; [|congruence]. destruct ar as [ar|]; [|congruence].
  pose proof (find_new_row (albums (stored s))
                (stamped (Db.next_key (map Album.id (albums (stored s)))) (utcnow e)
                   (Album.mk i (Some ti) (Some ar) ge ry rl co cn ba no ca ow))
                eq_refl) as Hfind.
  unfold stamped in Hfind. cbn [Album.id] in Hfind.
  unfold ret, Db.add, Db.commit, Db.refresh_album, Db.new_key, with_new_row. simpl.
  rewrite Hfault, Hpend. simpl. now rewrite Hfind.
Qed.

(** X9: [create_album] followed by a lookup gives the album back: for
    a dictionary that does not name the owner and gives a title and
    an artist, the committed row gets a key no stored album has, the
    caller's user as owner and, in every column the dictionary names
    once, the value given; [get_album_by_id] with the new key
    returns that row to the owner and raises the 404 for every other
    user; the albums stored before are still there. *)
Theorem X9_create_then_get (e : Env) (s : State) (user_id : Z)
    (album_data : list kwarg) :
  names_owner album_data = false ->
  Album.title (built user_id album_data) <> None ->
  Album.artist (built user_id album_data) <> None ->
  commit_fault e = None -> pending s = [] ->
  exists row s',
    create_album user_id album_data e s = (inr row, s') /\
    albums (stored s') = albums (stored s) ++ [row] /\
    ~ In (Album.id row) (map Album.id (albums (stored s))) /\
    Album.owner_id row = Some user_id /\
    (forall k, In k album_data ->
               (forall k', In k' album_data -> kw_column k' = kw_column k -> k' = k) ->
               Album.get (kw_column k) row = kw_value k) /\
    get_album_by_id (Album.id row) user_id e s' = (inr row, s') /\
    (forall other, other <> user_id ->
       get_album_by_id (Album.id row) other e s' =
         (inl (HTTPException 404 Msg.album_not_found), s')).
Proof.
  intros Hno Ht Ha Hfault Hpend.
  pose proof (create_album_general e s user_id album_data Hno Ht Ha Hfault Hpend) as Hrun.
  cbv zeta in Hrun.
  set (row := stamped (Db.next_key (map Album.id (albums (stored s)))) (utcnow e)
                      (built user_id album_data)) in *.
  assert (Hid : Album.id row = Db.next_key (map Album.id (albums (stored s)))).
  { unfold row. now destruct (built user_id album_data). }
  assert (Hown : Album.owner_id row = Some user_id).
  { pose proof (stamped_get Album.c_owner_id
                  (Db.next_key (map Album.id (albums (stored s)))) (utcnow e)
                  (built user_id album_data)) as H.
    fold row in H. simpl in H. rewrite (built_owner _ _ Hno) in H.
    assert (Album.Int (Album.owner_id row) = Album.Int (Some user_id))
      by (apply H; discriminate). congruence. }
  exists row, (mkState (with_new_row row (stored s)) [] (log s)).
  split; [exact Hrun|]. split; [reflexivity|]. split; [|split; [exact Hown|split; [|split]]].
  - intros Hin. apply next_key_above in Hin. lia.
  - intros k Hk Huniq. unfold row. rewrite stamped_get by (destruct k; discriminate).
    unfold built. rewrite fold_setattr_get.
    destruct (find _ (rev album_data)) as [k'|] eqn:E.
    + apply find_some in E. destruct E as [Hin' Hc]. apply in_rev in Hin'.
      apply column_eqb_eq in Hc. now rewrite (Huniq k' Hin' Hc).
    + apply in_rev in Hk. apply (find_none _ _ E) in Hk.
      now rewrite column_eqb_refl in Hk.
  - rewrite get_album_by_id_run. cbn [stored].
    rewrite (own_album_new_row (stored s) row user_id Hid).
    unfold is_owner. now rewrite Hown, Z.eqb_refl.
  - intros other Hother. rewrite get_album_by_id_run. cbn [stored].
    rewrite (own_album_new_row (stored s) row other Hid).
    unfold is_owner. rewrite Hown.
    apply not_eq_sym, Z.eqb_neq in Hother. now rewrite Hother.
Qed.

Lemma X9_create_then_get_witness :
  exists row s',
    create_album 2 Demo.album_data Sample.env Sample.state = (inr row, s') /\
    Album.owner_id row = Some 2 /\
    get_album_by_id (Album.id row) 2 Sample.env s' = (inr row, s') /\
    get_album_by_id (Album.id row) 1 Sample.env s' =
      (inl (HTTPException 404 Msg.album_not_found), s').
Proof.
  destruct (X9_create_then_get Sample.env Sample.state 2 Demo.album_data)
    as (row & s' & Hrun & _ & _ & Hown & _ & Hget & Hother);
    try reflexivity; try discriminate.
  exists row, s'. repeat split; auto. apply Hother. discriminate.
Defined.

(** Every error of a flush is the database's. *)
Lemma flush1_error (now : Z) (c : Change) (t : Tables) (x : Exn) :
  Db.flush1 now c t = inl x -> exists m, x = DatabaseError m.
Proof.
  destruct c as [u|a|a|a]; cbn [Db.flush1].
  - destruct (existsb _ (users t)); [intros [= <-]; eauto|].
    destruct (existsb _ (users t)); [intros [= <-]; eauto | discriminate].
  - destruct (Db.is_null (Album.title a)); [intros [= <-]; eauto|].
    destruct (Db.is_null (Album.artist a)); [intros [= <-]; eauto|].
    destruct a. discriminate.
  - destruct (Db.is_null (Album.title a)); [intros [= <-]; eauto|].
    destruct (Db.is_null (Album.artist a)); [intros [= <-]; eauto | discriminate].
  - discriminate.
Qed.

(** A flush whose last change the database refuses is refused,
    whatever is pending before it. *)
Lemma flush_refused (now : Z) (cs : list Change) (c : Change) (t : Tables) :
  (forall t', exists m, Db.flush1 now c t' = inl (DatabaseError m)) ->
  exists m, Db.flush now (cs ++ [c]) t = inl (DatabaseError m).
Proof.
  intros Hc. revert t. induction cs as [|c0 cs IH]; intros t.
  - cbn [Datatypes.app Db.flush]. destruct (Hc t) as (m & ->). eauto.
  - cbn [Datatypes.app Db.flush]. destruct (Db.flush1 now c0 t) as [x|[t' ks]] eqn:E.
    + destruct (flush1_error _ _ _ _ E) as (m & ->). eauto.
    + destruct (IH t') as (m & ->). eauto.
Qed.

(** X10: [create_album] stores nothing when it fails: a dictionary
    that names [owner_id] is refused before the session is touched
    (the keyword is given twice), and an object without title or
    without artist is refused by the database at the commit, which
    leaves the stored tables as they were and nothing pending in the
    session, whatever was pending before. *)
Theorem X10_create_album_refusals (e : Env) (s : State) (user_id : Z)
    (album_data : list kwarg) :
  (names_owner album_data = true ->
   exists m, create_album user_id album_data e s = (inl (TypeError m), s)) /\
  (names_owner album_data = false ->
   Album.title (built user_id album_data) = None
   \/ Album.artist (built user_id album_data) = None ->
   exists m,
     create_album user_id album_data e s =
       (inl (DatabaseError m), mkState (stored s) [] (log s))).
Proof.
  split.
  - intros H. unfold create_album, new_album, bind.
    fold (names_owner album_data). rewrite H. eexists. reflexivity.
  - intros H Hnull. unfold create_album, new_album, bind.
    fold (names_owner album_data). rewrite H. fold (built user_id album_data).
    unfold ret, Db.add, Db.commit. cbv beta iota zeta. cbn [pending stored log].
    destruct (commit_fault e) as [m|]; [eexists; reflexivity|].
    destruct (flush_refused (utcnow e) (pending s)
                (InsertAlbum (built user_id album_data)) (stored s)) as (m & ->).
    + intros t'. cbn [Db.flush1].
      destruct Hnull as [Hn|Hn]; rewrite Hn; cbn [Db.is_null].
      * eexists. reflexivity.
      * destruct (Db.is_null (Album.title (built user_id album_data)));
          eexists; reflexivity.
    + eexists. reflexivity.
Qed.

Lemma X10_create_album_refusals_witness :
  (exists m,
     create_album 1 [kw_title (Some (T "Om")); kw_owner_id (Some 2)]
                  Sample.env Sample.state = (inl (TypeError m), Sample.state)) /\
  (exists m,
     create_album 1 [kw_artist (Some (T "John Coltrane"))] Sample.env Sample.state =
       (inl (DatabaseError m), mkState Sample.tables [] [])).
Proof.
  split.
  - apply (proj1 (X10_create_album_refusals Sample.env Sample.state 1
                    [kw_title (Some (T "Om")); kw_owner_id (Some 2)])).
    reflexivity.
  - apply (proj2 (X10_create_album_refusals Sample.env Sample.state 1
                    [kw_artist (Some (T "John Coltrane"))])).
    + reflexivity.
    + now left.
Defined.

Lemma find_filter {A} (p q : A -> bool) (l : list A) :
  (forall x, In x l -> p x = true -> q x = true) ->
  find p (filter q l) = find p l.
Proof.
  induction l as [|x l IH]; intros H; [reflexivity|]. simpl.
  destruct (q x) eqn:Hq; simpl.
  - destruct (p x); [reflexivity|]. apply IH. intros y Hy. apply H. now right.
  - destruct (p x) eqn:Hp.
    + rewrite (H x (or_introl eq_refl) Hp) in Hq. discriminate.
    + apply IH. intros y Hy. apply H. now right.
Qed.

Lemma own_album_deleted (t : Tables) (album_id user_id : Z) :
  own_album (without_row album_id t) album_id user_id = None.
Proof.
  apply own_album_missing. intros (a & Hin & Hid & _).
  apply (without_row_gone album_id t). apply in_map_iff. now exists a.
Qed.

Lemma own_album_elsewhere (t : Tables) (album_id other_id user_id : Z) :
  other_id <> album_id ->
  own_album (without_row album_id t) other_id user_id = own_album t other_id user_id.
Proof.
  intros Hne. unfold own_album, without_row. simpl. apply find_filter.
  intros x _ Hp. apply andb_true_iff in Hp. destruct Hp as [Hid _].
  apply Z.eqb_eq in Hid. apply negb_true_iff, Z.eqb_neq. congruence.
Qed.

(** X11: a deleted album is gone for good and nothing else is: after
    a successful [delete_album] every lookup of that key, by any
    user, raises the 404, a second delete and an update raise it as
    well and change nothing, and every other key is looked up as
    before; the users table is as it was. *)
Theorem X11_delete_then_lookup (e : Env) (s : State) (album_id user_id : Z)
    (a : Album.t) :
  own_album (stored s) album_id user_id = Some a ->
  commit_fault e = None -> pending s = [] ->
  exists s',
    delete_album album_id user_id e s = (inr true, s') /\
    users (stored s') = users (stored s) /\
    (forall anyone,
        get_album_by_id album_id anyone e s' =
          (inl (HTTPException 404 Msg.album_not_found), s')) /\
    delete_album album_id user_id e s' =
      (inl (HTTPException 404 Msg.album_not_found), s') /\
    (forall album_data,
        update_album album_id user_id album_data e s' =
          (inl (HTTPException 404 Msg.album_not_found), s')) /\
    (forall other_id anyone,
        other_id <> album_id ->
        get_album_by_id other_id anyone e s' =
        match get_album_by_id other_id anyone e s with
        | (r, _) => (r, s')
        end).
Proof.
  intros Hown Hfault Hpend.
  exists (mkState (without_row album_id (stored s)) [] (log s)).
  split; [now apply (delete_album_run e s album_id user_id a)|].
  split; [reflexivity|].
  assert (Hgone : forall anyone,
             own_album (stored (mkState (without_row album_id (stored s)) [] (log s)))
                       album_id anyone = None)
    by (intros anyone; apply own_album_deleted).
  repeat split.
  - intros anyone. now rewrite get_album_by_id_run, Hgone.
  - now destruct (missing_album_run e _ _ _ [] (Hgone user_id)) as (_ & _ & ?).
  - intros album_data.
    now destruct (missing_album_run e _ _ _ album_data (Hgone user_id)) as (_ & ? & _).
  - intros other_id anyone Hne. rewrite !get_album_by_id_run. cbn [stored].
    rewrite own_album_elsewhere by assumption.
    now destruct (own_album (stored s) other_id anyone).
Qed.

Lemma X11_delete_then_lookup_witness :
  exists s',
    delete_album 2 1 Sample.env Sample.state = (inr true, s') /\
    get_album_by_id 2 1 Sample.env s' =
      (inl (HTTPException 404 Msg.album_not_found), s') /\
    get_album_by_id 3 1 Sample.env s' = (inr Sample.blue_train, s').
Proof.
  destruct (X11_delete_then_lookup Sample.env Sample.state 2 1 Sample.kind_of_blue
              eq_refl eq_refl eq_refl) as (s' & Hrun & _ & Hgone & _ & _ & Hother).
  exists s'. split; [exact Hrun|]. split; [apply Hgone|].
  rewrite (Hother 3 1); [reflexivity | discriminate].
Defined.

Lemma set_given_twice (a : Album.t) (album_data : list kwarg) :
  set_given (set_given a album_data) album_data = set_given a album_data.
Proof.
  apply album_ext. intros c. rewrite !set_given_get.
  now destruct (last_given c album_data).
Qed.

Lemma own_album_replaced (t : Tables) (album_id user_id : Z) (a' : Album.t) :
  Album.id a' = album_id ->
  (exists r, In r (albums t) /\ Album.id r = album_id) ->
  own_album (with_row album_id a' t) album_id user_id =
  if is_owner user_id a' then Some a' else None.
Proof.
  intros Hid. unfold own_album, with_row. simpl.
  induction (albums t) as [|x l IH]; intros (r & Hin & Hr); [contradiction|].
  simpl. destruct (Album.id x =? album_id) eqn:E.
  - rewrite Hid, Z.eqb_refl. simpl. destruct (is_owner user_id a') eqn:Ho; [reflexivity|].
    clear IH Hin. induction l as [|y l IHl]; [reflexivity|]. simpl.
    destruct (Album.id y =? album_id) eqn:Ey.
    + rewrite Hid, Z.eqb_refl, Ho. simpl. exact IHl.
    + rewrite Ey. simpl. exact IHl.
  - rewrite E. simpl. apply IH. destruct Hin as [->|Hin].
    + apply Z.eqb_neq in E. congruence.
    + now exists r.
Qed.

Lemma with_row_twice (album_id : Z) (a' : Album.t) (t : Tables) :
  Album.id a' = album_id ->
  with_row album_id a' (with_row album_id a' t) = with_row album_id a' t.
Proof.
  intros Hid. unfold with_row. simpl. f_equal. rewrite map_map. apply map_ext.
  intros r. destruct (Album.id r =? album_id) eqn:E.
  - now rewrite Hid, Z.eqb_refl.
  - now rewrite E.
Qed.

Lemma set_given_owner (a : Album.t) (album_data : list kwarg) :
  names_owner album_data = false ->
  Album.owner_id (set_given a album_data) = Album.owner_id a.
Proof.
  intros Hno. pose proof (set_given_get Album.c_owner_id album_data a) as H.
  rewrite last_given_none in H; [simpl in H; congruence|].
  intros k Hk Hc. exfalso. unfold names_owner in Hno.
  rewrite <- Bool.not_true_iff_false in Hno. apply Hno.
  apply existsb_exists. exists k. split; [exact Hk | now apply column_eqb_eq].
Qed.

(** X12: [update_album] is idempotent: for a dictionary that does not
    name the owner, a second call with the same dictionary returns
    the same album as the first and leaves the state exactly as the
    first left it. *)
Theorem X12_update_twice (e : Env) (s : State) (album_id user_id : Z)
    (album_data : list kwarg) (a : Album.t) :
  commit_fault e = None -> pending s = [] ->
  constraints_hold (stored s) = true ->
  own_album (stored s) album_id user_id = Some a ->
  names_owner album_data = false ->
  exists a' s',
    update_album album_id user_id album_data e s = (inr a', s') /\
    update_album album_id user_id album_data e s' = (inr a', s').
Proof.
  intros Hfault Hpend Hok Hown Hno.
  destruct (own_album_found _ _ _ _ Hown) as (Hin & Hid & Howner).
  destruct (constraints_not_null _ _ Hok Hin) as [Ht Ha].
  destruct (set_given_keeps_required a album_data Ht Ha) as [Ht' Ha'].
  pose proof (set_given_id a album_data) as Hid'. rewrite Hid in Hid'.
  set (a' := set_given a album_data) in *.
  set (s' := mkState (with_row album_id a' (stored s)) [] (log s)).
  exists a', s'.
  split; [now apply update_album_run|].
  assert (Hok' : constraints_hold (stored s') = true)
    by now apply constraints_with_row.
  assert (Hown' : own_album (stored s') album_id user_id = Some a').
  { cbn [stored s']. rewrite own_album_replaced; [|exact Hid'|now exists a].
    apply is_owner_iff in Howner. unfold is_owner in *. unfold a'.
    now rewrite (set_given_owner a album_data Hno), Howner. }
  rewrite (update_album_run e s' album_id user_id album_data a' Hfault eq_refl Hok' Hown').
  unfold a'. rewrite set_given_twice. fold a'. cbn [stored s' log].
  now rewrite with_row_twice.
Qed.

Lemma X12_update_twice_witness :
  exists a' s',
    update_album 3 1 [kw_genre (Some (T "Hard bop")); kw_notes None]
                 Sample.env Sample.state = (inr a', s') /\
    update_album 3 1 [kw_genre (Some (T "Hard bop")); kw_notes None]
                 Sample.env s' = (inr a', s').
Proof.
  exact (X12_update_twice Sample.env Sample.state 3 1
           [kw_genre (Some (T "Hard bop")); kw_notes None] Sample.blue_train
           eq_refl eq_refl eq_refl eq_refl eq_refl).
Defined.

(** X13: [update_album] does not protect the owner column: a
    dictionary whose last value for [owner_id] is another user hands
    the album over, after which the former owner's lookup raises the
    404 and the new owner's lookup returns the album.  The
    dictionary of the album forms never names [owner_id]. *)
Theorem X13_update_can_hand_over (e : Env) (s : State) (album_id user_id other_id : Z)
    (album_data : list kwarg) (a : Album.t) :
  commit_fault e = None -> pending s = [] ->
  constraints_hold (stored s) = true ->
  own_album (stored s) album_id user_id = Some a ->
  last_given Album.c_owner_id album_data = Some (kw_owner_id (Some other_id)) ->
  other_id <> user_id ->
  (exists a' s',
      update_album album_id user_id album_data e s = (inr a', s') /\
      Album.owner_id a' = Some other_id /\
      get_album_by_id album_id user_id e s' =
        (inl (HTTPException 404 Msg.album_not_found), s') /\
      get_album_by_id album_id other_id e s' = (inr a', s')) /\
  (forall f, names_owner (drop_none (form_album_data f)) = false).
Proof.
  intros Hfault Hpend Hok Hown Hlast Hne.
  split; [|intros f; apply form_no_owner].
  destruct (own_album_found _ _ _ _ Hown) as (Hin & Hid & _).
  pose proof (set_given_id a album_data) as Hid'. rewrite Hid in Hid'.
  assert (Howner : Album.owner_id (set_given a album_data) = Some other_id).
  { pose proof (set_given_get Album.c_owner_id album_data a) as H.
    rewrite Hlast in H. simpl in H. congruence. }
  exists (set_given a album_data),
         (mkState (with_row album_id (set_given a album_data) (stored s)) [] (log s)).
  split; [now apply update_album_run|]. split; [exact Howner|].
  rewrite !get_album_by_id_run. cbn [stored].
  rewrite !own_album_replaced by (try exact Hid'; now exists a).
  unfold is_owner. rewrite Howner, Z.eqb_refl.
  apply Z.eqb_neq in Hne. now rewrite Hne.
Qed.

Lemma X13_update_can_hand_over_witness :
  exists a' s',
    update_album 3 1 [kw_owner_id (Some 2)] Sample.env Sample.state = (inr a', s') /\
    Album.owner_id a' = Some 2 /\
    get_album_by_id 3 1 Sample.env s' =
      (inl (HTTPException 404 Msg.album_not_found), s') /\
    get_album_by_id 3 2 Sample.env s' = (inr a', s').
Proof.
  refine (proj1 (X13_update_can_hand_over Sample.env Sample.state 3 1 2
                   [kw_owner_id (Some 2)] Sample.blue_train
                   eq_refl eq_refl eq_refl eq_refl eq_refl _)).
  discriminate.
Defined.

(* ================================================================== *)
(** * Further properties: what one user's requests do to another's albums *)
(* ================================================================== *)

Lemma filter_map_same {A} (p : A -> bool) (g : A -> A) (l : list A) :
  (forall r, In r l -> g r = r \/ (p r = false /\ p (g r) = false)) ->
  filter p (map g l) = filter p l.
Proof.
  induction l as [|x l IH]; intros H; [reflexivity|]. simpl.
  rewrite IH by (intros r Hr; apply H; now right).
  destruct (H x (or_introl eq_refl)) as [->|[H1 H2]]; [reflexivity|].
  now rewrite H1, H2.
Qed.

Lemma filter_filter_same {A} (p q : A -> bool) (l : list A) :
  (forall r, In r l -> q r = false -> p r = false) ->
  filter p (filter q l) = filter p l.
Proof.
  induction l as [|x l IH]; intros H; [reflexivity|]. simpl.
  rewrite <- IH by (intros r Hr; apply H; now right).
  destruct (q x) eqn:Hq; simpl; [reflexivity|].
  now rewrite (H x (or_introl eq_refl) Hq).
Qed.

Section Isolation.

Variable like_escape : option ascii.

Lemma serve_other_users (e : Env) (w : World) (r : Request) (v : Z) :
  constraints_hold (tables w) = true ->
  requester e w r <> Some v ->
  albums_of v (tables (snd (serve like_escape e w r))) = albums_of v (tables w).
Proof.
  intros Hok Hreq. pose proof (constraints_keys _ Hok) as Hnd.
  unfold albums_of.
  destruct (serve_effect like_escape e w r Hok)
    as [H|? ? ? ? _ _ H|u f _ _ Hauth H|u i f a0 _ _ Hauth Hown H|u i a0 _ _ Hauth Hown H];
    simpl in H; rewrite H; try reflexivity.
  - rewrite (requester_of e w r u Hauth) in Hreq.
    unfold with_new_row. simpl. rewrite filter_app. simpl.
    unfold is_owner at 2. simpl.
    destruct (User.id u =? v) eqn:E; [|now rewrite app_nil_r].
    apply Z.eqb_eq in E. congruence.
  - rewrite (requester_of e w r u Hauth) in Hreq.
    destruct (own_album_found _ _ _ _ Hown) as (Hin & Hid & Howner). simpl in Hin.
    unfold with_row. simpl. apply filter_map_same. intros x Hx.
    destruct (Album.id x =? i) eqn:E; [|now left]. right.
    apply Z.eqb_eq in E.
    assert (x = a0) by (eapply same_key_same_row; eauto; congruence). subst x.
    unfold is_owner, edited_row. simpl. unfold owned_by in Howner. rewrite Howner.
    assert ((User.id u =? v) = false) by (apply Z.eqb_neq; congruence). tauto.
  - rewrite (requester_of e w r u Hauth) in Hreq.
    destruct (own_album_found _ _ _ _ Hown) as (Hin & Hid & Howner). simpl in Hin.
    unfold without_row. simpl. apply filter_filter_same. intros x Hx Hq.
    apply negb_false_iff, Z.eqb_eq in Hq.
    assert (x = a0) by (eapply same_key_same_row; eauto; congruence). subst x.
    unfold is_owner. unfold owned_by in Howner. rewrite Howner.
    apply Z.eqb_neq. congruence.
Qed.

End Isolation.

(** X14: in every state a history of requests can lead to, a request
    changes the albums of no user but its requester: for every user
    other than the logged-in requester, and for every user when the
    request carries no valid identity, that user's albums are the
    same rows in the same order after the request as before. *)
Theorem X14_requests_touch_own_albums_only (like_escape : option ascii)
    (history : list (Env * Request)) (e : Env) (r : Request) (v : Z) :
  let w := fst (run like_escape history) in
  requester e w r <> Some v ->
  albums_of v (tables (snd (serve like_escape e w r))) = albums_of v (tables w).
Proof.
  intros w Hreq. apply serve_other_users; [|exact Hreq].
  apply (run_invariant like_escape history).
Qed.

Lemma X14_requests_touch_own_albums_only_witness :
  albums_of 1 (tables (snd (serve None Sample.env (fst (run None Sample.history))
                                  (mkRequest (Some (T "tok:mallory"))
                                             (POST_album_delete 1))))) =
  albums_of 1 (tables (fst (run None Sample.history))).
Proof.
  apply (X14_requests_touch_own_albums_only None Sample.history Sample.env
           (mkRequest (Some (T "tok:mallory")) (POST_album_delete 1)) 1).
  vm_compute. discriminate.
Defined.

(* ================================================================== *)
(** * Further properties: what the forms guarantee of stored albums *)
(* ================================================================== *)

Lemma strip_fixed (w : text) :
  (forall c r, w = c :: r -> Text.is_space c = false) ->
  (forall r c, w = r ++ [c] -> Text.is_space c = false) ->
  Text.strip w = w.
Proof.
  intros Hhead Hlast. unfold Text.strip, Text.rstrip.
  assert (Hl : Text.lstrip w = w).
  { destruct w as [|c r]; [reflexivity|]. simpl.
    now rewrite (Hhead c r eq_refl). }
  rewrite Hl. destruct (rev w) as [|c r] eqn:E.
  - simpl. rewrite <- (rev_involutive w), E. reflexivity.
  - assert (Hw : w = rev r ++ [c]).
    { rewrite <- (rev_involutive w), E. reflexivity. }
    simpl Text.lstrip. rewrite (Hlast _ _ Hw). now rewrite <- E, rev_involutive.
Qed.

Lemma strip_strip (s : text) : Text.strip (Text.strip s) = Text.strip s.
Proof.
  destruct (TextFacts.strip_is_stripped s) as (_ & Hhead & Hlast).
  now apply strip_fixed.
Qed.

Lemma strip_len (s : text) : Text.len (Text.strip s) <= Text.len s.
Proof.
  destruct (TextFacts.strip_is_stripped s) as ((p & q & Heq & _) & _).
  unfold Text.len. rewrite Heq at 2. rewrite !length_app. lia.
Qed.

Lemma tidy_strip (limit : Z) (s : text) :
  ~ blank s -> Text.len s <= limit -> tidy limit (Some (Text.strip s)).
Proof.
  intros Hnb Hlen. exists (Text.strip s). repeat split.
  - intros H. apply Hnb. now apply TextFacts.strip_nil.
  - apply strip_strip.
  - pose proof (strip_len s). lia.
Qed.

Lemma strip_or_none_stripped (v : option text) (w : text) :
  strip_or_none v = Some w -> Text.strip w = w.
Proof.
  destruct v as [s|]; simpl; [|discriminate].
  destruct (Text.falsy s); [discriminate|]. intros [= <-]. apply strip_strip.
Qed.

Lemma accepted_field (limit : Z) (s : text) :
  (if missing_or_blank (Some s) then true else longer_than limit (Some s)) = false ->
  ~ blank s /\ Text.len s <= limit.
Proof.
  intros H. split.
  - intros Hb. apply missing_or_blank_Some in Hb. now rewrite Hb in H.
  - destruct (missing_or_blank (Some s)); [discriminate|].
    simpl in H. rewrite Z.gtb_ltb in H. apply Z.ltb_ge in H. exact H.
Qed.

Lemma valid_form_fields (e : Env) (f : AlbumForm) :
  valid_form e f ->
  (~ blank (f_title f) /\ Text.len (f_title f) <= 200) /\
  (~ blank (f_artist f) /\ Text.len (f_artist f) <= 100) /\
  (forall y, f_release_year f = Some y -> 1900 <= y <= current_year e).
Proof.
  unfold valid_form. rewrite album_errors. intros H.
  apply app_eq_nil in H. destruct H as [Ht H].
  apply app_eq_nil in H. destruct H as [Ha Hy].
  split; [|split].
  - apply accepted_field.
    destruct (missing_or_blank (Some (f_title f))); [discriminate|].
    now destruct (longer_than 200 (Some (f_title f))).
  - apply accepted_field.
    destruct (missing_or_blank (Some (f_artist f))); [discriminate|].
    now destruct (longer_than 100 (Some (f_artist f))).
  - intros y Hyear. rewrite Hyear in Hy.
    destruct ((y <? 1900) || (y >? current_year e)) eqn:E; [discriminate|].
    apply orb_false_iff in E. destruct E as [E1 E2].
    apply Z.ltb_ge in E1. rewrite Z.gtb_ltb in E2. apply Z.ltb_ge in E2. lia.
Qed.

Lemma well_kept_created (e : Env) (f : AlbumForm) (key now user_id : Z) :
  valid_form e f -> well_kept (created_row key now user_id f).
Proof.
  intros Hv. destruct (valid_form_fields e f Hv) as ((Ht1 & Ht2) & (Ha1 & Ha2) & Hy).
  unfold well_kept, created_row. cbn [Album.title Album.artist Album.release_year Album.owner_id].
  repeat apply conj.
  - now apply tidy_strip.
  - now apply tidy_strip.
  - intros y Hyear. apply (Hy y Hyear).
  - intros x v. destruct x; simpl; apply strip_or_none_stripped.
  - discriminate.
Qed.

Lemma well_kept_edited (e : Env) (f : AlbumForm) (a : Album.t) :
  valid_form e f -> well_kept a -> well_kept (edited_row a f).
Proof.
  intros Hv (_ & _ & Hy0 & Hs0 & Ho0).
  destruct (valid_form_fields e f Hv) as ((Ht1 & Ht2) & (Ha1 & Ha2) & Hy).
  unfold well_kept, edited_row. cbn [Album.title Album.artist Album.release_year Album.owner_id].
  repeat apply conj.
  - now apply tidy_strip.
  - now apply tidy_strip.
  - intros y. destruct (f_release_year f) as [y'|]; simpl.
    + intros [= <-]. apply (Hy y' eq_refl).
    + apply Hy0.
  - intros x v.
    assert (Hor : forall field stored0,
               (forall w, stored0 = Some w -> Text.strip w = w) ->
               or_keep (strip_or_none field) stored0 = Some v -> Text.strip v = v).
    { intros field stored0 Hold. destruct (strip_or_none field) as [w|] eqn:E; simpl.
      - intros [= <-]. now apply (strip_or_none_stripped field).
      - apply Hold. }
    destruct x; simpl; apply Hor; intros w Hw.
    + apply (Hs0 Genre w Hw).
    + apply (Hs0 RecordLabel w Hw).
    + apply (Hs0 Country w Hw).
    + apply (Hs0 Barcode w Hw).
    + apply (Hs0 Notes w Hw).
  - exact Ho0.
Qed.

Section Kept.

Variable like_escape : option ascii.

Lemma serve_rows (e : Env) (w : World) (r : Request) (a' : Album.t) :
  constraints_hold (tables w) = true ->
  In a' (albums (tables (snd (serve like_escape e w r)))) ->
  In a' (albums (tables w))
  \/ (exists f key now user_id, valid_form e f /\ a' = created_row key now user_id f)
  \/ (exists f a, valid_form e f /\ In a (albums (tables w)) /\ a' = edited_row a f).
Proof.
  intros Hok.
  assert (Hsame : stored (snd (endpoint like_escape r e (open_session w))) = tables w ->
                  tables (snd (serve like_escape e w r)) = tables w).
  { intros H. rewrite serve_tables.
    destruct (app_stored like_escape e (open_session w) r) as [-> | ->];
      [exact H | reflexivity]. }
  destruct (serve_effect like_escape e w r Hok)
    as [H|? ? ? ? _ _ H|u f Hr _ Hauth H|u i f a0 Hr _ Hauth Hown H|u i a0 _ _ Hauth Hown H].
  - rewrite H. now left.
  - rewrite H. now left.
  - destruct (valid_form_dec e f) as [Hv|Hinv].
    + rewrite H. unfold with_new_row. simpl. intros Hin.
      apply in_app_or in Hin. destruct Hin as [Hin|[<-|[]]]; [now left|].
      right. left. exists f. eauto.
    + destruct (create_new_album_invalid e _ _ u Hauth f Hinv) as (err & Hrun).
      rewrite Hsame.
      * now left.
      * unfold endpoint. rewrite Hr, Hrun. reflexivity.
  - destruct (valid_form_dec e f) as [Hv|Hinv].
    + destruct (own_album_found _ _ _ _ Hown) as (Hin0 & _).
      rewrite H. unfold with_row. cbn [albums]. intros Hin.
      apply in_map_iff in Hin. destruct Hin as (x & <- & Hx).
      destruct (Album.id x =? i); [|now left].
      right. right. exists f, a0. auto.
    + destruct (edit_album_invalid e _ _ u Hauth i f Hinv) as (err & Hrun).
      rewrite Hsame.
      * now left.
      * unfold endpoint. rewrite Hr, Hrun. reflexivity.
  - rewrite H. unfold without_row. cbn [albums]. intros Hin.
    apply filter_In in Hin. left. apply Hin.
Qed.

Lemma serve_well_kept (e : Env) (w : World) (r : Request) :
  constraints_hold (tables w) = true ->
  Forall well_kept (albums (tables w)) ->
  Forall well_kept (albums (tables (snd (serve like_escape e w r)))).
Proof.
  intros Hok Hall. apply Forall_forall. intros a' Hin.
  rewrite Forall_forall in Hall.
  destruct (serve_rows e w r a' Hok Hin)
    as [H|[(f & key & now & user_id & Hv & ->)|(f & a & Hv & Ha & ->)]].
  - now apply Hall.
  - now apply (well_kept_created e).
  - apply (well_kept_edited e); auto.
Qed.

Lemma run_well_kept (history : list (Env * Request)) :
  Forall well_kept (albums (tables (fst (run like_escape history)))).
Proof.
  induction history as [|[e r] h IH] using rev_ind.
  - constructor.
  - rewrite run_app. pose proof (run_invariant like_escape h) as [Hok _].
    destruct (run like_escape h) as [w c]. simpl. now apply serve_well_kept.
Qed.

End Kept.

(** X15: whatever requests the application has served, every stored
    album has a title of 1 to 200 characters and an artist of 1 to
    100 characters, both without white space at their ends, a release
    year (if any) not before 1900, a genre, record label, country,
    barcode and notes that (if any) have no white space at their
    ends, and an owner.  Nothing is said of the condition, which the
    forms store as submitted, white space included. *)
Theorem X15_stored_albums_are_well_kept (like_escape : option ascii)
    (history : list (Env * Request)) (a : Album.t) :
  In a (albums (tables (fst (run like_escape history)))) -> well_kept a.
Proof.
  intros Hin. pose proof (run_well_kept like_escape history) as H.
  rewrite Forall_forall in H. now apply H.
Qed.

Lemma X15_stored_albums_are_well_kept_witness :
  well_kept (hd Album.fresh (albums (tables (fst (run None Sample.history))))).
Proof.
  apply (X15_stored_albums_are_well_kept None Sample.history).
  vm_compute. left. reflexivity.
Defined.

(* ================================================================== *)
(** * Further properties: identity along a history, invalid forms *)
(* ================================================================== *)

(** A cookie that identifies a user keeps identifying that user when
    rows are added to the users table. *)
Lemma current_user_extends (cookie : option text) (e : Env) (s s' : State) (u : User.t) :
  extends (users (stored s)) (users (stored s')) ->
  authenticated cookie e s u -> authenticated cookie e s' u.
Proof.
  intros (more & Hext). unfold authenticated, get_current_user_from_cookie.
  destruct cookie as [token|]; [|discriminate].
  destruct (Text.falsy token); [discriminate|].
  unfold bind, ask, ret, Db.query_users.
  destruct (decode_token e token) as [[name|]|]; try discriminate.
  destruct (Text.falsy name); [discriminate|].
  intros H. injection H as Hfind. now rewrite Hext, find_append, Hfind.
Qed.

(** X4: a cookie that identifies a user goes on identifying that
    same user, whatever requests the application serves afterwards:
    no request takes the identity away, a logout included, which
    only tells the browser to drop the cookie.  (The token is decoded
    in the same way before and after.) *)
Theorem X4_identity_outlives_requests (like_escape : option ascii)
    (history more : list (Env * Request)) (e : Env) (cookie : option text)
    (u : User.t) :
  authenticated cookie e (open_session (fst (run like_escape history))) u ->
  authenticated cookie e (open_session (fst (run like_escape (history ++ more)))) u.
Proof.
  apply current_user_extends. cbn [open_session stored].
  apply run_extends.
Qed.

(** X4 at work: Alice registers, adds an album and logs out; her
    token still identifies her. *)
Lemma X4_identity_outlives_requests_witness :
  authenticated Sample.alice_cookie Sample.env
    (open_session
       (fst (run None (Sample.history
                       ++ [(Sample.env, mkRequest Sample.alice_cookie GET_logout)]))))
    (User.mk 1 "alice@example.org" "alice" "h:secret" true 1000).
Proof.
  apply (X4_identity_outlives_requests None Sample.history
           [(Sample.env, mkRequest Sample.alice_cookie GET_logout)]).
  reflexivity.
Defined.

(** X17: an album form that fails validation, submitted by a
    logged-in user to the creation route or to the edit route, is
    answered with a page of status 422 and changes neither the stored
    tables nor the log, whether it is the framework that finds the
    title or the artist empty or the route that finds the form
    invalid; the edit route answers so for every album key, existing
    or not. *)
Theorem X17_invalid_forms_change_nothing (esc : option ascii) (e : Env) (w : World)
    (r : Request) (f : AlbumForm) (u : User.t) :
  authenticated (access_token r) e (open_session w) u ->
  route r = POST_albums_new f \/ (exists album_id, route r = POST_album_edit album_id f) ->
  ~ valid_form e f ->
  exists template context,
    serve esc e w r = (Some (TemplateResponse template context 422), w).
Proof.
  intros Hauth Hroute Hinv. destruct w as [t j]. destruct r as [cookie rt].
  cbn [route access_token] in *.
  assert (Hprot : protected rt = true)
    by (destruct Hroute as [->|(i & ->)]; reflexivity).
  unfold serve, app, with_handlers, try_except.
  destruct (dispatch_cases esc (mkRequest cookie rt) e (open_session (mkWorld t j)))
    as [[_ ->]|[Hrej ->]].
  - unfold endpoint. cbn [route access_token].
    destruct Hroute as [->|(i & ->)].
    + destruct (create_new_album_invalid e _ cookie u Hauth f Hinv) as (err & ->).
      do 2 eexists. reflexivity.
    + destruct (edit_album_invalid e _ cookie u Hauth i f Hinv) as (err & ->).
      do 2 eexists. reflexivity.
  - cbn [route] in *. cbn [find fst snd any_exception].
    unfold handle_exception, validation_exception_handler.
    rewrite (album_paths rt Hprot). unfold bind, ask, ret.
    do 2 eexists. reflexivity.
Qed.

(** X17 at work: a blank title and the year 1812 pass the framework
    and are refused by the route; an empty title is refused by the
    framework. *)
Lemma X17_invalid_forms_change_nothing_witness :
  (exists template context,
      serve None Sample.env Sample.world
            (mkRequest Sample.alice_cookie (POST_albums_new Demo.invalid_form))
      = (Some (TemplateResponse template context 422), Sample.world)) /\
  (exists template context,
      serve None Sample.env Sample.world
            (mkRequest Sample.alice_cookie
               (POST_album_edit 2 (mkForm "" "Miles Davis" None None None None
                                          None None None)))
      = (Some (TemplateResponse template context 422), Sample.world)).
Proof.
  split.
  - apply (X17_invalid_forms_change_nothing None Sample.env Sample.world
             (mkRequest Sample.alice_cookie (POST_albums_new Demo.invalid_form))
             Demo.invalid_form Sample.alice).
    + reflexivity.
    + now left.
    + vm_compute. discriminate.
  - apply (X17_invalid_forms_change_nothing None Sample.env Sample.world
             (mkRequest Sample.alice_cookie
                (POST_album_edit 2 (mkForm "" "Miles Davis" None None None None
                                           None None None)))
             (mkForm "" "Miles Davis" None None None None None None None)
             Sample.alice).
    + reflexivity.
    + right. now exists 2.
    + vm_compute. discriminate.
Defined.
